(** * Authenticated data packages: the limited JSON streamer and the
      two-pass streaming verifier of [psiphon/common/authPackage.go]

    The development embeds the Go code shallowly.  A Go [string] and a
    [[]byte] are both sequences of bytes, modelled as [list ascii]; an
    [io.Reader] is modelled by the sequence of results its one-byte reads
    produce; Go's multiple results [(value, error)] become sums. *)

From Stdlib Require Import String Ascii List Bool Arith Lia NArith.
Import ListNotations.

(* ================================================================= *)
(** ** Bytes, errors and results *)

Definition bytes := list ascii.

(** A byte-string literal. *)
Definition B (s : string) : bytes := list_ascii_of_string s.

Definition byte_quote : ascii := "034"%char.
Definition byte_backslash : ascii := "\"%char.

Fixpoint bytes_eqb (x y : bytes) : bool :=
  match x, y with
  | [], [] => true
  | a :: x', b :: y' => Ascii.eqb a b && bytes_eqb x' y'
  | _, _ => false
  end.

(** Go's [error] values that the package produces or passes on.
    [fmt_Errorf] keeps the format and the formatted operand apart;
    [library_error] stands for the error values of the libraries
    (base64, x509, rsa, zlib, json, os), told apart by a code. *)
Inductive error : Type :=
  | io_EOF
  | errors_New (msg : string)
  | fmt_Errorf (format : string) (operand : bytes)
  | library_error (code : nat)
  | Context (e : error).

Definition is_EOF (e : error) : bool :=
  match e with io_EOF => true | _ => false end.

(** Modelled from the spec: [ContextError] is defined in another file of
    the package (not among the sources); it wraps an error with the
    calling context ("errors carry context identifying the failing
    stage") and never returns nil for a non-nil error. *)
Definition ContextError (e : error) : error := Context e.

(** [(T, error)] results. *)
Inductive result (A : Type) : Type :=
  | Ok (a : A)
  | Err (e : error).
Arguments Ok {A} a.
Arguments Err {A} e.

(* ================================================================= *)
(** ** Byte sources ([io.Reader]) *)

(** What one call [Read(p)] with [len(p) = 1] returns: one byte, with or
    without an error ([n = 1]), or no byte and an error ([n = 0]).  The
    pair [(0, nil)] is left out: readers must not return it for a
    non-empty buffer, and the decompressor never does. *)
Inductive read_event : Type :=
  | data_byte (b : ascii) (err : option error)
  | no_data (err : error).

(** The state of a reader is the sequence of results still to come; an
    exhausted sequence returns [(0, io.EOF)] for ever. *)
Definition Reader := list read_event.

Definition reader_Read (r : Reader) : read_event * Reader :=
  match r with
  | [] => (no_data io_EOF, [])
  | ev :: r' => (ev, r')
  end.

(** The reader that hands out the bytes [j] one by one and then is at
    end of file. *)
Definition bytes_Reader (j : bytes) : Reader :=
  map (fun b => data_byte b None) j.

(* ================================================================= *)
(** ** [limitedJSONValueStreamer] *)

(** The [mutex] field serialises calls and has no sequential content.
    [reader] is the reader of the [limitedJSONStreamer] that created the
    value streamer: the two share it, so the state of that reader after a
    [Read] is part of the value streamer's new state. *)
Record limitedJSONValueStreamer : Type := {
  eof : bool;
  reader : Reader
}.

(** The loop [for i = 0; i < len(p); i++] of [Read], run for [len] more
    iterations: the bytes stored and counted, the error, the new [eof]
    flag and the reader. *)
Fixpoint Read_loop (len : nat) (r : Reader)
  : bytes * option error * bool * Reader :=
  match len with
  | 0 => ([], None, false, r)
  | S len' =>
      match reader_Read r with
      | (data_byte b err, r') =>
          if Ascii.eqb b byte_quote then
            ([], Some io_EOF, true, r')
          else if Ascii.eqb b byte_backslash then
            ([], Some (ContextError (errors_New "unsupported escaped character")),
             false, r')
          else
            match err with
            | Some e => ([], Some e, false, r')
            | None =>
                let '(bs, e, eof', r'') := Read_loop len' r' in
                (b :: bs, e, eof', r'')
            end
      | (no_data e, r') => ([], Some e, false, r')
      end
  end.

(** [Read(p)] with [len(p) = len]: the bytes [p[0:i]] and the error
    returned, and the streamer afterwards. *)
Definition Read (len : nat) (streamer : limitedJSONValueStreamer)
  : (bytes * option error) * limitedJSONValueStreamer :=
  if eof streamer then
    (([], Some io_EOF), streamer)
  else
    let '(bs, e, eof', r') := Read_loop len (reader streamer) in
    ((bs, e), {| eof := eof'; reader := r' |}).

(** The loop shared by [io.Copy] and [ioutil.ReadAll]: [Read] into a
    buffer of [chunk] bytes until an error, collecting what was read;
    [io.EOF] ends it without error.  The loop takes [fuel] iterations
    (see [read_to_end_total]). *)
Fixpoint read_loop (fuel chunk : nat) (value : limitedJSONValueStreamer)
    (acc : bytes) : option (bytes * option error * limitedJSONValueStreamer) :=
  match fuel with
  | 0 => None
  | S fuel' =>
      let '((bs, e), value') := Read chunk value in
      match e with
      | Some e =>
          Some (acc ++ bs, if is_EOF e then None else Some e, value')
      | None => read_loop fuel' chunk value' (acc ++ bs)
      end
  end.

Definition read_to_end (chunk : nat) (value : limitedJSONValueStreamer) :=
  read_loop (S (length (reader value))) chunk value [].

(** [io.Copy] reads through a buffer of 32 KiB, [ioutil.ReadAll] into at
    least [bytes.MinRead] free bytes. *)
Definition io_Copy_buffer : nat := 32 * 1024.
Definition bytes_MinRead : nat := 512.

(** [ioutil.ReadAll(value)]. *)
Definition ioutil_ReadAll (value : limitedJSONValueStreamer) :=
  read_to_end bytes_MinRead value.

(** [io.Copy(hash, value)]: [hash] is the sequence of bytes written to the
    running hash so far. *)
Definition io_Copy (hash : bytes) (value : limitedJSONValueStreamer)
  : option (bytes * option error * limitedJSONValueStreamer) :=
  match read_to_end io_Copy_buffer value with
  | Some (bs, e, value') => Some (hash ++ bs, e, value')
  | None => None
  end.

Arguments read_to_end : simpl never.
Arguments ioutil_ReadAll : simpl never.
Arguments io_Copy : simpl never.

(* ================================================================= *)
(** ** [limitedJSONStreamer] *)

Inductive stateJSON : Type :=
  | stateJSONSeekingObjectStart
  | stateJSONSeekingKeyStart
  | stateJSONSeekingKeyEnd
  | stateJSONSeekingColon
  | stateJSONSeekingStringValueStart
  | stateJSONSeekingStringValueEnd
  | stateJSONSeekingNextPair
  | stateJSONObjectEnd.

Definition isWhitespace (b : ascii) : bool :=
  Ascii.eqb b " " || Ascii.eqb b "009" || Ascii.eqb b "013" || Ascii.eqb b "010".

Definition is_ObjectEnd (s : stateJSON) : bool :=
  match s with stateJSONObjectEnd => true | _ => false end.

Section Streamer.

(** The variables the handler closure captures and assigns. *)
Variable V : Type.

(** [handler(key, value)]: the results [(bool, error)], the value
    streamer and the captured variables afterwards; [None] when a loop
    inside the handler ran out of fuel. *)
Definition handler_type : Type :=
  bytes -> limitedJSONValueStreamer -> V ->
  option ((bool * option error) * limitedJSONValueStreamer * V).

Variable handler : handler_type.

Definition unexpected (b : ascii) (while : string) : error :=
  ContextError
    (fmt_Errorf (String.append "unexpected character %#U while seeking " while)
       [b]).

(** What the [switch state] does with one byte. *)
Inductive switch_result : Type :=
  | next (state : stateJSON) (keyBuffer : bytes) (r : Reader) (v : V)
  | return_ (err : option error) (v : V)
  | out_of_fuel.

Definition switch (state : stateJSON) (keyBuffer : bytes) (b : ascii)
    (r : Reader) (v : V) : switch_result :=
  match state with
  | stateJSONSeekingObjectStart =>
      if Ascii.eqb b "{" then next stateJSONSeekingKeyStart keyBuffer r v
      else if negb (isWhitespace b) then
        return_ (Some (unexpected b "object start")) v
      else next state keyBuffer r v
  | stateJSONSeekingKeyStart =>
      if Ascii.eqb b byte_quote then next stateJSONSeekingKeyEnd [] r v
      else if negb (isWhitespace b) then
        return_ (Some (unexpected b "key start")) v
      else next state keyBuffer r v
  | stateJSONSeekingKeyEnd =>
      if Ascii.eqb b byte_backslash then
        return_
          (Some (ContextError (errors_New "unsupported escaped character"))) v
      else if Ascii.eqb b byte_quote then
        next stateJSONSeekingColon keyBuffer r v
      else next state (keyBuffer ++ [b]) r v
  | stateJSONSeekingColon =>
      if Ascii.eqb b ":" then next stateJSONSeekingStringValueStart keyBuffer r v
      else if negb (isWhitespace b) then
        return_ (Some (unexpected b "colon")) v
      else next state keyBuffer r v
  | stateJSONSeekingStringValueStart =>
      if Ascii.eqb b byte_quote then
        let key := keyBuffer in
        let valueStreamer := {| eof := false; reader := r |} in
        match handler key valueStreamer v with
        | None => out_of_fuel
        | Some ((continueStreaming, err), valueStreamer', v') =>
            match err with
            | Some err => return_ (Some (ContextError err)) v'
            | None =>
                if negb continueStreaming then return_ None v'
                else
                  next stateJSONSeekingNextPair keyBuffer
                    (reader valueStreamer') v'
            end
        end
      else if negb (isWhitespace b) then
        return_ (Some (unexpected b "value start")) v
      else next state keyBuffer r v
  | stateJSONSeekingNextPair =>
      if Ascii.eqb b "," then next stateJSONSeekingKeyStart keyBuffer r v
      else if Ascii.eqb b "}" then next stateJSONObjectEnd keyBuffer r v
      else if negb (isWhitespace b) then
        return_ (Some (unexpected b "next name/value pair")) v
      else next state keyBuffer r v
  | stateJSONObjectEnd =>
      if negb (isWhitespace b) then
        return_
          (Some (ContextError
             (fmt_Errorf "unexpected character %#U after object end" [b]))) v
      else next state keyBuffer r v
  | stateJSONSeekingStringValueEnd =>
      return_ (Some (ContextError (errors_New "unexpected state"))) v
  end.

(** The [if readErr != nil] block that ends each iteration. *)
Definition on_readErr (readErr : error) (state : stateJSON) : option error :=
  if is_EOF readErr then
    if negb (is_ObjectEnd state) then
      Some (ContextError (errors_New "unexpected EOF before object end"))
    else None
  else Some (ContextError readErr).

(** The [for] loop of [Stream], for at most [fuel] iterations: the
    error returned and the captured variables, or [None] when the fuel
    ran out. *)
Fixpoint Stream_loop (fuel : nat) (state : stateJSON) (keyBuffer : bytes)
    (r : Reader) (v : V) : option (option error * V) :=
  match fuel with
  | 0 => None
  | S fuel' =>
      match reader_Read r with
      | (data_byte b readErr, r') =>
          match switch state keyBuffer b r' v with
          | out_of_fuel => None
          | return_ err v' => Some (err, v')
          | next state' keyBuffer' r'' v' =>
              match readErr with
              | Some readErr => Some (on_readErr readErr state', v')
              | None => Stream_loop fuel' state' keyBuffer' r'' v'
              end
          end
      | (no_data readErr, _) => Some (on_readErr readErr state, v)
      end
  end.

(** [streamer.Stream()] on a streamer whose [reader] field is [r].
    Every iteration takes at least one read result from the reader, so
    one more iteration than there are results is enough whenever the
    handler only reads from the value streamer. *)
Definition Stream (r : Reader) (v : V) : option (option error * V) :=
  Stream_loop (S (length r)) stateJSONSeekingObjectStart [] r v.

End Streamer.

Arguments next {V} state keyBuffer r v.
Arguments return_ {V} err v.
Arguments out_of_fuel {V}.
Arguments switch {V} handler state keyBuffer b r v.
Arguments Stream_loop {V} handler fuel state keyBuffer r v.
Arguments Stream {V} handler r v.

(* ================================================================= *)
(** ** The libraries the package calls *)

(** [AuthenticatedDataPackage].  A nil and an empty [[]byte] are not told
    apart in the two byte fields: [bytes.Compare] and the verification
    treat them alike. *)
Record AuthenticatedDataPackage : Type := {
  Data : bytes;
  SigningPublicKeyDigest : bytes;
  Signature : bytes
}.

(** An open [*os.File] as the two passes see it: the result of
    [file.Seek(0, 0)] in each pass (nil or an error) and the bytes the file
    holds while that pass reads it.  No lock is held between the passes, so
    the contents may differ from one pass to the next. *)
Record File : Type := {
  Seek : nat -> option error;
  contents : nat -> bytes
}.

(** The Go standard library functions and [Compress], which the package
    defines in another file, are parameters of the model.
    [x509_ParsePKIXPublicKey] returns [Some k] for a [*rsa.PublicKey] and
    [None] for a key of another type.  [json_Unmarshal] decodes into a
    [*AuthenticatedDataPackage] that is nil before the call: [Some p] is
    the pointer to a decoded package, [None] the pointer left nil.
    [rsa_GenerateKey] takes what [rand.Reader] delivers.
    [zlib_NewReader data] is the decompressor over a source holding
    [data]. *)
Record Library : Type := {
  rsa_PublicKey : Type;
  rsa_PrivateKey : Type;
  sha256_Sum256 : bytes -> bytes;
  base64_EncodeToString : bytes -> bytes;
  base64_DecodeString : bytes -> result bytes;
  rsa_GenerateKey : nat -> result rsa_PrivateKey;
  rsa_Public : rsa_PrivateKey -> rsa_PublicKey;
  x509_MarshalPKIXPublicKey : rsa_PublicKey -> result bytes;
  x509_MarshalPKCS1PrivateKey : rsa_PrivateKey -> bytes;
  x509_ParsePKIXPublicKey : bytes -> result (option rsa_PublicKey);
  x509_ParsePKCS1PrivateKey : bytes -> result rsa_PrivateKey;
  rsa_SignPKCS1v15 : rsa_PrivateKey -> bytes -> result bytes;
  rsa_VerifyPKCS1v15 : rsa_PublicKey -> bytes -> bytes -> option error;
  json_Marshal : AuthenticatedDataPackage -> result bytes;
  json_Unmarshal : bytes -> result (option AuthenticatedDataPackage);
  Compress : bytes -> bytes;
  zlib_NewReader : bytes -> result Reader;
  os_Open : bytes -> result File
}.

(** [ioutil.ReadAll] on a reader itself: the bytes up to the first error,
    which is dropped when it is [io.EOF]. *)
Fixpoint reader_ReadAll (r : Reader) : bytes * option error :=
  match r with
  | [] => ([], None)
  | data_byte b None :: r' =>
      let '(bs, e) := reader_ReadAll r' in (b :: bs, e)
  | data_byte b (Some e) :: _ => ([b], if is_EOF e then None else Some e)
  | no_data e :: _ => ([], if is_EOF e then None else Some e)
  end.

(** Modelled from the spec: [Decompress] is defined in another file of
    the package (not among the sources); it runs the zlib decompressor
    over the whole input and surfaces the decompressor's errors. *)
Definition Decompress (L : Library) (data : bytes) : result bytes :=
  match zlib_NewReader L data with
  | Err e => Err (ContextError e)
  | Ok r =>
      match reader_ReadAll r with
      | (_, Some e) => Err (ContextError e)
      | (uncompressedData, None) => Ok uncompressedData
      end
  end.

(* ================================================================= *)
(** ** The in-memory writer and reader *)

Definition GenerateAuthenticatedDataPackageKeys (L : Library) (random : nat)
  : result (bytes * bytes) :=
  match rsa_GenerateKey L random with
  | Err err => Err (ContextError err)
  | Ok rsaKey =>
      match x509_MarshalPKIXPublicKey L (rsa_Public L rsaKey) with
      | Err err => Err (ContextError err)
      | Ok publicKeyBytes =>
          let privateKeyBytes := x509_MarshalPKCS1PrivateKey L rsaKey in
          Ok (base64_EncodeToString L publicKeyBytes,
              base64_EncodeToString L privateKeyBytes)
      end
  end.

Definition sha256sum (L : Library) (data : bytes) : bytes :=
  sha256_Sum256 L data.

Definition WriteAuthenticatedDataPackage (L : Library)
    (data signingPublicKey signingPrivateKey : bytes) : result bytes :=
  match base64_DecodeString L signingPrivateKey with
  | Err err => Err (ContextError err)
  | Ok derEncodedPrivateKey =>
  match x509_ParsePKCS1PrivateKey L derEncodedPrivateKey with
  | Err err => Err (ContextError err)
  | Ok rsaPrivateKey =>
  match rsa_SignPKCS1v15 L rsaPrivateKey (sha256sum L data) with
  | Err err => Err (ContextError err)
  | Ok signature =>
  match json_Marshal L
          {| Data := data;
             SigningPublicKeyDigest := sha256sum L signingPublicKey;
             Signature := signature |} with
  | Err err => Err (ContextError err)
  | Ok packageJSON => Ok (Compress L packageJSON)
  end end end end.

(** What a call does: it returns a value, returns an error, or panics. *)
Inductive outcome (A : Type) : Type :=
  | returns (a : A)
  | fails (e : error)
  | panics (msg : string).
Arguments returns {A} a.
Arguments fails {A} e.
Arguments panics {A} msg.

(** Reading a field through a pointer that is nil panics. *)
Definition nil_dereference : string :=
  "invalid memory address or nil pointer dereference".

Definition ReadAuthenticatedDataPackage (L : Library)
    (compressedPackage signingPublicKey : bytes) : outcome bytes :=
  match Decompress L compressedPackage with
  | Err err => fails (ContextError err)
  | Ok packageJSON =>
  match json_Unmarshal L packageJSON with
  | Err err => fails (ContextError err)
  | Ok authenticatedDataPackage =>
  match base64_DecodeString L signingPublicKey with
  | Err err => fails (ContextError err)
  | Ok derEncodedPublicKey =>
  match x509_ParsePKIXPublicKey L derEncodedPublicKey with
  | Err err => fails (ContextError err)
  | Ok None =>
      fails (ContextError (errors_New "unexpected signing public key type"))
  | Ok (Some rsaPublicKey) =>
  match authenticatedDataPackage with
  | None => panics nil_dereference
  | Some package =>
      if negb (bytes_eqb (SigningPublicKeyDigest package)
                         (sha256sum L signingPublicKey)) then
        fails (ContextError
                 (errors_New "unexpected signing public key digest"))
      else
        match rsa_VerifyPKCS1v15 L rsaPublicKey
                (sha256sum L (Data package)) (Signature package) with
        | Some err => fails (ContextError err)
        | None => returns (Data package)
        end
  end end end end end.

(* ================================================================= *)
(** ** The streaming reader *)

(** The variables of one pass that [jsonHandler] captures: the bytes
    written to [hash] so far, and the three [json...] variables, [None]
    for nil. *)
Record pass_variables : Type := {
  hash : bytes;
  jsonData : option limitedJSONValueStreamer;
  jsonSigningPublicKey : option bytes;
  jsonSignature : option bytes
}.

Definition jsonReadBase64Value (L : Library) (value : limitedJSONValueStreamer)
  : option (result bytes * limitedJSONValueStreamer) :=
  match ioutil_ReadAll value with
  | None => None
  | Some (_, Some err, value') => Some (Err (ContextError err), value')
  | Some (base64Value, None, value') =>
      match base64_DecodeString L base64Value with
      | Err err => Some (Err (ContextError err), value')
      | Ok decodedValue => Some (Ok decodedValue, value')
      end
  end.

Definition jsonHandler (L : Library) (pass : nat)
  : handler_type pass_variables :=
  fun key value v =>
  if bytes_eqb key (B "data") then
    if Nat.eqb pass 0 then
      match io_Copy (hash v) value with
      | None => None
      | Some (hash', Some err, value') =>
          Some ((false, Some (ContextError err)), value',
                {| hash := hash'; jsonData := jsonData v;
                   jsonSigningPublicKey := jsonSigningPublicKey v;
                   jsonSignature := jsonSignature v |})
      | Some (hash', None, value') =>
          Some ((true, None), value',
                {| hash := hash'; jsonData := jsonData v;
                   jsonSigningPublicKey := jsonSigningPublicKey v;
                   jsonSignature := jsonSignature v |})
      end
    else
      Some ((false, None), value,
            {| hash := hash v; jsonData := Some value;
               jsonSigningPublicKey := jsonSigningPublicKey v;
               jsonSignature := jsonSignature v |})
  else if bytes_eqb key (B "signingPublicKeyDigest") then
    match jsonReadBase64Value L value with
    | None => None
    | Some (Err err, value') =>
        Some ((false, Some (ContextError err)), value',
              {| hash := hash v; jsonData := jsonData v;
                 jsonSigningPublicKey := None;
                 jsonSignature := jsonSignature v |})
    | Some (Ok decodedValue, value') =>
        Some ((true, None), value',
              {| hash := hash v; jsonData := jsonData v;
                 jsonSigningPublicKey := Some decodedValue;
                 jsonSignature := jsonSignature v |})
    end
  else if bytes_eqb key (B "signature") then
    match jsonReadBase64Value L value with
    | None => None
    | Some (Err err, value') =>
        Some ((false, Some (ContextError err)), value',
              {| hash := hash v; jsonData := jsonData v;
                 jsonSigningPublicKey := jsonSigningPublicKey v;
                 jsonSignature := None |})
    | Some (Ok decodedValue, value') =>
        Some ((true, None), value',
              {| hash := hash v; jsonData := jsonData v;
                 jsonSigningPublicKey := jsonSigningPublicKey v;
                 jsonSignature := Some decodedValue |})
    end
  else
    Some ((false, Some (ContextError (fmt_Errorf "unexpected key '%s'" key))),
          value, v).

(** The variables as each pass declares them. *)
Definition fresh_variables : pass_variables :=
  {| hash := []; jsonData := None;
     jsonSigningPublicKey := None; jsonSignature := None |}.

(** The [io.ReadCloser] handed to the caller: [jsonData] as its reader and
    the file as its closer. *)
Record payload : Type := {
  payload_Reader : limitedJSONValueStreamer;
  payload_Closer : File
}.

(** The checks of pass 0 after the stream has ended. *)
Definition verify (L : Library) (signingPublicKey : bytes) (v : pass_variables)
  : option error :=
  match jsonSigningPublicKey v, jsonSignature v with
  | Some jsonSigningPublicKey, Some jsonSignature =>
      match base64_DecodeString L signingPublicKey with
      | Err err => Some (ContextError err)
      | Ok derEncodedPublicKey =>
      match x509_ParsePKIXPublicKey L derEncodedPublicKey with
      | Err err => Some (ContextError err)
      | Ok None =>
          Some (ContextError
                  (errors_New "unexpected signing public key type"))
      | Ok (Some rsaPublicKey) =>
          if negb (bytes_eqb jsonSigningPublicKey
                             (sha256sum L signingPublicKey)) then
            Some (ContextError
                    (errors_New "unexpected signing public key digest"))
          else
            match rsa_VerifyPKCS1v15 L rsaPublicKey
                    (sha256_Sum256 L (hash v)) jsonSignature with
            | Some err => Some (ContextError err)
            | None => None
            end
      end end
  | _, _ => Some (ContextError (errors_New "missing expected field"))
  end.

(** The body of the loop [for pass := 0; pass < 2; pass++]: an error to
    return, or the value of [payload] after the pass; [None] when a loop
    ran out of fuel. *)
Definition pass_body (L : Library) (file : File) (signingPublicKey : bytes)
    (pass : nat) (payload_ : option payload)
  : option (result (option payload)) :=
  match Seek file pass with
  | Some err => Some (Err (ContextError err))
  | None =>
  match zlib_NewReader L (contents file pass) with
  | Err err => Some (Err (ContextError err))
  | Ok decompressor =>
  match Stream (jsonHandler L pass) decompressor fresh_variables with
  | None => None
  | Some (Some err, _) => Some (Err (ContextError err))
  | Some (None, v) =>
      if Nat.eqb pass 0 then
        match verify L signingPublicKey v with
        | Some err => Some (Err err)
        | None => Some (Ok payload_)
        end
      else
        match jsonData v with
        | None =>
            Some (Err (ContextError (errors_New "missing expected field")))
        | Some jsonData =>
            Some (Ok (Some {| payload_Reader := jsonData;
                              payload_Closer := file |}))
        end
  end end end.

(** The loop over the passes [pass], [pass + 1], ... ([todo] of them). *)
Fixpoint passes (L : Library) (file : File) (signingPublicKey : bytes)
    (todo pass : nat) (payload_ : option payload)
  : option (result (option payload)) :=
  match todo with
  | 0 => Some (Ok payload_)
  | S todo' =>
      match pass_body L file signingPublicKey pass payload_ with
      | None => None
      | Some (Err err) => Some (Err err)
      | Some (Ok payload') =>
          passes L file signingPublicKey todo' (S pass) payload'
      end
  end.

(** [StreamingReadAuthenticatedDataPackage].  Closing the file (by the
    deferred function on an error, by the caller through the returned
    closer otherwise) is not modelled. *)
Definition StreamingReadAuthenticatedDataPackage (L : Library)
    (packageFileName signingPublicKey : bytes)
  : option (result (option payload)) :=
  match os_Open L packageFileName with
  | Err err => Some (Err (ContextError err))
  | Ok file => passes L file signingPublicKey 2 0 None
  end.


(* ================================================================= *)
(** ** A stand-in library *)

(** The theorems below hold for every [Library].  To run the model on
    concrete packages, this section gives one: base64 as the standard
    defines it (padded, standard alphabet), a JSON encoder and decoder for
    the package that treat strings the way [encoding/json] does, and
    small stand-ins for the cryptography and for zlib.  Keys are numbers;
    the digest of a byte string is the string itself, so that two digests
    agree only on equal data; a signature names the key and repeats the
    digest; compression adds the two header bytes of a zlib stream. *)

Definition byte_in (lo hi : N) (b : ascii) : bool :=
  N.leb lo (N_of_ascii b) && N.leb (N_of_ascii b) hi.

(** *** base64 *)

Definition base64_alphabet : bytes :=
  B "ABCDEFGHIJKLMNOPQRSTUVWXYZabcdefghijklmnopqrstuvwxyz0123456789+/".

Definition base64_char (n : N) : ascii :=
  nth (N.to_nat n) base64_alphabet "="%char.

Fixpoint base64_encode (x : bytes) : bytes :=
  match x with
  | [] => []
  | [a] =>
      let n := (N_of_ascii a * 16)%N in
      [base64_char (n / 64); base64_char (n mod 64); "="%char; "="%char]
  | [a; b] =>
      let n := ((N_of_ascii a * 256 + N_of_ascii b) * 4)%N in
      [base64_char (n / 4096); base64_char ((n / 64) mod 64);
       base64_char (n mod 64); "="%char]
  | a :: b :: c :: rest =>
      let n := (N_of_ascii a * 65536 + N_of_ascii b * 256 + N_of_ascii c)%N in
      base64_char (n / 262144) :: base64_char ((n / 4096) mod 64)
      :: base64_char ((n / 64) mod 64) :: base64_char (n mod 64)
      :: base64_encode rest
  end.

Definition base64_value (c : ascii) : option N :=
  let n := N_of_ascii c in
  if byte_in 65 90 c then Some (n - 65)%N
  else if byte_in 97 122 c then Some (n - 71)%N
  else if byte_in 48 57 c then Some (n + 4)%N
  else if Ascii.eqb c "+" then Some 62%N
  else if Ascii.eqb c "/" then Some 63%N
  else None.

Definition base64_corrupt : error := library_error 1.

Fixpoint base64_decode (s : bytes) : result bytes :=
  match s with
  | [] => Ok []
  | a :: b :: c :: d :: rest =>
      match base64_value a, base64_value b with
      | Some va, Some vb =>
          let b0 := ascii_of_N ((va * 4 + vb / 16) mod 256) in
          if Ascii.eqb c "=" then
            match Ascii.eqb d "=", rest with
            | true, [] => Ok [b0]
            | _, _ => Err base64_corrupt
            end
          else
            match base64_value c with
            | None => Err base64_corrupt
            | Some vc =>
                let b1 := ascii_of_N ((vb * 16 + vc / 4) mod 256) in
                if Ascii.eqb d "=" then
                  match rest with
                  | [] => Ok [b0; b1]
                  | _ => Err base64_corrupt
                  end
                else
                  match base64_value d with
                  | None => Err base64_corrupt
                  | Some vd =>
                      let b2 := ascii_of_N ((vc * 64 + vd) mod 256) in
                      match base64_decode rest with
                      | Ok t => Ok (b0 :: b1 :: b2 :: t)
                      | Err e => Err e
                      end
                  end
            end
      | _, _ => Err base64_corrupt
      end
  | _ => Err base64_corrupt
  end.

(** *** UTF-8 *)

Definition utf8_continuation (b : ascii) : bool := byte_in 128 191 b.

(** The length of the well-formed UTF-8 sequence at the head of [s], or 0
    when there is none. *)
Definition utf8_rune_length (s : bytes) : nat :=
  match s with
  | [] => 0
  | b0 :: t =>
      if byte_in 0 127 b0 then 1
      else
        match t with
        | [] => 0
        | b1 :: t1 =>
            if byte_in 194 223 b0 && utf8_continuation b1 then 2
            else
              match t1 with
              | [] => 0
              | b2 :: t2 =>
                  if ((byte_in 224 224 b0 && byte_in 160 191 b1)
                      || (byte_in 225 236 b0 && utf8_continuation b1)
                      || (byte_in 237 237 b0 && byte_in 128 159 b1)
                      || (byte_in 238 239 b0 && utf8_continuation b1))
                     && utf8_continuation b2 then 3
                  else
                    match t2 with
                    | [] => 0
                    | b3 :: _ =>
                        if ((byte_in 240 240 b0 && byte_in 144 191 b1)
                            || (byte_in 241 243 b0 && utf8_continuation b1)
                            || (byte_in 244 244 b0 && byte_in 128 143 b1))
                           && utf8_continuation b2 && utf8_continuation b3
                        then 4
                        else 0
                    end
              end
        end
  end.

Fixpoint utf8_Valid_loop (fuel : nat) (s : bytes) : bool :=
  match fuel, s with
  | _, [] => true
  | 0, _ => false
  | S fuel', _ =>
      match utf8_rune_length s with
      | 0 => false
      | n => utf8_Valid_loop fuel' (skipn n s)
      end
  end.

(** [utf8.Valid]. *)
Definition utf8_Valid (s : bytes) : bool := utf8_Valid_loop (length s) s.

(** U+FFFD, the replacement character, in UTF-8. *)
Definition utf8_replacement : bytes := ["239"%char; "191"%char; "189"%char].

(** A string coerced to valid UTF-8: every byte that starts no
    well-formed sequence becomes U+FFFD. *)
Fixpoint utf8_coerce_loop (fuel : nat) (s : bytes) : bytes :=
  match fuel, s with
  | _, [] => []
  | 0, _ => []
  | S fuel', b :: t =>
      match utf8_rune_length s with
      | 0 => utf8_replacement ++ utf8_coerce_loop fuel' t
      | n => firstn n s ++ utf8_coerce_loop fuel' (skipn n s)
      end
  end.

Definition utf8_coerce (s : bytes) : bytes := utf8_coerce_loop (length s) s.

(** The UTF-8 encoding of a code point of the basic plane; a surrogate
    becomes U+FFFD. *)
Definition utf8_encode (cp : N) : bytes :=
  if N.ltb cp 128 then [ascii_of_N cp]
  else if N.ltb cp 2048 then
    [ascii_of_N (192 + cp / 64); ascii_of_N (128 + cp mod 64)]
  else if N.leb 55296 cp && N.leb cp 57343 then utf8_replacement
  else
    [ascii_of_N (224 + cp / 4096); ascii_of_N (128 + (cp / 64) mod 64);
     ascii_of_N (128 + cp mod 64)].

(** *** JSON *)

Definition quoted (s : bytes) : bytes := byte_quote :: s ++ [byte_quote].

Definition hex_char (n : N) : ascii :=
  nth (N.to_nat n) (B "0123456789abcdef") "0"%char.

(** A backslash and what follows it. *)
Definition json_escape (s : string) : bytes := byte_backslash :: B s.

(** How [json.Marshal] writes one ASCII byte of a string. *)
Definition json_escape_byte (b : ascii) : bytes :=
  if Ascii.eqb b byte_quote || Ascii.eqb b byte_backslash then
    [byte_backslash; b]
  else if Ascii.eqb b "010" then json_escape "n"
  else if Ascii.eqb b "013" then json_escape "r"
  else if Ascii.eqb b "009" then json_escape "t"
  else if byte_in 0 31 b || Ascii.eqb b "<" || Ascii.eqb b ">"
          || Ascii.eqb b "&" then
    json_escape "u00" ++ [hex_char (N_of_ascii b / 16); hex_char (N_of_ascii b mod 16)]
  else [b].

(** The inside of the JSON string [json.Marshal] writes for a Go string:
    ASCII escaped as above, well-formed UTF-8 copied (U+2028 and U+2029
    escaped), every other byte replaced by the escape of U+FFFD. *)
Fixpoint json_string_loop (fuel : nat) (s : bytes) : bytes :=
  match fuel, s with
  | _, [] => []
  | 0, _ => []
  | S fuel', b :: t =>
      if byte_in 0 127 b then json_escape_byte b ++ json_string_loop fuel' t
      else
        match utf8_rune_length s with
        | 0 => json_escape "ufffd" ++ json_string_loop fuel' t
        | n =>
            (if bytes_eqb (firstn n s) ["226"%char; "128"%char; "168"%char]
             then json_escape "u2028"
             else if bytes_eqb (firstn n s)
                       ["226"%char; "128"%char; "169"%char]
             then json_escape "u2029"
             else firstn n s)
            ++ json_string_loop fuel' (skipn n s)
        end
  end.

Definition json_string (s : bytes) : bytes :=
  quoted (json_string_loop (length s) s).

(** [json.Marshal] of a package: the fields in the order of the struct,
    the byte slices in base64. *)
Definition standin_Marshal (p : AuthenticatedDataPackage) : result bytes :=
  Ok (B "{" ++ quoted (B "data") ++ B ":" ++ json_string (Data p)
      ++ B "," ++ quoted (B "signingPublicKeyDigest") ++ B ":"
      ++ quoted (base64_encode (SigningPublicKeyDigest p))
      ++ B "," ++ quoted (B "signature") ++ B ":"
      ++ quoted (base64_encode (Signature p)) ++ B "}").

Definition json_syntax_error : error := library_error 2.

(** Where the decoder is inside a string. *)
Inductive json_escape_state : Type :=
  | esc_none
  | esc_backslash
  | esc_unicode (digits : list N).

(** Where the decoder is in the text.  A string is a key ([None]) or the
    value of the member with the given key. *)
Inductive json_state : Type :=
  | js_start
  | js_null (expected : bytes) (top : bool)
  | js_member_or_end
  | js_member
  | js_string (content : bytes) (esc : json_escape_state) (of_key : option bytes)
  | js_colon (key : bytes)
  | js_value (key : bytes)
  | js_after_value
  | js_end (is_nil : bool).

Definition hex_value (c : ascii) : option N :=
  let n := N_of_ascii c in
  if byte_in 48 57 c then Some (n - 48)%N
  else if byte_in 97 102 c then Some (n - 87)%N
  else if byte_in 65 70 c then Some (n - 55)%N
  else None.

(** A decoded string value stored into the field that [key] names; other
    keys are skipped. *)
Definition json_store (key s : bytes) (p : AuthenticatedDataPackage)
  : result AuthenticatedDataPackage :=
  if bytes_eqb key (B "data") then
    Ok {| Data := s; SigningPublicKeyDigest := SigningPublicKeyDigest p;
          Signature := Signature p |}
  else if bytes_eqb key (B "signingPublicKeyDigest") then
    match base64_decode s with
    | Err e => Err e
    | Ok d => Ok {| Data := Data p; SigningPublicKeyDigest := d;
                    Signature := Signature p |}
    end
  else if bytes_eqb key (B "signature") then
    match base64_decode s with
    | Err e => Err e
    | Ok d => Ok {| Data := Data p; SigningPublicKeyDigest := SigningPublicKeyDigest p;
                    Signature := d |}
    end
  else Ok p.

(** The decoder, one byte at a time.  It reads the texts that are [null]
    or one object whose values are strings or [null]; strings may hold
    the escapes of JSON; a value of another kind is reported as an error
    here, and a key matches a field only when it is spelled as the
    field's tag. *)
Fixpoint json_decode (s : bytes) (st : json_state)
    (p : AuthenticatedDataPackage)
  : result (option AuthenticatedDataPackage) :=
  match s with
  | [] =>
      match st with
      | js_end true => Ok None
      | js_end false => Ok (Some p)
      | _ => Err json_syntax_error
      end
  | b :: s' =>
      match st with
      | js_start =>
          if isWhitespace b then json_decode s' st p
          else if Ascii.eqb b "{" then json_decode s' js_member_or_end p
          else if Ascii.eqb b "n" then json_decode s' (js_null (B "ull") true) p
          else Err json_syntax_error
      | js_null expected top =>
          match expected with
          | [] => Err json_syntax_error
          | c :: expected' =>
              if Ascii.eqb b c then
                match expected' with
                | [] =>
                    json_decode s' (if top then js_end true
                                    else js_after_value) p
                | _ => json_decode s' (js_null expected' top) p
                end
              else Err json_syntax_error
          end
      | js_member_or_end =>
          if isWhitespace b then json_decode s' st p
          else if Ascii.eqb b "}" then json_decode s' (js_end false) p
          else if Ascii.eqb b byte_quote then
            json_decode s' (js_string [] esc_none None) p
          else Err json_syntax_error
      | js_member =>
          if isWhitespace b then json_decode s' st p
          else if Ascii.eqb b byte_quote then
            json_decode s' (js_string [] esc_none None) p
          else Err json_syntax_error
      | js_string content esc_none of_key =>
          if Ascii.eqb b byte_quote then
            let str := utf8_coerce content in
            match of_key with
            | None => json_decode s' (js_colon str) p
            | Some key =>
                match json_store key str p with
                | Err e => Err e
                | Ok p' => json_decode s' js_after_value p'
                end
            end
          else if Ascii.eqb b byte_backslash then
            json_decode s' (js_string content esc_backslash of_key) p
          else if byte_in 0 31 b then Err json_syntax_error
          else json_decode s' (js_string (content ++ [b]) esc_none of_key) p
      | js_string content esc_backslash of_key =>
          let plain_escape c :=
            json_decode s' (js_string (content ++ [c]) esc_none of_key) p in
          if Ascii.eqb b byte_quote || Ascii.eqb b byte_backslash
             || Ascii.eqb b "/" then plain_escape b
          else if Ascii.eqb b "b" then plain_escape "008"%char
          else if Ascii.eqb b "f" then plain_escape "012"%char
          else if Ascii.eqb b "n" then plain_escape "010"%char
          else if Ascii.eqb b "r" then plain_escape "013"%char
          else if Ascii.eqb b "t" then plain_escape "009"%char
          else if Ascii.eqb b "u" then
            json_decode s' (js_string content (esc_unicode []) of_key) p
          else Err json_syntax_error
      | js_string content (esc_unicode digits) of_key =>
          match hex_value b with
          | None => Err json_syntax_error
          | Some h =>
              match digits with
              | [h1; h2; h3] =>
                  let cp := (h1 * 4096 + h2 * 256 + h3 * 16 + h)%N in
                  json_decode s'
                    (js_string (content ++ utf8_encode cp) esc_none of_key) p
              | _ =>
                  json_decode s'
                    (js_string content (esc_unicode (digits ++ [h])) of_key) p
              end
          end
      | js_colon key =>
          if isWhitespace b then json_decode s' st p
          else if Ascii.eqb b ":" then json_decode s' (js_value key) p
          else Err json_syntax_error
      | js_value key =>
          if isWhitespace b then json_decode s' st p
          else if Ascii.eqb b byte_quote then
            json_decode s' (js_string [] esc_none (Some key)) p
          else if Ascii.eqb b "n" then json_decode s' (js_null (B "ull") false) p
          else Err json_syntax_error
      | js_after_value =>
          if isWhitespace b then json_decode s' st p
          else if Ascii.eqb b "," then json_decode s' js_member p
          else if Ascii.eqb b "}" then json_decode s' (js_end false) p
          else Err json_syntax_error
      | js_end _ =>
          if isWhitespace b then json_decode s' st p
          else Err json_syntax_error
      end
  end.

(** [json.Unmarshal] into a nil [*AuthenticatedDataPackage]. *)
Definition standin_Unmarshal (data : bytes)
  : result (option AuthenticatedDataPackage) :=
  json_decode data js_start
    {| Data := []; SigningPublicKeyDigest := []; Signature := [] |}.

(** *** Keys, digests, signatures, zlib, files *)

Definition standin_sum (data : bytes) : bytes := data.

Definition rsa_ErrVerification : error := library_error 3.
Definition x509_error : error := library_error 4.
Definition zlib_ErrHeader : error := library_error 5.
Definition os_ErrNotExist : error := library_error 6.

Definition standin_signature (key : nat) (hashed : bytes) : bytes :=
  B "signed by " ++ [ascii_of_nat key] ++ hashed.

Definition standin_Verify (pub : nat) (hashed sig : bytes) : option error :=
  if bytes_eqb sig (standin_signature pub hashed) then None
  else Some rsa_ErrVerification.

Definition standin_ParsePKIX (der : bytes) : result (option nat) :=
  match der with
  | ["R"; "S"; "A"; k]%char => Ok (Some (nat_of_ascii k))
  | ["E"; "C"; _]%char => Ok None
  | _ => Err x509_error
  end.

Definition standin_ParsePKCS1 (der : bytes) : result nat :=
  match der with
  | ["P"; "K"; "C"; "S"; k]%char => Ok (nat_of_ascii k)
  | _ => Err x509_error
  end.

Definition zlib_header : bytes := ["x"%char; "156"%char].

Definition standin_NewReader (data : bytes) : result Reader :=
  match data with
  | "x"%char :: "156"%char :: j => Ok (bytes_Reader j)
  | _ => Err zlib_ErrHeader
  end.

(** A disk: the files by name. *)
Definition disk : Type := list (bytes * bytes).

Fixpoint standin_Open (d : disk) (name : bytes) : result File :=
  match d with
  | [] => Err os_ErrNotExist
  | (n, c) :: d' =>
      if bytes_eqb n name then
        Ok {| Seek := fun _ => None; contents := fun _ => c |}
      else standin_Open d' name
  end.

Definition standin (d : disk) : Library :=
  {| rsa_PublicKey := nat;
     rsa_PrivateKey := nat;
     sha256_Sum256 := standin_sum;
     base64_EncodeToString := base64_encode;
     base64_DecodeString := base64_decode;
     rsa_GenerateKey := fun random => Ok (random mod 256);
     rsa_Public := fun k => k;
     x509_MarshalPKIXPublicKey := fun k => Ok (B "RSA" ++ [ascii_of_nat k]);
     x509_MarshalPKCS1PrivateKey := fun k => B "PKCS" ++ [ascii_of_nat k];
     x509_ParsePKIXPublicKey := standin_ParsePKIX;
     x509_ParsePKCS1PrivateKey := standin_ParsePKCS1;
     rsa_SignPKCS1v15 := fun k hashed => Ok (standin_signature k hashed);
     rsa_VerifyPKCS1v15 := standin_Verify;
     json_Marshal := standin_Marshal;
     json_Unmarshal := standin_Unmarshal;
     Compress := fun j => zlib_header ++ j;
     zlib_NewReader := standin_NewReader;
     os_Open := standin_Open d |}.

(* ================================================================= *)
(** ** Documents: tokens, whitespace and delivery *)

(** A byte of a key or a value that the streamers pass on: neither the
    quote nor the backslash. *)
Definition plain (b : ascii) : bool :=
  negb (Ascii.eqb b byte_quote) && negb (Ascii.eqb b byte_backslash).

(** The states in which [Stream] skips whitespace: all but the inside of a
    key (and the state that is never current at the head of the loop). *)
Definition seeking (state : stateJSON) : bool :=
  match state with
  | stateJSONSeekingKeyEnd | stateJSONSeekingStringValueEnd => false
  | _ => true
  end.

(** The bytes that the seeking states know: the four punctuation marks
    and the quote. *)
Definition structural (b : ascii) : bool :=
  Ascii.eqb b "{" || Ascii.eqb b "}" || Ascii.eqb b ":" || Ascii.eqb b ","
  || Ascii.eqb b byte_quote.

(** The tokens of a JSON text as the streamer meets them: the four
    punctuation marks of an object; a string without backslash, given by
    the bytes between its quotes; a string with an escape, given by the
    bytes [pre] before its first backslash and the bytes [post] after it,
    closing quote included; and any other token (a number, a literal, a
    bracket), given by its first byte and the bytes after it. *)
Inductive token : Type :=
  | tok_LBrace
  | tok_RBrace
  | tok_Colon
  | tok_Comma
  | tok_String (s : bytes)
  | tok_Escaped (pre post : bytes)
  | tok_Other (b : ascii) (rest : bytes).

Definition token_bytes (t : token) : bytes :=
  match t with
  | tok_LBrace => ["{"%char]
  | tok_RBrace => ["}"%char]
  | tok_Colon => [":"%char]
  | tok_Comma => [","%char]
  | tok_String s => byte_quote :: s ++ [byte_quote]
  | tok_Escaped pre post => byte_quote :: pre ++ byte_backslash :: post
  | tok_Other b rest => b :: rest
  end.

Definition token_ok (t : token) : bool :=
  match t with
  | tok_String s => forallb plain s
  | tok_Escaped pre _ => forallb plain pre
  | tok_Other b _ => negb (isWhitespace b) && negb (structural b)
  | _ => true
  end.

(** A document text: every token with the whitespace written before it,
    and the whitespace after the last token. *)
Definition layout : Type := list (bytes * token).

Fixpoint render (doc : layout) (trailing : bytes) : bytes :=
  match doc with
  | [] => trailing
  | (ws, t) :: doc' => ws ++ token_bytes t ++ render doc' trailing
  end.

Definition layout_ok (doc : layout) (trailing : bytes) : bool :=
  forallb (fun wt => forallb isWhitespace (fst wt) && token_ok (snd wt)) doc
  && forallb isWhitespace trailing.

Definition tokens (doc : layout) : list token := map snd doc.

(** Every further read of [r] returns no byte and [io.EOF]. *)
Definition at_EOF (r : Reader) : Prop :=
  Forall (fun ev => ev = no_data io_EOF) r.

(** [delivers r j]: the reader hands out exactly the bytes [j], none of
    them with an error except that the last one may come together with
    [io.EOF], and is at end of file afterwards.  Both ways of ending are
    met: a decompressor may return its last byte with [io.EOF] or return
    [io.EOF] on the read after it. *)
Inductive delivers : Reader -> bytes -> Prop :=
  | delivers_EOF r : at_EOF r -> delivers r []
  | delivers_last b r :
      at_EOF r -> delivers (data_byte b (Some io_EOF) :: r) [b]
  | delivers_byte b r j :
      delivers r j -> delivers (data_byte b None :: r) (b :: j).

(* ================================================================= *)
(** ** What the two passes do, token by token *)

(** What a pass has collected, with the value captured for the caller
    given by what reading it to its end yields: its bytes, and the error
    that ends the reading, if any. *)
Record pass_summary : Type := {
  sum_hash : bytes;
  sum_data : option (bytes * option error);
  sum_digest : option bytes;
  sum_signature : option bytes
}.

Definition fresh_summary : pass_summary :=
  {| sum_hash := []; sum_data := None;
     sum_digest := None; sum_signature := None |}.

(** [jsonHandler] on a member whose value is the string [s]. *)
Definition handle_member (L : Library) (pass : nat) (key s : bytes)
    (sv : pass_summary) : (bool * option error) * pass_summary :=
  if bytes_eqb key (B "data") then
    if Nat.eqb pass 0 then
      ((true, None),
       {| sum_hash := sum_hash sv ++ s; sum_data := sum_data sv;
          sum_digest := sum_digest sv; sum_signature := sum_signature sv |})
    else
      ((false, None),
       {| sum_hash := sum_hash sv; sum_data := Some (s, None);
          sum_digest := sum_digest sv; sum_signature := sum_signature sv |})
  else if bytes_eqb key (B "signingPublicKeyDigest") then
    match base64_DecodeString L s with
    | Err err =>
        ((false, Some (ContextError (ContextError err))),
         {| sum_hash := sum_hash sv; sum_data := sum_data sv;
            sum_digest := None; sum_signature := sum_signature sv |})
    | Ok d =>
        ((true, None),
         {| sum_hash := sum_hash sv; sum_data := sum_data sv;
            sum_digest := Some d; sum_signature := sum_signature sv |})
    end
  else if bytes_eqb key (B "signature") then
    match base64_DecodeString L s with
    | Err err =>
        ((false, Some (ContextError (ContextError err))),
         {| sum_hash := sum_hash sv; sum_data := sum_data sv;
            sum_digest := sum_digest sv; sum_signature := None |})
    | Ok d =>
        ((true, None),
         {| sum_hash := sum_hash sv; sum_data := sum_data sv;
            sum_digest := sum_digest sv; sum_signature := Some d |})
    end
  else
    ((false, Some (ContextError (fmt_Errorf "unexpected key '%s'" key))), sv).

Definition unsupported_escape : error :=
  ContextError (errors_New "unsupported escaped character").

(** [jsonHandler] on a member whose value is a string with an escape,
    [pre] being the bytes before the backslash. *)
Definition handle_escaped (L : Library) (pass : nat) (key pre : bytes)
    (sv : pass_summary) : (bool * option error) * pass_summary :=
  if bytes_eqb key (B "data") then
    if Nat.eqb pass 0 then
      ((false, Some (ContextError unsupported_escape)),
       {| sum_hash := sum_hash sv ++ pre; sum_data := sum_data sv;
          sum_digest := sum_digest sv; sum_signature := sum_signature sv |})
    else
      ((false, None),
       {| sum_hash := sum_hash sv;
          sum_data := Some (pre, Some unsupported_escape);
          sum_digest := sum_digest sv; sum_signature := sum_signature sv |})
  else if bytes_eqb key (B "signingPublicKeyDigest") then
    ((false, Some (ContextError (ContextError unsupported_escape))),
     {| sum_hash := sum_hash sv; sum_data := sum_data sv;
        sum_digest := None; sum_signature := sum_signature sv |})
  else if bytes_eqb key (B "signature") then
    ((false, Some (ContextError (ContextError unsupported_escape))),
     {| sum_hash := sum_hash sv; sum_data := sum_data sv;
        sum_digest := sum_digest sv; sum_signature := None |})
  else
    ((false, Some (ContextError (fmt_Errorf "unexpected key '%s'" key))), sv).

(** The error for a byte that a seeking state does not accept. *)
Definition unexpected_in (state : stateJSON) (b : ascii) : error :=
  match state with
  | stateJSONSeekingObjectStart => unexpected b "object start"
  | stateJSONSeekingKeyStart => unexpected b "key start"
  | stateJSONSeekingColon => unexpected b "colon"
  | stateJSONSeekingStringValueStart => unexpected b "value start"
  | stateJSONSeekingNextPair => unexpected b "next name/value pair"
  | stateJSONObjectEnd =>
      ContextError (fmt_Errorf "unexpected character %#U after object end" [b])
  | _ => ContextError (errors_New "unexpected state")
  end.

Definition first_byte (t : token) : ascii :=
  match t with
  | tok_LBrace => "{"%char
  | tok_RBrace => "}"%char
  | tok_Colon => ":"%char
  | tok_Comma => ","%char
  | tok_String _ => byte_quote
  | tok_Escaped _ _ => byte_quote
  | tok_Other b _ => b
  end.

(** [Stream] with [jsonHandler] read off the token sequence: the state
    table of the streamer, one token at a time. *)
Fixpoint Stream_tokens (L : Library) (pass : nat) (toks : list token)
    (state : stateJSON) (key : bytes) (sv : pass_summary)
  : option error * pass_summary :=
  match toks with
  | [] => (on_readErr io_EOF state, sv)
  | t :: toks' =>
      match state, t with
      | stateJSONSeekingObjectStart, tok_LBrace =>
          Stream_tokens L pass toks' stateJSONSeekingKeyStart key sv
      | stateJSONSeekingKeyStart, tok_String s =>
          Stream_tokens L pass toks' stateJSONSeekingColon s sv
      | stateJSONSeekingKeyStart, tok_Escaped _ _ =>
          (Some unsupported_escape, sv)
      | stateJSONSeekingColon, tok_Colon =>
          Stream_tokens L pass toks' stateJSONSeekingStringValueStart key sv
      | stateJSONSeekingStringValueStart, tok_String s =>
          match handle_member L pass key s sv with
          | ((_, Some err), sv') => (Some (ContextError err), sv')
          | ((false, None), sv') => (None, sv')
          | ((true, None), sv') =>
              Stream_tokens L pass toks' stateJSONSeekingNextPair key sv'
          end
      | stateJSONSeekingStringValueStart, tok_Escaped pre _ =>
          match handle_escaped L pass key pre sv with
          | ((_, Some err), sv') => (Some (ContextError err), sv')
          | ((_, None), sv') => (None, sv')
          end
      | stateJSONSeekingNextPair, tok_Comma =>
          Stream_tokens L pass toks' stateJSONSeekingKeyStart key sv
      | stateJSONSeekingNextPair, tok_RBrace =>
          Stream_tokens L pass toks' stateJSONObjectEnd key sv
      | _, _ => (Some (unexpected_in state (first_byte t)), sv)
      end
  end.

(** A value streamer, not yet at its end, that stands before the bytes
    [s] followed by the closing quote (reading it yields [s] and no
    error) or by a backslash (reading it yields [s] and the escape
    error). *)
Definition stands_before (value : limitedJSONValueStreamer)
    (content : bytes * option error) : Prop :=
  forallb plain (fst content) = true
  /\ exists err rest,
       value = {| eof := false;
                  reader := bytes_Reader (fst content)
                            ++ data_byte
                                 (match snd content with
                                  | None => byte_quote
                                  | Some _ => byte_backslash
                                  end) err :: rest |}
       /\ (snd content = None \/ snd content = Some unsupported_escape).

(** The collected variables [v] of a pass agree with the summary [sv]. *)
Definition summarises (v : pass_variables) (sv : pass_summary) : Prop :=
  hash v = sum_hash sv
  /\ jsonSigningPublicKey v = sum_digest sv
  /\ jsonSignature v = sum_signature sv
  /\ match jsonData v, sum_data sv with
     | None, None => True
     | Some value, Some content => stands_before value content
     | _, _ => False
     end.

(** The checks of pass 0 on a summary. *)
Definition variables_of (sv : pass_summary) : pass_variables :=
  {| hash := sum_hash sv; jsonData := None;
     jsonSigningPublicKey := sum_digest sv;
     jsonSignature := sum_signature sv |}.

(** What the caller of the streaming reader observes: an error, or the
    bytes that reading the returned reader to its end yields (with the
    error that ends the reading, if any); [None] inside [Ok] is a nil
    reader. *)
Definition observation : Type := result (option (bytes * option error)).

Definition payload_content (p : payload) : option (bytes * option error) :=
  match ioutil_ReadAll (payload_Reader p) with
  | Some (bs, e, _) => Some (bs, e)
  | None => None
  end.

Definition observe (x : option (result (option payload)))
  : option observation :=
  match x with
  | None => None
  | Some (Err e) => Some (Err e)
  | Some (Ok None) => Some (Ok None)
  | Some (Ok (Some p)) =>
      match payload_content p with
      | Some c => Some (Ok (Some c))
      | None => None
      end
  end.

(** One pass read off the tokens of the file's text in that pass. *)
Definition pass_tokens (L : Library) (signingPublicKey : bytes) (pass : nat)
    (toks : list token) (seek : option error)
    (before : option (bytes * option error))
  : result (option (bytes * option error)) :=
  match seek with
  | Some err => Err (ContextError err)
  | None =>
      match Stream_tokens L pass toks stateJSONSeekingObjectStart []
              fresh_summary with
      | (Some err, _) => Err (ContextError err)
      | (None, sv) =>
          if Nat.eqb pass 0 then
            match verify L signingPublicKey (variables_of sv) with
            | Some err => Err err
            | None => Ok before
            end
          else
            match sum_data sv with
            | None =>
                Err (ContextError (errors_New "missing expected field"))
            | Some content => Ok (Some content)
            end
      end
  end.

(** Both passes read off the tokens. *)
Definition verdict_tokens (L : Library) (signingPublicKey : bytes)
    (file : File) (toks : nat -> list token) : observation :=
  match pass_tokens L signingPublicKey 0 (toks 0) (Seek file 0) None with
  | Err e => Err e
  | Ok p0 =>
      match pass_tokens L signingPublicKey 1 (toks 1) (Seek file 1) p0 with
      | Err e => Err e
      | Ok content => Ok content
      end
  end.

(* ================================================================= *)
(** ** Runs of the streamer *)

(** A handler that always returns and leaves the shared reader no longer
    than it found it: it only reads from its value streamer. *)
Definition handler_reads {V : Type} (handler : handler_type V) : Prop :=
  forall key value v,
    exists res value' v',
      handler key value v = Some (res, value', v')
      /\ length (reader value') <= length (reader value).

(** The loop of [Stream], started in [state], returns [x]. *)
Definition Stream_runs {V : Type} (handler : handler_type V)
    (state : stateJSON) (keyBuffer : bytes) (r : Reader) (v : V)
    (x : option error * V) : Prop :=
  exists fuel, Stream_loop handler fuel state keyBuffer r v = Some x.

(** The reader handed to the caller yields the content [c]. *)
Definition payload_agrees (p : option payload)
    (c : option (bytes * option error)) : Prop :=
  match p, c with
  | None, None => True
  | Some p, Some content => stands_before (payload_Reader p) content
  | _, _ => False
  end.

Definition result_agrees (x : result (option payload))
    (y : result (option (bytes * option error))) : Prop :=
  match x, y with
  | Err e, Err e' => e = e'
  | Ok p, Ok c => payload_agrees p c
  | _, _ => False
  end.

(** In pass [pass] the decompressor over the file delivers the text of the
    document [doc]. *)
Definition file_delivers (L : Library) (file : File) (pass : nat)
    (doc : layout) (trailing : bytes) : Prop :=
  layout_ok doc trailing = true
  /\ exists r,
       zlib_NewReader L (contents file pass) = Ok r
       /\ delivers r (render doc trailing).

(* ================================================================= *)
(** ** Objects: members in document order *)

(** A member of the object: its key and the bytes of its value. *)
Definition member : Type := (bytes * bytes)%type.

Fixpoint member_tokens (ms : list member) : list token :=
  match ms with
  | [] => []
  | (k, s) :: ms' =>
      match ms' with
      | [] => [tok_String k; tok_Colon; tok_String s]
      | _ :: _ =>
          tok_String k :: tok_Colon :: tok_String s :: tok_Comma
          :: member_tokens ms'
      end
  end.

Definition object_tokens (ms : list member) : list token :=
  tok_LBrace :: member_tokens ms ++ [tok_RBrace].

(** [jsonHandler] on the members one after the other, until it fails or
    asks to halt. *)
Fixpoint handle_members (L : Library) (pass : nat) (ms : list member)
    (sv : pass_summary) : option error * pass_summary :=
  match ms with
  | [] => (None, sv)
  | (k, s) :: ms' =>
      match handle_member L pass k s sv with
      | ((_, Some err), sv') => (Some (ContextError err), sv')
      | ((false, None), sv') => (None, sv')
      | ((true, None), sv') => handle_members L pass ms' sv'
      end
  end.

Definition key_data : bytes := B "data".
Definition key_digest : bytes := B "signingPublicKeyDigest".
Definition key_signature : bytes := B "signature".

(** The values of the ["data"] members, in document order. *)
Definition data_values (ms : list member) : list bytes :=
  map snd (filter (fun m => bytes_eqb (fst m) key_data) ms).

(** The value of the first, and of the last, member with the key [name]. *)
Fixpoint first_value (name : bytes) (ms : list member) : option bytes :=
  match ms with
  | [] => None
  | (k, s) :: ms' => if bytes_eqb k name then Some s else first_value name ms'
  end.

Fixpoint last_value (name : bytes) (ms : list member) : option bytes :=
  match ms with
  | [] => None
  | (k, s) :: ms' =>
      match last_value name ms' with
      | Some s' => Some s'
      | None => if bytes_eqb k name then Some s else None
      end
  end.

(** The base64 value [s] decoded, when there is one and it decodes. *)
Definition decoded (L : Library) (s : option bytes) : option bytes :=
  match s with
  | None => None
  | Some s =>
      match base64_DecodeString L s with
      | Ok d => Some d
      | Err _ => None
      end
  end.

(** A member the streaming reader takes: key and value without quote or
    backslash, the key one of the three names, and for the two base64
    members a value that decodes. *)
Definition member_ok (L : Library) (m : member) : bool :=
  forallb plain (fst m) && forallb plain (snd m)
  && (bytes_eqb (fst m) key_data
      || ((bytes_eqb (fst m) key_digest || bytes_eqb (fst m) key_signature)
          && match base64_DecodeString L (snd m) with
             | Ok _ => true
             | Err _ => false
             end)).

(** What pass 0 verifies for the members [ms]: the hash input is the
    concatenation of the ["data"] values, the digest and the signature
    are those of the last members of that name. *)
Definition collected (L : Library) (ms : list member) : pass_variables :=
  {| hash := concat (data_values ms);
     jsonData := None;
     jsonSigningPublicKey := decoded L (last_value key_digest ms);
     jsonSignature := decoded L (last_value key_signature ms) |}.

(** The file holds, in both passes, a text of the object with the members
    [ms] (the two texts may differ in their whitespace), and both seeks
    succeed. *)
Definition file_holds_object (L : Library) (file : File) (ms : list member)
  : Prop :=
  forall pass, pass < 2 ->
    Seek file pass = None
    /\ exists doc trailing,
         file_delivers L file pass doc trailing
         /\ tokens doc = object_tokens ms.

(** One pass on an object with the members [ms], read off the members. *)
Definition pass_members (L : Library) (signingPublicKey : bytes) (pass : nat)
    (ms : list member) (before : option (bytes * option error))
  : result (option (bytes * option error)) :=
  if Nat.eqb pass 0 then
    match verify L signingPublicKey (collected L ms) with
    | Some err => Err err
    | None => Ok before
    end
  else
    match first_value key_data ms with
    | None => Err (ContextError (errors_New "missing expected field"))
    | Some s => Ok (Some (s, None))
    end.

(* ================================================================= *)
(** ** Concrete packages *)

(** A key pair as [GenerateAuthenticatedDataPackageKeys] makes it with
    the stand-in library. *)
Definition example_keys : bytes * bytes :=
  match GenerateAuthenticatedDataPackageKeys (standin []) 7 with
  | Ok keys => keys
  | Err _ => ([], [])
  end.

Definition example_publicKey : bytes := fst example_keys.
Definition example_privateKey : bytes := snd example_keys.

(** The package the writer makes for [data]. *)
Definition example_package (data : bytes) : bytes :=
  match WriteAuthenticatedDataPackage (standin []) data
          example_publicKey example_privateKey with
  | Ok c => c
  | Err _ => []
  end.

(** A payload of two lines, and one that is not valid UTF-8. *)
Definition two_lines : bytes := B "a" ++ ["010"%char] ++ B "b".
Definition not_utf8 : bytes := ["255"%char].

(** The tokens [toks] written with the whitespace [ws] before each. *)
Definition spaced (ws : bytes) (toks : list token) : layout :=
  map (fun t => (ws, t)) toks.

(** The compressed text of the object with the members [ms], with [ws]
    before every token and after the last. *)
Definition object_file (ws : bytes) (ms : list member) : bytes :=
  zlib_header ++ render (spaced ws (object_tokens ms)) ws.

(** Members that repeat keys: two ["data"] members, a stale signature
    before the signature over both data values. *)
Definition repeated_members : list member :=
  [ (key_data, B "ab");
    (key_signature, base64_encode (B "stale"));
    (key_data, B "cd");
    (key_digest, base64_encode (standin_sum example_publicKey));
    (key_signature, base64_encode (standin_signature 7 (B "abcd"))) ].

(** Members without ["data"], signed over the empty byte string. *)
Definition members_without_data : list member :=
  [ (key_digest, base64_encode (standin_sum example_publicKey));
    (key_signature, base64_encode (standin_signature 7 [])) ].

(** The members of the package the writer makes for ["hello"]. *)
Definition hello_members : list member :=
  [ (key_data, B "hello");
    (key_digest, base64_encode (standin_sum example_publicKey));
    (key_signature,
     base64_encode (standin_signature 7 (standin_sum (B "hello")))) ].

Definition newline_tab : bytes := ["010"%char; "009"%char].

(* ================================================================= *)
(** ** Texts up to the first value *)

(** The text of an object up to and including the quote that opens the
    value of its first member: whitespace, the brace, whitespace, the key
    between quotes, whitespace, the colon, whitespace, the quote. *)
Definition member_opening (ws1 ws2 ws3 ws4 key : bytes) : bytes :=
  ws1 ++ "{"%char :: ws2 ++ byte_quote :: key ++ byte_quote
  :: ws3 ++ ":"%char :: ws4 ++ [byte_quote].

(* ================================================================= *)
(** ** Readers that end in an error *)

(** [fails_after r j e]: the reader hands out exactly the bytes [j], none
    of them with an error except that the last one may come together with
    [e], and then fails with [e]: a decompressor that finds its stream
    corrupt at the end reports it on the read after the last byte or
    together with that byte. *)
Inductive fails_after : Reader -> bytes -> error -> Prop :=
  | fails_after_read e r : fails_after (no_data e :: r) [] e
  | fails_after_last b e r : fails_after (data_byte b (Some e) :: r) [b] e
  | fails_after_byte b r j e :
      fails_after r j e -> fails_after (data_byte b None :: r) (b :: j) e.

(* ================================================================= *)
(** ** More concrete packages *)

(** The compressed text of the tokens [toks], with [ws] before every
    token and after the last. *)
Definition token_file (ws : bytes) (toks : list token) : bytes :=
  zlib_header ++ render (spaced ws toks) ws.

(** An object with a member whose key is ["Data"], not ["data"]. *)
Definition foreign_member_tokens : list token :=
  tok_LBrace
  :: member_tokens ([(key_data, B "hello")] ++ [(B "Data", B "x")])
  ++ [tok_RBrace].

(** An object whose digest is not base64. *)
Definition bad_digest_tokens : list token :=
  tok_LBrace
  :: member_tokens ([(key_data, B "hello")] ++ [(key_digest, B "!")])
  ++ [tok_RBrace].

(** The object of the package for ["hello"] followed by an empty object. *)
Definition two_objects_tokens : list token :=
  object_tokens hello_members ++ tok_LBrace :: [tok_RBrace].

(** The object of the package for ["hello"] without its closing brace. *)
Definition cut_short_tokens : list token :=
  removelast (object_tokens hello_members).

(** An object with the payload alone. *)
Definition only_data : list member := [(key_data, B "hello")].

(** A text that is no object after its first value: ["data"] with the
    value ["other"], then a number. *)
Definition other_data_tokens : list token :=
  tok_LBrace
  :: member_tokens ([] ++ [(key_data, B "other")])
  ++ [tok_Other "1" []].

(** A file that is replaced after the first pass: it holds [c0] in pass 0
    and [c1] afterwards. *)
Definition replaced_file (c0 c1 : bytes) : File :=
  {| Seek := fun _ => None;
     contents := fun pass => if Nat.eqb pass 0 then c0 else c1 |}.

(** The stand-in library with another way of opening files and another
    decompressor. *)
Definition standin_with (open : bytes -> result File)
    (newReader : bytes -> result Reader) : Library :=
  {| rsa_PublicKey := nat;
     rsa_PrivateKey := nat;
     sha256_Sum256 := standin_sum;
     base64_EncodeToString := base64_encode;
     base64_DecodeString := base64_decode;
     rsa_GenerateKey := fun random => Ok (random mod 256);
     rsa_Public := fun k => k;
     x509_MarshalPKIXPublicKey := fun k => Ok (B "RSA" ++ [ascii_of_nat k]);
     x509_MarshalPKCS1PrivateKey := fun k => B "PKCS" ++ [ascii_of_nat k];
     x509_ParsePKIXPublicKey := standin_ParsePKIX;
     x509_ParsePKCS1PrivateKey := standin_ParsePKCS1;
     rsa_SignPKCS1v15 := fun k hashed => Ok (standin_signature k hashed);
     rsa_VerifyPKCS1v15 := standin_Verify;
     json_Marshal := standin_Marshal;
     json_Unmarshal := standin_Unmarshal;
     Compress := fun j => zlib_header ++ j;
     zlib_NewReader := newReader;
     os_Open := open |}.

(** Every name opens the file that is replaced after the first pass. *)
Definition standin_replaced (c0 c1 : bytes) : Library :=
  standin_with (fun _ => Ok (replaced_file c0 c1)) standin_NewReader.

(** A decompressor that finds its stream corrupt where the data stop: it
    delivers the bytes and then fails instead of reporting the end. *)
Definition zlib_ErrChecksum : error := library_error 8.

Definition corrupt_NewReader (data : bytes) : result Reader :=
  match standin_NewReader data with
  | Ok r => Ok (r ++ [no_data zlib_ErrChecksum])
  | Err e => Err e
  end.

Definition standin_corrupt (d : disk) : Library :=
  standin_with (standin_Open d) corrupt_NewReader.

(** The public key string of another key pair. *)
Definition other_publicKey : bytes :=
  match GenerateAuthenticatedDataPackageKeys (standin []) 8 with
  | Ok keys => fst keys
  | Err _ => []
  end.

(** The compressed text of a package that stops inside its payload. *)
Definition cut_payload_file : bytes :=
  zlib_header ++ member_opening [] [] [] [] key_data ++ B "hel".

(** The compressed text of the package for ["hello"], to be read through
    the decompressor that finds it corrupt at the end. *)
Definition corrupt_at_the_end : bytes := object_file [] hello_members.

(** The text of the package for ["hello"], and its compressed text cut
    inside the key of its second member. *)
Definition hello_text : bytes :=
  render (spaced [] (object_tokens hello_members)) [].

Definition cut_in_a_key_file : bytes := zlib_header ++ firstn 22 hello_text.
(* ================================================================= *)
(** ** Facts about bytes *)

Lemma bytes_eqb_refl (x : bytes) : bytes_eqb x x = true.
Proof.
  induction x as [|a x IH]; simpl; [reflexivity|].
  now rewrite Ascii.eqb_refl, IH.
Qed.

Lemma bytes_eqb_eq (x y : bytes) : bytes_eqb x y = true <-> x = y.
Proof.
  split; [|intros ->; apply bytes_eqb_refl].
  revert y; induction x as [|a x IH]; intros [|b y]; simpl; try discriminate.
  - reflexivity.
  - intros H. apply andb_true_iff in H as [Hab Hxy].
    apply Ascii.eqb_eq in Hab. apply IH in Hxy. congruence.
Qed.

Lemma bytes_eqb_neq (x y : bytes) : bytes_eqb x y = false <-> x <> y.
Proof.
  rewrite <- bytes_eqb_eq. destruct (bytes_eqb x y); split; congruence.
Qed.

Lemma plain_inv (b : ascii) :
  plain b = true ->
  Ascii.eqb b byte_quote = false /\ Ascii.eqb b byte_backslash = false.
Proof.
  unfold plain. intros H. apply andb_true_iff in H as [H1 H2].
  now rewrite negb_true_iff in H1, H2.
Qed.

Lemma isWhitespace_cases (b : ascii) :
  isWhitespace b = true ->
  b = " "%char \/ b = "009"%char \/ b = "013"%char \/ b = "010"%char.
Proof.
  unfold isWhitespace. rewrite !orb_true_iff, !Ascii.eqb_eq. tauto.
Qed.

(* ================================================================= *)
(** ** The value streamer *)

Lemma Read_loop_plain (pre : bytes) :
  forallb plain pre = true ->
  forall (len : nat) (r : Reader),
    len <= length pre ->
    Read_loop len (bytes_Reader pre ++ r)
    = (firstn len pre, None, false, bytes_Reader (skipn len pre) ++ r).
Proof.
  induction pre as [|b pre IH]; intros Hp len r Hlen.
  - destruct len; [reflexivity | simpl in Hlen; lia].
  - destruct len as [|len]; [reflexivity|].
    simpl in Hp. apply andb_true_iff in Hp as [Hb Hp].
    destruct (plain_inv _ Hb) as [Hq Hs].
    simpl in Hlen. simpl. rewrite Hq, Hs.
    rewrite (IH Hp len r) by lia. reflexivity.
Qed.

Lemma Read_loop_quote (pre : bytes) :
  forallb plain pre = true ->
  forall (len : nat) (err : option error) (r : Reader),
    length pre < len ->
    Read_loop len (bytes_Reader pre ++ data_byte byte_quote err :: r)
    = (pre, Some io_EOF, true, r).
Proof.
  induction pre as [|b pre IH]; intros Hp len err r Hlen.
  - destruct len; [simpl in Hlen; lia | reflexivity].
  - destruct len as [|len]; [simpl in Hlen; lia|].
    simpl in Hp. apply andb_true_iff in Hp as [Hb Hp].
    destruct (plain_inv _ Hb) as [Hq Hs].
    simpl in Hlen. simpl. rewrite Hq, Hs.
    rewrite (IH Hp len err r) by lia. reflexivity.
Qed.

Lemma Read_loop_backslash (pre : bytes) :
  forallb plain pre = true ->
  forall (len : nat) (err : option error) (r : Reader),
    length pre < len ->
    Read_loop len (bytes_Reader pre ++ data_byte byte_backslash err :: r)
    = (pre,
       Some (ContextError (errors_New "unsupported escaped character")),
       false, r).
Proof.
  induction pre as [|b pre IH]; intros Hp len err r Hlen.
  - destruct len; [simpl in Hlen; lia | reflexivity].
  - destruct len as [|len]; [simpl in Hlen; lia|].
    simpl in Hp. apply andb_true_iff in Hp as [Hb Hp].
    destruct (plain_inv _ Hb) as [Hq Hs].
    simpl in Hlen. simpl. rewrite Hq, Hs.
    rewrite (IH Hp len err r) by lia. reflexivity.
Qed.

(** Whatever the underlying reader delivers after them, the bytes [pre]
    that it delivers without error before the first quote are returned
    verbatim and in order, however the caller sizes its buffers (1); the
    read that meets the quote returns the bytes before it with [io.EOF],
    has taken the quote from the reader and does not return it (2); every
    later read returns no byte and [io.EOF] and leaves the reader alone
    (3); the read that meets a backslash returns the bytes before it and
    the unsupported-escape error, not the backslash (4). *)
Lemma Read_value_until_quote_or_backslash
    (pre : bytes) (err : option error) (rest : Reader) (len : nat) :
  forallb plain pre = true ->
  (forall ev,
     len <= length pre ->
     Read len {| eof := false; reader := bytes_Reader pre ++ ev :: rest |}
     = ((firstn len pre, None),
        {| eof := false;
           reader := bytes_Reader (skipn len pre) ++ ev :: rest |}))
  /\ (length pre < len ->
      Read len {| eof := false;
                  reader := bytes_Reader pre
                            ++ data_byte byte_quote err :: rest |}
      = ((pre, Some io_EOF), {| eof := true; reader := rest |}))
  /\ (forall len' r,
        Read len' {| eof := true; reader := r |}
        = (([], Some io_EOF), {| eof := true; reader := r |}))
  /\ (length pre < len ->
      Read len {| eof := false;
                  reader := bytes_Reader pre
                            ++ data_byte byte_backslash err :: rest |}
      = ((pre,
          Some (ContextError (errors_New "unsupported escaped character"))),
         {| eof := false; reader := rest |})).
Proof.
  intros Hp. repeat split.
  - intros ev Hlen. unfold Read. simpl eof. cbv iota. simpl reader.
    now rewrite (Read_loop_plain pre Hp len (ev :: rest) Hlen).
  - intros Hlen. unfold Read. simpl eof. cbv iota. simpl reader.
    now rewrite (Read_loop_quote pre Hp len err rest Hlen).
  - intros Hlen. unfold Read. simpl eof. cbv iota. simpl reader.
    now rewrite (Read_loop_backslash pre Hp len err rest Hlen).
Qed.

Lemma Read_loop_error (pre : bytes) :
  forallb plain pre = true ->
  forall (len : nat) (b : ascii) (e : error) (r : Reader),
    plain b = true ->
    length pre < len ->
    Read_loop len (bytes_Reader pre ++ data_byte b (Some e) :: r)
    = (pre, Some e, false, r).
Proof.
  induction pre as [|c pre IH]; intros Hp len b e r Hb Hlen.
  - destruct len; [simpl in Hlen; lia|].
    destruct (plain_inv _ Hb) as [Hq Hs]. simpl. now rewrite Hq, Hs.
  - destruct len as [|len]; [simpl in Hlen; lia|].
    simpl in Hp. apply andb_true_iff in Hp as [Hc Hp].
    destruct (plain_inv _ Hc) as [Hq Hs].
    simpl in Hlen. simpl. rewrite Hq, Hs.
    rewrite (IH Hp len b e r Hb) by lia. reflexivity.
Qed.

(** The loop of [Stream] takes a byte that comes together with an error
    through the [switch] before it looks at the error. *)
Lemma Stream_loop_byte_with_error (V : Type) (handler : handler_type V)
    (fuel : nat) (state : stateJSON) (keyBuffer : bytes) (b : ascii)
    (e : error) (r : Reader) (v : V) :
  Stream_loop handler (S fuel) state keyBuffer (data_byte b (Some e) :: r) v
  = match switch handler state keyBuffer b r v with
    | out_of_fuel => None
    | return_ err v' => Some (err, v')
    | next state' _ _ v' => Some (on_readErr e state', v')
    end.
Proof. reflexivity. Qed.

(** C6.  A byte before the first quote is not always returned.  When the
    underlying reader delivers a byte [b] of the value (neither quote nor
    backslash) together with an error [e], as [io.Reader] allows and as a
    decompressor does with the last byte of its stream, [Read] returns
    the bytes before [b] and the error [e]: [b] has been taken from the
    reader and is not returned, on this read or on a later one.  (The
    loop of [Stream] does handle such a byte before it looks at the
    error: [Stream_loop_byte_with_error].) *)
Theorem Read_drops_byte_delivered_with_error
    (pre : bytes) (b : ascii) (e : error) (rest : Reader) (len : nat) :
  forallb plain pre = true ->
  plain b = true ->
  length pre < len ->
  Read len {| eof := false;
              reader := bytes_Reader pre ++ data_byte b (Some e) :: rest |}
  = ((pre, Some e), {| eof := false; reader := rest |}).
Proof.
  intros Hp Hb Hlen. unfold Read. simpl eof. cbv iota. simpl reader.
  now rewrite (Read_loop_error pre Hp len b e rest Hb Hlen).
Qed.

(* ================================================================= *)
(** ** The reading loops end *)

Lemma Read_loop_length (len : nat) :
  forall (r r' : Reader) (bs : bytes) (e : option error) (eof' : bool),
    Read_loop len r = (bs, e, eof', r') ->
    length r' <= length r /\ (e = None -> length r' + len = length r).
Proof.
  induction len as [|len IH]; intros r r' bs e eof' H; simpl in H.
  - inversion H; subst. split; [lia | intros _; lia].
  - destruct r as [|[b err|err] r1]; simpl in H.
    + inversion H; subst. split; [simpl; lia | discriminate].
    + destruct (Ascii.eqb b byte_quote).
      { inversion H; subst. split; [simpl; lia | discriminate]. }
      destruct (Ascii.eqb b byte_backslash).
      { inversion H; subst. split; [simpl; lia | discriminate]. }
      destruct err as [e1|].
      { inversion H; subst. split; [simpl; lia | discriminate]. }
      destruct (Read_loop len r1) as [[[bs1 e1] eof1] r2] eqn:E.
      inversion H; subst.
      destruct (IH _ _ _ _ _ E) as [Hle Heq].
      split; [simpl; lia | intros He; specialize (Heq He); simpl; lia].
    + inversion H; subst. split; [simpl; lia | discriminate].
Qed.

Lemma Read_length (len : nat) (value value' : limitedJSONValueStreamer)
    (bs : bytes) (e : option error) :
  Read len value = ((bs, e), value') ->
  length (reader value') <= length (reader value)
  /\ (e = None -> length (reader value') + len = length (reader value)).
Proof.
  unfold Read. destruct (eof value).
  - intros H; inversion H; subst. split; [lia | discriminate].
  - destruct (Read_loop len (reader value)) as [[[bs1 e1] eof1] r1] eqn:E.
    intros H; inversion H; subst. simpl. eapply Read_loop_length; eassumption.
Qed.

(** With a buffer of at least one byte the loop of [io.Copy] and
    [ioutil.ReadAll] ends before the fuel does, and leaves a reader no
    longer than it found. *)
Lemma read_loop_total (chunk : nat) :
  1 <= chunk ->
  forall (fuel : nat) (value : limitedJSONValueStreamer) (acc : bytes),
    length (reader value) < fuel ->
    exists bs e value',
      read_loop fuel chunk value acc = Some (bs, e, value')
      /\ length (reader value') <= length (reader value).
Proof.
  intros Hc. induction fuel as [|fuel IH]; intros value acc Hf; [lia|].
  simpl. destruct (Read chunk value) as [[bs e] value'] eqn:E.
  destruct (Read_length _ _ _ _ _ E) as [Hle Heq].
  destruct e as [e|].
  - eauto.
  - specialize (Heq eq_refl).
    destruct (IH value' (acc ++ bs)) as (bs' & e' & value'' & H & Hle');
      [lia|].
    exists bs', e', value''. split; [exact H | lia].
Qed.

Lemma read_to_end_total (chunk : nat) (value : limitedJSONValueStreamer) :
  1 <= chunk ->
  exists bs e value',
    read_to_end chunk value = Some (bs, e, value')
    /\ length (reader value') <= length (reader value).
Proof.
  intros Hc. unfold read_to_end. apply read_loop_total; [exact Hc | lia].
Qed.

Lemma forallb_skipn {A : Type} (f : A -> bool) (n : nat) (l : list A) :
  forallb f l = true -> forallb f (skipn n l) = true.
Proof.
  revert l; induction n as [|n IH]; intros [|a l]; simpl; auto.
  intros H. apply andb_true_iff in H as [_ H]. auto.
Qed.

(** Reading a value to its end: the bytes before the closing quote, no
    error, and the reader left just after the quote. *)
Lemma read_loop_value (chunk : nat) (err : option error) (rest : Reader) :
  1 <= chunk ->
  forall (fuel : nat) (s acc : bytes),
    forallb plain s = true ->
    length s < fuel ->
    read_loop fuel chunk
      {| eof := false;
         reader := bytes_Reader s ++ data_byte byte_quote err :: rest |} acc
    = Some (acc ++ s, None, {| eof := true; reader := rest |}).
Proof.
  intros Hc. induction fuel as [|fuel IH]; intros s acc Hp Hf; [lia|].
  destruct (Read_value_until_quote_or_backslash s err rest chunk Hp)
    as (H1 & H2 & _).
  destruct (le_lt_dec chunk (length s)) as [Hle|Hlt].
  - simpl read_loop. rewrite (H1 _ Hle).
    rewrite IH.
    + now rewrite <- app_assoc, firstn_skipn.
    + now apply forallb_skipn.
    + rewrite length_skipn. lia.
  - simpl read_loop. rewrite (H2 Hlt). reflexivity.
Qed.

Lemma read_to_end_value (chunk : nat) (s : bytes) (err : option error)
    (rest : Reader) :
  1 <= chunk ->
  forallb plain s = true ->
  read_to_end chunk
    {| eof := false;
       reader := bytes_Reader s ++ data_byte byte_quote err :: rest |}
  = Some (s, None, {| eof := true; reader := rest |}).
Proof.
  intros Hc Hp. unfold read_to_end.
  rewrite (read_loop_value chunk err rest Hc); [reflexivity | exact Hp |].
  simpl reader. rewrite length_app. unfold bytes_Reader.
  rewrite length_map. simpl. lia.
Qed.

(** Reading a value with an escape: the bytes before the backslash and
    the escape error. *)
Lemma read_loop_escape (chunk : nat) (err : option error) (rest : Reader) :
  1 <= chunk ->
  forall (fuel : nat) (s acc : bytes),
    forallb plain s = true ->
    length s < fuel ->
    read_loop fuel chunk
      {| eof := false;
         reader := bytes_Reader s ++ data_byte byte_backslash err :: rest |}
      acc
    = Some (acc ++ s, Some unsupported_escape,
            {| eof := false; reader := rest |}).
Proof.
  intros Hc. induction fuel as [|fuel IH]; intros s acc Hp Hf; [lia|].
  destruct (Read_value_until_quote_or_backslash s err rest chunk Hp)
    as (H1 & _ & _ & H4).
  destruct (le_lt_dec chunk (length s)) as [Hle|Hlt].
  - simpl read_loop. rewrite (H1 _ Hle).
    rewrite IH.
    + now rewrite <- app_assoc, firstn_skipn.
    + now apply forallb_skipn.
    + rewrite length_skipn. lia.
  - simpl read_loop. rewrite (H4 Hlt). reflexivity.
Qed.

Lemma read_to_end_escape (chunk : nat) (s : bytes) (err : option error)
    (rest : Reader) :
  1 <= chunk ->
  forallb plain s = true ->
  read_to_end chunk
    {| eof := false;
       reader := bytes_Reader s ++ data_byte byte_backslash err :: rest |}
  = Some (s, Some unsupported_escape, {| eof := false; reader := rest |}).
Proof.
  intros Hc Hp. unfold read_to_end.
  rewrite (read_loop_escape chunk err rest Hc); [reflexivity | exact Hp |].
  simpl reader. rewrite length_app. unfold bytes_Reader.
  rewrite length_map. simpl. lia.
Qed.

Lemma io_Copy_buffer_pos : 1 <= io_Copy_buffer.
Proof. unfold io_Copy_buffer. lia. Qed.

Lemma bytes_MinRead_pos : 1 <= bytes_MinRead.
Proof. unfold bytes_MinRead. lia. Qed.

(* ================================================================= *)
(** ** The loop of [Stream] ends *)

Section StreamLoop.

Context {V : Type}.
Variable handler : handler_type V.

Lemma Stream_loop_more_fuel (fuel : nat) :
  forall state keyBuffer r v x,
    Stream_loop handler fuel state keyBuffer r v = Some x ->
    forall fuel', fuel <= fuel' ->
      Stream_loop handler fuel' state keyBuffer r v = Some x.
Proof.
  induction fuel as [|fuel IH]; intros state keyBuffer r v x H fuel' Hle;
    [discriminate|].
  destruct fuel' as [|fuel']; [lia|].
  simpl in *. destruct (reader_Read r) as [[b e|e] r']; [|exact H].
  destruct (switch handler state keyBuffer b r' v); try exact H.
  destruct e; [exact H|]. apply IH; [exact H | lia].
Qed.

Lemma Stream_runs_deterministic state keyBuffer r v x y :
  Stream_runs handler state keyBuffer r v x ->
  Stream_runs handler state keyBuffer r v y ->
  x = y.
Proof.
  intros [f Hf] [g Hg].
  apply Stream_loop_more_fuel with (fuel' := f + g) in Hf; [|lia].
  apply Stream_loop_more_fuel with (fuel' := f + g) in Hg; [|lia].
  congruence.
Qed.

Hypothesis handler_ok : handler_reads handler.

Lemma switch_total state keyBuffer b r v :
  match switch handler state keyBuffer b r v with
  | out_of_fuel => False
  | return_ _ _ => True
  | next _ _ r' _ => length r' <= length r
  end.
Proof.
  destruct state; simpl;
    repeat match goal with
           | |- context [if ?c then _ else _] => destruct c
           end; simpl; auto.
  destruct (handler_ok keyBuffer {| eof := false; reader := r |} v)
    as ([c e] & value' & v' & E & Hle).
  rewrite E. destruct e; simpl; auto. destruct c; simpl; auto.
Qed.

Lemma Stream_loop_total (fuel : nat) :
  forall state keyBuffer r v,
    length r < fuel ->
    exists x, Stream_loop handler fuel state keyBuffer r v = Some x.
Proof.
  induction fuel as [|fuel IH]; intros state keyBuffer r v Hf; [lia|].
  simpl. destruct r as [|[b e|e] r']; simpl; eauto.
  pose proof (switch_total state keyBuffer b r' v) as Hs.
  destruct (switch handler state keyBuffer b r' v) as [s' k' r'' v'|e' v'|];
    [|eauto|contradiction].
  destruct e; eauto. apply IH. simpl in Hf. lia.
Qed.

(** [Stream] returns, and returns what any long enough run of its loop
    returns. *)
Lemma Stream_total r v : exists x, Stream handler r v = Some x.
Proof. unfold Stream. apply Stream_loop_total. lia. Qed.

Lemma Stream_runs_Stream r v x :
  Stream_runs handler stateJSONSeekingObjectStart [] r v x ->
  Stream handler r v = Some x.
Proof.
  intros Hx. destruct (Stream_total r v) as [y Hy].
  rewrite Hy. f_equal.
  apply (Stream_runs_deterministic stateJSONSeekingObjectStart [] r v);
    [|exact Hx].
  now exists (S (length r)).
Qed.

End StreamLoop.

Lemma jsonHandler_reads (L : Library) (pass : nat) :
  handler_reads (jsonHandler L pass).
Proof.
  intros key value v. unfold jsonHandler.
  destruct (bytes_eqb key (B "data")).
  { destruct (Nat.eqb pass 0).
    - unfold io_Copy.
      destruct (read_to_end_total io_Copy_buffer value io_Copy_buffer_pos)
        as (bs & e & value' & E & Hle).
      rewrite E. destruct e; eauto.
    - eauto. }
  destruct (bytes_eqb key (B "signingPublicKeyDigest")).
  { unfold jsonReadBase64Value, ioutil_ReadAll.
    destruct (read_to_end_total bytes_MinRead value bytes_MinRead_pos)
      as (bs & e & value' & E & Hle).
    rewrite E. destruct e; eauto.
    destruct (base64_DecodeString L bs); eauto. }
  destruct (bytes_eqb key (B "signature")).
  { unfold jsonReadBase64Value, ioutil_ReadAll.
    destruct (read_to_end_total bytes_MinRead value bytes_MinRead_pos)
      as (bs & e & value' & E & Hle).
    rewrite E. destruct e; eauto.
    destruct (base64_DecodeString L bs); eauto. }
  eauto 7.
Qed.

(* ================================================================= *)
(** ** Steps of the loop *)

Section Steps.

Context {V : Type}.
Variable handler : handler_type V.

Lemma switch_whitespace state keyBuffer b r (v : V) :
  seeking state = true ->
  isWhitespace b = true ->
  switch handler state keyBuffer b r v = next state keyBuffer r v.
Proof.
  intros Hs Hw.
  destruct (isWhitespace_cases b Hw) as [-> | [-> | [-> | ->]]];
    destruct state; try discriminate Hs; reflexivity.
Qed.

Lemma switch_other state keyBuffer b r (v : V) :
  seeking state = true ->
  isWhitespace b = false ->
  structural b = false ->
  switch handler state keyBuffer b r v
  = return_ (Some (unexpected_in state b)) v.
Proof.
  intros Hs Hw Hb. unfold structural in Hb.
  rewrite !orb_false_iff in Hb. destruct Hb as [[[[H1 H2] H3] H4] H5].
  destruct state; try discriminate Hs; simpl;
    rewrite ?H1, ?H2, ?H3, ?H4, ?H5, Hw; reflexivity.
Qed.

Lemma Stream_loop_whitespace (ws : bytes) :
  forallb isWhitespace ws = true ->
  forall fuel state keyBuffer r (v : V),
    seeking state = true ->
    Stream_loop handler (length ws + fuel) state keyBuffer
      (bytes_Reader ws ++ r) v
    = Stream_loop handler fuel state keyBuffer r v.
Proof.
  induction ws as [|b ws IH]; intros Hw fuel state keyBuffer r v Hs;
    [reflexivity|].
  simpl in Hw. apply andb_true_iff in Hw as [Hb Hw].
  simpl. rewrite (switch_whitespace state keyBuffer b _ v Hs Hb). now apply IH.
Qed.

Lemma at_EOF_Read (r : Reader) :
  at_EOF r -> fst (reader_Read r) = no_data io_EOF.
Proof. intros H. destruct H as [|ev r Hev _]; [reflexivity | exact Hev]. Qed.

Lemma Stream_runs_end state keyBuffer r (v : V) :
  delivers r [] ->
  Stream_runs handler state keyBuffer r v (on_readErr io_EOF state, v).
Proof.
  intros H. inversion H as [r0 Hr| |]; subst.
  exists 1. simpl. pose proof (at_EOF_Read r Hr) as E.
  destruct (reader_Read r) as [ev r']. simpl in E. now subst ev.
Qed.

Lemma delivers_cons_inv (r : Reader) (b : ascii) (j : bytes) :
  delivers r (b :: j) ->
  (exists r', r = data_byte b None :: r' /\ delivers r' j)
  \/ (j = [] /\ exists r', r = data_byte b (Some io_EOF) :: r' /\ at_EOF r').
Proof. intros H. inversion H; subst; eauto. Qed.

Lemma Stream_runs_byte state keyBuffer b j r (v : V) state' keyBuffer' v' :
  delivers r (b :: j) ->
  (forall r0, switch handler state keyBuffer b r0 v
              = next state' keyBuffer' r0 v') ->
  exists r',
    delivers r' j
    /\ forall x, Stream_runs handler state' keyBuffer' r' v' x ->
                 Stream_runs handler state keyBuffer r v x.
Proof.
  intros Hd Hsw.
  destruct (delivers_cons_inv _ _ _ Hd)
    as [(r' & -> & Hr') | (-> & r' & -> & Hr')].
  - exists r'. split; [exact Hr'|]. intros x [f Hf].
    exists (S f). simpl. now rewrite Hsw.
  - exists r'. split; [now constructor|]. intros x Hx.
    assert (x = (on_readErr io_EOF state', v')) as ->.
    { eapply Stream_runs_deterministic; [exact Hx|].
      apply Stream_runs_end. now constructor. }
    exists 1. simpl. now rewrite Hsw.
Qed.

Lemma Stream_runs_return state keyBuffer b j r (v : V) e v' :
  delivers r (b :: j) ->
  (forall r0, switch handler state keyBuffer b r0 v = return_ e v') ->
  Stream_runs handler state keyBuffer r v (e, v').
Proof.
  intros Hd Hsw. exists 1.
  destruct (delivers_cons_inv _ _ _ Hd)
    as [(r' & -> & _) | (_ & r' & -> & _)];
    simpl; now rewrite Hsw.
Qed.

Lemma Stream_runs_whitespace (ws : bytes) :
  forallb isWhitespace ws = true ->
  forall j r state keyBuffer (v : V),
    seeking state = true ->
    delivers r (ws ++ j) ->
    exists r',
      delivers r' j
      /\ forall x, Stream_runs handler state keyBuffer r' v x ->
                   Stream_runs handler state keyBuffer r v x.
Proof.
  induction ws as [|b ws IH]; intros Hw j r state keyBuffer v Hs Hd.
  - exists r. auto.
  - simpl in Hw. apply andb_true_iff in Hw as [Hb Hw]. simpl in Hd.
    destruct (Stream_runs_byte state keyBuffer _ _ _ v state keyBuffer v Hd)
      as (r1 & Hr1 & Hrun1).
    { intros r0. now apply switch_whitespace. }
    destruct (IH Hw j r1 state keyBuffer v Hs Hr1) as (r2 & Hr2 & Hrun2).
    exists r2. auto.
Qed.

Lemma Stream_runs_key (s : bytes) :
  forallb plain s = true ->
  forall acc j r (v : V),
    delivers r (s ++ byte_quote :: j) ->
    exists r',
      delivers r' j
      /\ forall x,
           Stream_runs handler stateJSONSeekingColon (acc ++ s) r' v x ->
           Stream_runs handler stateJSONSeekingKeyEnd acc r v x.
Proof.
  induction s as [|b s IH]; intros Hp acc j r v Hd.
  - rewrite app_nil_r. simpl in Hd.
    exact (Stream_runs_byte stateJSONSeekingKeyEnd acc _ _ _ v
             stateJSONSeekingColon acc v Hd (fun r0 => eq_refl)).
  - simpl in Hp. apply andb_true_iff in Hp as [Hb Hp].
    destruct (plain_inv _ Hb) as [Hq Hbs]. simpl in Hd.
    destruct (Stream_runs_byte stateJSONSeekingKeyEnd acc _ _ _ v
                stateJSONSeekingKeyEnd (acc ++ [b]) v Hd)
      as (r1 & Hr1 & Hrun1).
    { intros r0. simpl. now rewrite Hbs, Hq. }
    destruct (IH Hp (acc ++ [b]) j r1 v Hr1) as (r2 & Hr2 & Hrun2).
    exists r2. split; [exact Hr2|]. intros x Hx. apply Hrun1, Hrun2.
    now rewrite <- app_assoc.
Qed.

(** The value that follows an opening quote: its bytes, the closing
    quote, and a reader that delivers the rest. *)
Lemma delivers_value (s : bytes) :
  forall j r,
    delivers r (s ++ byte_quote :: j) ->
    exists err rest,
      r = bytes_Reader s ++ data_byte byte_quote err :: rest
      /\ delivers rest j.
Proof.
  induction s as [|b s IH]; intros j r Hd; simpl in Hd.
  - destruct (delivers_cons_inv _ _ _ Hd)
      as [(r' & -> & Hr') | (-> & r' & -> & Hr')].
    + exists None, r'. auto.
    + exists (Some io_EOF), r'. split; [reflexivity | now constructor].
  - destruct (delivers_cons_inv _ _ _ Hd) as [(r' & -> & Hr') | (Hj & _)].
    + destruct (IH j r' Hr') as (err & rest & -> & Hrest).
      exists err, rest. auto.
    + destruct s; discriminate Hj.
Qed.

(** A key with an escape: the loop returns the escape error at the
    backslash. *)
Lemma Stream_runs_key_escape (s : bytes) :
  forallb plain s = true ->
  forall acc j r (v : V),
    delivers r (s ++ byte_backslash :: j) ->
    Stream_runs handler stateJSONSeekingKeyEnd acc r v
      (Some unsupported_escape, v).
Proof.
  induction s as [|b s IH]; intros Hp acc j r v Hd.
  - simpl in Hd.
    exact (Stream_runs_return stateJSONSeekingKeyEnd acc _ _ _ v _ v
             Hd (fun r0 => eq_refl)).
  - simpl in Hp. apply andb_true_iff in Hp as [Hb Hp].
    destruct (plain_inv _ Hb) as [Hq Hbs]. simpl in Hd.
    destruct (Stream_runs_byte stateJSONSeekingKeyEnd acc _ _ _ v
                stateJSONSeekingKeyEnd (acc ++ [b]) v Hd)
      as (r1 & Hr1 & Hrun1).
    { intros r0. simpl. now rewrite Hbs, Hq. }
    apply Hrun1. exact (IH Hp (acc ++ [b]) j r1 v Hr1).
Qed.

(** The value with an escape that follows an opening quote. *)
Lemma delivers_escape (s : bytes) :
  forall j r,
    delivers r (s ++ byte_backslash :: j) ->
    exists err rest,
      r = bytes_Reader s ++ data_byte byte_backslash err :: rest.
Proof.
  induction s as [|b s IH]; intros j r Hd; simpl in Hd.
  - destruct (delivers_cons_inv _ _ _ Hd)
      as [(r' & -> & Hr') | (-> & r' & -> & Hr')];
      do 2 eexists; reflexivity.
  - destruct (delivers_cons_inv _ _ _ Hd) as [(r' & -> & Hr') | (Hj & _)].
    + destruct (IH j r' Hr') as (err & rest & ->).
      do 2 eexists; reflexivity.
    + destruct s; discriminate Hj.
Qed.

End Steps.

(* ================================================================= *)
(** ** The handler on one member, the streamer on a document *)

Section Tokens.

Variable L : Library.
Variable pass : nat.

Lemma jsonHandler_member (key s : bytes) (err : option error) (rest : Reader)
    (v : pass_variables) (sv : pass_summary) :
  forallb plain s = true ->
  summarises v sv ->
  exists value' v',
    jsonHandler L pass key
      {| eof := false;
         reader := bytes_Reader s ++ data_byte byte_quote err :: rest |} v
    = Some (fst (handle_member L pass key s sv), value', v')
    /\ summarises v' (snd (handle_member L pass key s sv))
    /\ (fst (fst (handle_member L pass key s sv)) = true ->
        reader value' = rest).
Proof.
  intros Hp (Hh & Hd & Hs & Hdata).
  unfold jsonHandler, handle_member.
  destruct (bytes_eqb key (B "data")).
  { destruct (Nat.eqb pass 0).
    - unfold io_Copy.
      rewrite (read_to_end_value io_Copy_buffer s err rest
                 io_Copy_buffer_pos Hp).
      do 2 eexists. split; [reflexivity|]. split; [|reflexivity].
      unfold summarises; simpl. rewrite Hh. auto.
    - do 2 eexists. split; [reflexivity|]. split; [|discriminate].
      unfold summarises; simpl. repeat split; eauto. }
  destruct (bytes_eqb key (B "signingPublicKeyDigest")).
  { unfold jsonReadBase64Value, ioutil_ReadAll.
    rewrite (read_to_end_value bytes_MinRead s err rest bytes_MinRead_pos Hp).
    destruct (base64_DecodeString L s);
      do 2 eexists; (split; [reflexivity|]);
      (split; [|simpl; try reflexivity; discriminate]);
      unfold summarises; simpl; auto. }
  destruct (bytes_eqb key (B "signature")).
  { unfold jsonReadBase64Value, ioutil_ReadAll.
    rewrite (read_to_end_value bytes_MinRead s err rest bytes_MinRead_pos Hp).
    destruct (base64_DecodeString L s);
      do 2 eexists; (split; [reflexivity|]);
      (split; [|simpl; try reflexivity; discriminate]);
      unfold summarises; simpl; auto. }
  do 2 eexists. split; [reflexivity|]. split; [|discriminate].
  unfold summarises; auto.
Qed.

Lemma jsonHandler_escaped (key s : bytes) (err : option error) (rest : Reader)
    (v : pass_variables) (sv : pass_summary) :
  forallb plain s = true ->
  summarises v sv ->
  exists value' v',
    jsonHandler L pass key
      {| eof := false;
         reader := bytes_Reader s ++ data_byte byte_backslash err :: rest |} v
    = Some (fst (handle_escaped L pass key s sv), value', v')
    /\ summarises v' (snd (handle_escaped L pass key s sv)).
Proof.
  intros Hp (Hh & Hd & Hs & Hdata).
  unfold jsonHandler, handle_escaped.
  destruct (bytes_eqb key (B "data")).
  { destruct (Nat.eqb pass 0).
    - unfold io_Copy.
      rewrite (read_to_end_escape io_Copy_buffer s err rest
                 io_Copy_buffer_pos Hp).
      do 2 eexists. split; [reflexivity|].
      unfold summarises; simpl. rewrite Hh. auto.
    - do 2 eexists. split; [reflexivity|].
      unfold summarises, stands_before; simpl. repeat split; eauto. }
  destruct (bytes_eqb key (B "signingPublicKeyDigest")).
  { unfold jsonReadBase64Value, ioutil_ReadAll.
    rewrite (read_to_end_escape bytes_MinRead s err rest bytes_MinRead_pos Hp).
    do 2 eexists. split; [reflexivity|]. unfold summarises; simpl; auto. }
  destruct (bytes_eqb key (B "signature")).
  { unfold jsonReadBase64Value, ioutil_ReadAll.
    rewrite (read_to_end_escape bytes_MinRead s err rest bytes_MinRead_pos Hp).
    do 2 eexists. split; [reflexivity|]. unfold summarises; simpl; auto. }
  do 2 eexists. split; [reflexivity|]. unfold summarises; auto.
Qed.

Lemma handle_escaped_halts (key s : bytes) (sv : pass_summary) :
  fst (fst (handle_escaped L pass key s sv)) = false.
Proof.
  unfold handle_escaped.
  repeat match goal with
         | |- context [if ?c then _ else _] => destruct c
         end; reflexivity.
Qed.

Lemma layout_ok_cons (ws : bytes) (t : token) (doc : layout)
    (trailing : bytes) :
  layout_ok ((ws, t) :: doc) trailing = true ->
  forallb isWhitespace ws = true /\ token_ok t = true
  /\ layout_ok doc trailing = true.
Proof.
  unfold layout_ok. simpl. rewrite !andb_true_iff. tauto.
Qed.

(** One punctuation byte in a seeking state: the loop moves on as the
    token table says, or returns the table's error. *)
Ltac step_byte Hd Hback IH :=
  match type of Hback with
  | forall x, Stream_runs _ ?st ?key _ ?v _ -> _ =>
      first
        [ let Hstep := fresh "Hstep" in
          epose proof (Stream_runs_byte (jsonHandler L pass) st key
                         _ _ _ v _ _ _ Hd) as Hstep;
          destruct Hstep as (?r2 & ?Hr2 & ?Hrun2);
          [ intros r0; reflexivity | ];
          edestruct IH as (?v' & ?Hrun & ?Hsum);
          [ | eassumption | eassumption
          | eexists; split;
            [ apply Hback; apply Hrun2; exact Hrun | exact Hsum ] ];
          reflexivity
        | eexists; split;
          [ apply Hback;
            eapply (Stream_runs_return (jsonHandler L pass) st key _ _ _ v);
            [ exact Hd | intros r0; reflexivity ]
          | assumption ] ]
  end.

Lemma Stream_runs_tokens (doc : layout) (trailing : bytes) :
  layout_ok doc trailing = true ->
  forall state keyBuffer r v sv,
    seeking state = true ->
    delivers r (render doc trailing) ->
    summarises v sv ->
    exists v',
      Stream_runs (jsonHandler L pass) state keyBuffer r v
        (fst (Stream_tokens L pass (tokens doc) state keyBuffer sv), v')
      /\ summarises v'
           (snd (Stream_tokens L pass (tokens doc) state keyBuffer sv)).
Proof.
  induction doc as [|[ws t] doc IH]; intros Hok state keyBuffer r v sv Hs Hd Hv.
  - unfold layout_ok in Hok. simpl in Hok, Hd. rewrite <- (app_nil_r trailing) in Hd.
    destruct (Stream_runs_whitespace (jsonHandler L pass) trailing Hok
                [] r state keyBuffer v Hs Hd) as (r1 & Hr1 & Hback).
    exists v. split; [|exact Hv]. apply Hback. simpl.
    now apply Stream_runs_end.
  - apply layout_ok_cons in Hok as (Hws & Ht & Hok).
    specialize (IH Hok). simpl in Hd.
    destruct (Stream_runs_whitespace (jsonHandler L pass) ws Hws
                _ r state keyBuffer v Hs Hd) as (r1 & Hr1 & Hback).
    destruct t as [ | | | |s|pre post|b rest]; simpl in Hr1.
    1-4: destruct state; try discriminate Hs; simpl tokens;
         simpl Stream_tokens; step_byte Hr1 Hback IH.
    2: { (* a string with an escape *)
      rewrite <- app_assoc in Hr1. simpl in Hr1. simpl in Ht.
      destruct state; try discriminate Hs; simpl tokens; simpl Stream_tokens.
      - step_byte Hr1 Hback IH.
      - destruct (Stream_runs_byte (jsonHandler L pass)
                    stateJSONSeekingKeyStart keyBuffer _ _ _ v
                    stateJSONSeekingKeyEnd [] v Hr1 (fun r0 => eq_refl))
          as (r2 & Hr2 & Hrun2).
        exists v. split; [|exact Hv]. apply Hback, Hrun2.
        exact (Stream_runs_key_escape (jsonHandler L pass) pre Ht [] _ r2 v
                 Hr2).
      - step_byte Hr1 Hback IH.
      - destruct (delivers_cons_inv _ _ _ Hr1)
          as [(r2 & -> & Hr2) | (Hnil & _)];
          [|destruct pre; discriminate Hnil].
        destruct (delivers_escape pre _ _ Hr2) as (err & r3 & ->).
        destruct (jsonHandler_escaped keyBuffer pre err r3 v sv Ht Hv)
          as (value' & v1 & E & Hsum1).
        pose proof (handle_escaped_halts keyBuffer pre sv) as Hc.
        destruct (handle_escaped L pass keyBuffer pre sv) as [[c [e|]] sv1];
          simpl in Hc; subst c; simpl in E, Hsum1; simpl;
          exists v1; (split; [|exact Hsum1]); apply Hback;
          exists 1; simpl; now rewrite E.
      - step_byte Hr1 Hback IH.
      - step_byte Hr1 Hback IH. }
    2: { (* any other token *)
      simpl in Ht. apply andb_true_iff in Ht as [Hw Hb].
      rewrite negb_true_iff in Hw, Hb.
      assert (Stream_runs (jsonHandler L pass) state keyBuffer r v
                (Some (unexpected_in state b), v)) as Hrun.
      { apply Hback.
        apply (Stream_runs_return (jsonHandler L pass) state keyBuffer
                 b _ r1 v (Some (unexpected_in state b)) v Hr1).
        intros r0. now apply switch_other. }
      destruct state; try discriminate Hs;
        exists v; (split; [exact Hrun | exact Hv]). }
    rewrite <- app_assoc in Hr1. simpl in Hr1. simpl in Ht.
    destruct state; try discriminate Hs; simpl tokens; simpl Stream_tokens.
    + step_byte Hr1 Hback IH.
    + (* a key *)
      destruct (Stream_runs_byte (jsonHandler L pass)
                  stateJSONSeekingKeyStart keyBuffer _ _ _ v
                  stateJSONSeekingKeyEnd [] v Hr1 (fun r0 => eq_refl))
        as (r2 & Hr2 & Hrun2).
      destruct (Stream_runs_key (jsonHandler L pass) s Ht [] _ r2 v Hr2)
        as (r3 & Hr3 & Hrun3).
      destruct (IH stateJSONSeekingColon s r3 v sv eq_refl Hr3 Hv)
        as (v' & Hrun & Hsum).
      exists v'. split; [|exact Hsum]. now apply Hback, Hrun2, Hrun3.
    + step_byte Hr1 Hback IH.
    + (* a value *)
      destruct (delivers_cons_inv _ _ _ Hr1)
        as [(r2 & -> & Hr2) | (Hnil & _)];
        [|destruct s; discriminate Hnil].
      destruct (delivers_value s _ _ Hr2) as (err & r3 & -> & Hr3).
      destruct (jsonHandler_member keyBuffer s err r3 v sv Ht Hv)
        as (value' & v1 & E & Hsum1 & Hreader).
      destruct (handle_member L pass keyBuffer s sv) as [[c [e|]] sv1];
        destruct c; simpl in E, Hsum1, Hreader; simpl.
      * exists v1. split; [|exact Hsum1]. apply Hback.
        exists 1. simpl. now rewrite E.
      * exists v1. split; [|exact Hsum1]. apply Hback.
        exists 1. simpl. now rewrite E.
      * destruct (IH stateJSONSeekingNextPair keyBuffer r3 v1 sv1
                    eq_refl Hr3 Hsum1) as (v' & [f Hf] & Hsum).
        exists v'. split; [|exact Hsum]. apply Hback.
        exists (S f). simpl. rewrite E. simpl.
        now rewrite (Hreader eq_refl).
      * exists v1. split; [|exact Hsum1]. apply Hback.
        exists 1. simpl. now rewrite E.
    + step_byte Hr1 Hback IH.
    + step_byte Hr1 Hback IH.
Qed.

End Tokens.

(* ================================================================= *)
(** ** The two passes on a document *)

Lemma summarises_fresh : summarises fresh_variables fresh_summary.
Proof. unfold summarises; simpl; auto. Qed.

Lemma verify_summarises (L : Library) (signingPublicKey : bytes)
    (v : pass_variables) (sv : pass_summary) :
  summarises v sv ->
  verify L signingPublicKey v = verify L signingPublicKey (variables_of sv).
Proof.
  intros (Hh & Hd & Hs & _). unfold verify, variables_of; simpl.
  now rewrite Hh, Hd, Hs.
Qed.

Lemma Stream_tokens_document (L : Library) (pass : nat) (doc : layout)
    (trailing : bytes) (r : Reader) :
  layout_ok doc trailing = true ->
  delivers r (render doc trailing) ->
  exists v',
    Stream (jsonHandler L pass) r fresh_variables
    = Some (fst (Stream_tokens L pass (tokens doc)
                   stateJSONSeekingObjectStart [] fresh_summary), v')
    /\ summarises v'
         (snd (Stream_tokens L pass (tokens doc)
                 stateJSONSeekingObjectStart [] fresh_summary)).
Proof.
  intros Hok Hd.
  destruct (Stream_runs_tokens L pass doc trailing Hok
              stateJSONSeekingObjectStart [] r fresh_variables fresh_summary
              eq_refl Hd summarises_fresh) as (v' & Hrun & Hsum).
  exists v'. split; [|exact Hsum].
  apply Stream_runs_Stream; [apply jsonHandler_reads | exact Hrun].
Qed.

Lemma pass_body_tokens (L : Library) (signingPublicKey : bytes) (file : File)
    (pass : nat) (doc : layout) (trailing : bytes)
    (before : option payload) (sbefore : option (bytes * option error)) :
  file_delivers L file pass doc trailing ->
  payload_agrees before sbefore ->
  exists x,
    pass_body L file signingPublicKey pass before = Some x
    /\ result_agrees x
         (pass_tokens L signingPublicKey pass (tokens doc) (Seek file pass)
            sbefore).
Proof.
  intros (Hok & r & Hz & Hd) Hb. unfold pass_body, pass_tokens.
  destruct (Seek file pass) as [e|].
  { eexists. split; reflexivity. }
  rewrite Hz.
  destruct (Stream_tokens_document L pass doc trailing r Hok Hd)
    as (v' & E & Hsum).
  rewrite E.
  destruct (Stream_tokens L pass (tokens doc) stateJSONSeekingObjectStart []
              fresh_summary) as [[e|] sv]; simpl in *.
  { eexists. split; reflexivity. }
  destruct (Nat.eqb pass 0).
  - rewrite (verify_summarises L signingPublicKey v' sv Hsum).
    destruct (verify L signingPublicKey (variables_of sv));
      eexists; (split; [reflexivity|]); simpl; auto.
  - destruct Hsum as (_ & _ & _ & Hdata).
    destruct (jsonData v') as [value|], (sum_data sv) as [s|];
      try contradiction;
      eexists; (split; [reflexivity|]); simpl; auto.
Qed.

Lemma payload_agrees_content (p : payload) (content : bytes * option error) :
  payload_agrees (Some p) (Some content) ->
  payload_content p = Some content.
Proof.
  destruct content as [s e].
  intros (Hp & err & rest & E & He). simpl in Hp, E, He.
  unfold payload_content, ioutil_ReadAll. rewrite E.
  destruct He as [-> | ->].
  - now rewrite (read_to_end_value bytes_MinRead s err rest
                   bytes_MinRead_pos Hp).
  - now rewrite (read_to_end_escape bytes_MinRead s err rest
                   bytes_MinRead_pos Hp).
Qed.

(** What the caller observes of the streaming reader on a file that
    holds a document in each pass: the verdict read off the tokens. *)
Lemma StreamingRead_tokens (L : Library) (packageFileName signingPublicKey : bytes)
    (file : File) (doc : nat -> layout) (trailing : nat -> bytes) :
  os_Open L packageFileName = Ok file ->
  file_delivers L file 0 (doc 0) (trailing 0) ->
  file_delivers L file 1 (doc 1) (trailing 1) ->
  observe (StreamingReadAuthenticatedDataPackage L packageFileName
             signingPublicKey)
  = Some (verdict_tokens L signingPublicKey file
            (fun pass => tokens (doc pass))).
Proof.
  intros Ho H0 H1. unfold StreamingReadAuthenticatedDataPackage, verdict_tokens.
  rewrite Ho. simpl passes.
  destruct (pass_body_tokens L signingPublicKey file 0 (doc 0) (trailing 0)
              None None H0 I) as (x0 & E0 & A0).
  rewrite E0.
  destruct x0 as [p0|e0],
    (pass_tokens L signingPublicKey 0 (tokens (doc 0)) (Seek file 0) None)
    as [c0|e0']; simpl in A0; try contradiction; [|now subst].
  destruct (pass_body_tokens L signingPublicKey file 1 (doc 1) (trailing 1)
              p0 c0 H1 A0) as (x1 & E1 & A1).
  rewrite E1.
  destruct x1 as [p1|e1],
    (pass_tokens L signingPublicKey 1 (tokens (doc 1)) (Seek file 1) c0)
    as [c1|e1']; simpl in A1; try contradiction; [|now subst].
  destruct p1 as [p1|], c1 as [c1|]; simpl in A1; try contradiction;
    [|reflexivity].
  simpl. now rewrite (payload_agrees_content p1 c1 A1).
Qed.

(* ================================================================= *)
(** ** The two passes on the members of an object *)

(** C8.  Two files whose decompressed texts have, pass by pass, the same
    JSON tokens (punctuation, strings with or without escapes, tokens of
    any other kind, in any order) and differ only in the whitespace
    (space, tab, CR, LF) written before, between and after the tokens get
    the same verdict from the streaming reader: the same error, or
    readers that yield the same bytes. *)
Theorem whitespace_between_tokens_keeps_verdict
    (L : Library) (name name' signingPublicKey : bytes) (file file' : File)
    (doc doc' : nat -> layout) (trailing trailing' : nat -> bytes) :
  os_Open L name = Ok file ->
  os_Open L name' = Ok file' ->
  (forall pass, pass < 2 -> Seek file' pass = Seek file pass) ->
  (forall pass, pass < 2 ->
     file_delivers L file pass (doc pass) (trailing pass)) ->
  (forall pass, pass < 2 ->
     file_delivers L file' pass (doc' pass) (trailing' pass)) ->
  (forall pass, pass < 2 -> tokens (doc' pass) = tokens (doc pass)) ->
  exists verdict,
    observe (StreamingReadAuthenticatedDataPackage L name signingPublicKey)
    = Some verdict
    /\ observe (StreamingReadAuthenticatedDataPackage L name' signingPublicKey)
       = Some verdict.
Proof.
  intros Ho Ho' Hseek Hd Hd' Htok.
  eexists. split.
  - apply (StreamingRead_tokens L name signingPublicKey file doc trailing Ho);
      apply Hd; lia.
  - rewrite (StreamingRead_tokens L name' signingPublicKey file' doc' trailing'
               Ho') by (apply Hd'; lia).
    unfold verdict_tokens.
    rewrite !Hseek, !Htok by lia. reflexivity.
Qed.

Section Members.

Variable L : Library.

Lemma Stream_tokens_members (pass : nat) (ms : list member) :
  ms <> [] ->
  forall key sv,
    Stream_tokens L pass (member_tokens ms ++ [tok_RBrace])
      stateJSONSeekingKeyStart key sv
    = handle_members L pass ms sv.
Proof.
  induction ms as [|[k s] ms IH]; intros Hne key sv; [contradiction|].
  destruct ms as [|m ms].
  - simpl. destruct (handle_member L pass k s sv) as [[[|] [e|]] sv'];
      reflexivity.
  - change (member_tokens ((k, s) :: m :: ms))
      with (tok_String k :: tok_Colon :: tok_String s :: tok_Comma
            :: member_tokens (m :: ms)).
    cbn [app Stream_tokens handle_members].
    destruct (handle_member L pass k s sv) as [[[|] [e|]] sv'];
      try reflexivity.
    apply IH. discriminate.
Qed.

Lemma Stream_tokens_object (pass : nat) (ms : list member) (sv : pass_summary) :
  ms <> [] ->
  Stream_tokens L pass (object_tokens ms) stateJSONSeekingObjectStart [] sv
  = handle_members L pass ms sv.
Proof.
  intros Hne. unfold object_tokens. cbn [Stream_tokens].
  now apply Stream_tokens_members.
Qed.

Lemma member_ok_inv (k s : bytes) :
  member_ok L (k, s) = true ->
  (k = key_data
   \/ ((k = key_digest \/ k = key_signature)
       /\ exists d, base64_DecodeString L s = Ok d)).
Proof.
  unfold member_ok. simpl. rewrite !andb_true_iff, !orb_true_iff.
  rewrite andb_true_iff, orb_true_iff, !bytes_eqb_eq.
  intros (_ & [H | (H & Hd)]); [now left | right].
  split; [exact H|]. destruct (base64_DecodeString L s); [eauto | discriminate].
Qed.

(** Pass 0 takes every member of a well-formed object and collects: the
    hash input grows by every ["data"] value, the digest and the
    signature are overwritten by every member of that name. *)
Lemma handle_members_pass0 (ms : list member) :
  forallb (member_ok L) ms = true ->
  forall sv,
    handle_members L 0 ms sv
    = (None,
       {| sum_hash := sum_hash sv ++ concat (data_values ms);
          sum_data := sum_data sv;
          sum_digest := match last_value key_digest ms with
                        | Some s => decoded L (Some s)
                        | None => sum_digest sv
                        end;
          sum_signature := match last_value key_signature ms with
                           | Some s => decoded L (Some s)
                           | None => sum_signature sv
                           end |}).
Proof.
  induction ms as [|[k s] ms IH]; intros Hok sv.
  - simpl. rewrite app_nil_r. now destruct sv.
  - simpl in Hok. apply andb_true_iff in Hok as [Hm Hok].
    specialize (IH Hok). cbn [handle_members].
    destruct (member_ok_inv k s Hm) as [-> | ([-> | ->] & d & Hd)].
    + unfold handle_member. cbn -[decoded base64_DecodeString].
      rewrite IH. cbn -[decoded]. unfold data_values. cbn -[decoded].
      f_equal; f_equal; try (now rewrite <- app_assoc);
        repeat match goal with
               | |- context [last_value ?k ms] => destruct (last_value k ms)
               end; reflexivity.
    + unfold handle_member. cbn -[decoded base64_DecodeString].
      rewrite Hd, IH. cbn -[decoded]. unfold data_values. cbn -[decoded].
      f_equal; f_equal;
        repeat match goal with
               | |- context [last_value ?k ms] => destruct (last_value k ms)
               end; cbn; try rewrite Hd; reflexivity.
    + unfold handle_member. cbn -[decoded base64_DecodeString].
      rewrite Hd, IH. cbn -[decoded]. unfold data_values. cbn -[decoded].
      f_equal; f_equal;
        repeat match goal with
               | |- context [last_value ?k ms] => destruct (last_value k ms)
               end; cbn; try rewrite Hd; reflexivity.
Qed.

(** A later pass halts at the first ["data"] member and captures its
    value. *)
Lemma handle_members_pass1 (pass : nat) (ms : list member) :
  pass <> 0 ->
  forallb (member_ok L) ms = true ->
  forall sv,
    fst (handle_members L pass ms sv) = None
    /\ sum_data (snd (handle_members L pass ms sv))
       = match first_value key_data ms with
         | Some s => Some (s, None)
         | None => sum_data sv
         end.
Proof.
  intros Hpass. apply Nat.eqb_neq in Hpass.
  induction ms as [|[k s] ms IH]; intros Hok sv.
  - simpl. auto.
  - simpl in Hok. apply andb_true_iff in Hok as [Hm Hok].
    specialize (IH Hok). cbn [handle_members first_value].
    destruct (member_ok_inv k s Hm) as [-> | ([-> | ->] & d & Hd)].
    + unfold handle_member. cbn [bytes_eqb key_data B list_ascii_of_string].
      rewrite Hpass. cbn. auto.
    + unfold handle_member. cbn -[base64_DecodeString].
      rewrite Hd. exact (IH _).
    + unfold handle_member. cbn -[base64_DecodeString].
      rewrite Hd. exact (IH _).
Qed.

End Members.

Lemma variables_of_pass0 (L : Library) (ms : list member) :
  forallb (member_ok L) ms = true ->
  variables_of (snd (handle_members L 0 ms fresh_summary)) = collected L ms.
Proof.
  intros Hok. rewrite (handle_members_pass0 L ms Hok).
  unfold variables_of, collected; simpl.
  f_equal; destruct (last_value _ ms); reflexivity.
Qed.

Lemma pass_tokens_object (L : Library) (signingPublicKey : bytes) (pass : nat)
    (ms : list member) (before : option (bytes * option error)) :
  ms <> [] ->
  forallb (member_ok L) ms = true ->
  pass_tokens L signingPublicKey pass (object_tokens ms) None before
  = pass_members L signingPublicKey pass ms before.
Proof.
  intros Hne Hok. unfold pass_tokens, pass_members.
  rewrite (Stream_tokens_object L pass ms fresh_summary Hne).
  destruct (Nat.eqb pass 0) eqn:Hp.
  - apply Nat.eqb_eq in Hp. subst pass.
    pose proof (variables_of_pass0 L ms Hok) as Hv.
    rewrite (handle_members_pass0 L ms Hok) in *. simpl in Hv |- *.
    now rewrite Hv.
  - apply Nat.eqb_neq in Hp.
    destruct (handle_members_pass1 L pass ms Hp Hok fresh_summary) as [H1 H2].
    destruct (handle_members L pass ms fresh_summary) as [e sv].
    simpl in H1, H2. subst e. rewrite H2.
    now destruct (first_value key_data ms).
Qed.

Lemma pass_body_object (L : Library) (signingPublicKey : bytes) (file : File)
    (pass : nat) (ms : list member)
    (before : option payload) (sbefore : option (bytes * option error)) :
  file_holds_object L file ms ->
  pass < 2 ->
  ms <> [] ->
  forallb (member_ok L) ms = true ->
  payload_agrees before sbefore ->
  exists x,
    pass_body L file signingPublicKey pass before = Some x
    /\ result_agrees x (pass_members L signingPublicKey pass ms sbefore).
Proof.
  intros Hf Hp Hne Hok Hb.
  destruct (Hf pass Hp) as (Hseek & doc & trailing & Hd & Htok).
  destruct (pass_body_tokens L signingPublicKey file pass doc trailing
              before sbefore Hd Hb) as (x & E & A).
  exists x. split; [exact E|].
  rewrite Htok, Hseek in A.
  now rewrite (pass_tokens_object L signingPublicKey pass ms sbefore Hne Hok)
    in A.
Qed.

(** The streaming reader on a file that holds an object with the members
    [ms]: the checks of pass 0 on what it collects, then the first
    ["data"] value. *)
Lemma StreamingRead_object (L : Library) (name signingPublicKey : bytes)
    (file : File) (ms : list member) :
  os_Open L name = Ok file ->
  file_holds_object L file ms ->
  ms <> [] ->
  forallb (member_ok L) ms = true ->
  exists x,
    StreamingReadAuthenticatedDataPackage L name signingPublicKey = Some x
    /\ match verify L signingPublicKey (collected L ms) with
       | Some err => x = Err err
       | None =>
           match first_value key_data ms with
           | None =>
               x = Err (ContextError (errors_New "missing expected field"))
           | Some s =>
               exists p,
                 x = Ok (Some p) /\ payload_agrees (Some p) (Some (s, None))
           end
       end.
Proof.
  intros Ho Hf Hne Hok. unfold StreamingReadAuthenticatedDataPackage.
  rewrite Ho. simpl passes.
  destruct (pass_body_object L signingPublicKey file 0 ms None None
              Hf ltac:(lia) Hne Hok I) as (x0 & E0 & A0).
  rewrite E0. unfold pass_members in A0. simpl in A0.
  destruct (verify L signingPublicKey (collected L ms)) as [e|].
  { destruct x0; simpl in A0; [contradiction | subst]. eauto. }
  destruct x0 as [p0|]; simpl in A0; [|contradiction].
  destruct (pass_body_object L signingPublicKey file 1 ms p0 None
              Hf ltac:(lia) Hne Hok A0) as (x1 & E1 & A1).
  rewrite E1. unfold pass_members in A1. simpl in A1.
  destruct (first_value key_data ms) as [s|].
  - destruct x1 as [[p1|]|]; simpl in A1; try contradiction.
    eexists. split; [reflexivity|]. exists p1. auto.
  - destruct x1; simpl in A1; [contradiction | subst]. eauto.
Qed.

(** C9.  Repeated keys are not rejected.  For a file that holds an object
    whose members [ms] (keys among the three names, repeated or not) are
    well formed: pass 0 ends without error having written to the hash the
    concatenation of all ["data"] values in document order, and holding
    the decoded values of the last ["signingPublicKeyDigest"] and the last
    ["signature"] member; the checks of pass 0 are made on exactly these;
    and when they pass, the caller gets a reader that yields the first
    ["data"] value. *)
Theorem duplicate_keys_first_and_last
    (L : Library) (name signingPublicKey : bytes) (file : File)
    (ms : list member) :
  os_Open L name = Ok file ->
  file_holds_object L file ms ->
  ms <> [] ->
  forallb (member_ok L) ms = true ->
  (forall doc trailing r,
     layout_ok doc trailing = true ->
     tokens doc = object_tokens ms ->
     delivers r (render doc trailing) ->
     exists v,
       Stream (jsonHandler L 0) r fresh_variables = Some (None, v)
       /\ hash v = concat (data_values ms)
       /\ jsonSigningPublicKey v = decoded L (last_value key_digest ms)
       /\ jsonSignature v = decoded L (last_value key_signature ms))
  /\ observe (StreamingReadAuthenticatedDataPackage L name signingPublicKey)
     = Some
         match verify L signingPublicKey (collected L ms) with
         | Some err => Err err
         | None =>
             match first_value key_data ms with
             | Some s => Ok (Some (s, None))
             | None =>
                 Err (ContextError (errors_New "missing expected field"))
             end
         end.
Proof.
  intros Ho Hf Hne Hok. split.
  - intros doc trailing r Hlay Htok Hd.
    destruct (Stream_tokens_document L 0 doc trailing r Hlay Hd)
      as (v & E & Hsum).
    rewrite Htok, (Stream_tokens_object L 0 ms fresh_summary Hne) in E, Hsum.
    rewrite (handle_members_pass0 L ms Hok) in E, Hsum.
    exists v. split; [exact E|].
    destruct Hsum as (Hh & Hd' & Hs & _). simpl in Hh, Hd', Hs.
    rewrite Hh, Hd', Hs.
    repeat split; destruct (last_value _ ms); reflexivity.
  - destruct (StreamingRead_object L name signingPublicKey file ms
                Ho Hf Hne Hok) as (x & E & Hx).
    rewrite E.
    destruct (verify L signingPublicKey (collected L ms)); [now subst|].
    destruct (first_value key_data ms) as [s|]; [|now subst].
    destruct Hx as (p & -> & Hp). simpl.
    now rewrite (payload_agrees_content p (s, None) Hp).
Qed.

Lemma no_data_values (ms : list member) :
  first_value key_data ms = None -> data_values ms = [].
Proof.
  unfold data_values. induction ms as [|[k s] ms IH]; simpl; [reflexivity|].
  destruct (bytes_eqb k key_data); [discriminate | exact IH].
Qed.

(** C10.  A file that holds an object without a ["data"] member, whose
    last digest member holds the digest of the verification key and whose
    last signature member verifies over the SHA-256 of the empty byte
    string: pass 0 ends without error, and the streaming reader fails in
    pass 1 with the missing-field error. *)
Theorem missing_data_passes_pass_0
    (L : Library) (name signingPublicKey : bytes) (file : File)
    (ms : list member) (derEncodedPublicKey d sg : bytes)
    (rsaPublicKey : rsa_PublicKey L) :
  os_Open L name = Ok file ->
  file_holds_object L file ms ->
  ms <> [] ->
  forallb (member_ok L) ms = true ->
  first_value key_data ms = None ->
  decoded L (last_value key_digest ms) = Some d ->
  decoded L (last_value key_signature ms) = Some sg ->
  base64_DecodeString L signingPublicKey = Ok derEncodedPublicKey ->
  x509_ParsePKIXPublicKey L derEncodedPublicKey = Ok (Some rsaPublicKey) ->
  d = sha256sum L signingPublicKey ->
  rsa_VerifyPKCS1v15 L rsaPublicKey (sha256_Sum256 L []) sg = None ->
  pass_body L file signingPublicKey 0 None = Some (Ok None)
  /\ StreamingReadAuthenticatedDataPackage L name signingPublicKey
     = Some (Err (ContextError (errors_New "missing expected field"))).
Proof.
  intros Ho Hf Hne Hok Hnd Hdig Hsig Hkey Hparse Hd Hver.
  assert (verify L signingPublicKey (collected L ms) = None) as Hv.
  { unfold verify, collected; simpl.
    rewrite Hdig, Hsig, Hkey, Hparse, (no_data_values ms Hnd). simpl.
    subst d. now rewrite bytes_eqb_refl, Hver. }
  split.
  - destruct (pass_body_object L signingPublicKey file 0 ms None None
                Hf ltac:(lia) Hne Hok I) as (x0 & E0 & A0).
    unfold pass_members in A0. simpl in A0. rewrite Hv in A0.
    destruct x0 as [[p|]|]; simpl in A0; try contradiction. exact E0.
  - destruct (StreamingRead_object L name signingPublicKey file ms
                Ho Hf Hne Hok) as (x & E & Hx).
    rewrite Hv, Hnd in Hx. now subst x.
Qed.

(* ================================================================= *)
(** ** The streaming reader: order of the passes *)

Lemma pass_body_total (L : Library) (file : File) (signingPublicKey : bytes)
    (pass : nat) (before : option payload) :
  exists x, pass_body L file signingPublicKey pass before = Some x.
Proof.
  unfold pass_body.
  destruct (Seek file pass); [eauto|].
  destruct (zlib_NewReader L (contents file pass)) as [r|]; [|eauto].
  destruct (Stream_total (jsonHandler L pass) (jsonHandler_reads L pass)
              r fresh_variables) as ([[e|] v] & E); rewrite E; [eauto|].
  destruct (Nat.eqb pass 0).
  - destruct (verify L signingPublicKey v); eauto.
  - destruct (jsonData v); eauto.
Qed.

Lemma verify_passed (L : Library) (signingPublicKey : bytes)
    (v : pass_variables) :
  verify L signingPublicKey v = None ->
  exists d sg derEncodedPublicKey rsaPublicKey,
    jsonSigningPublicKey v = Some d
    /\ jsonSignature v = Some sg
    /\ base64_DecodeString L signingPublicKey = Ok derEncodedPublicKey
    /\ x509_ParsePKIXPublicKey L derEncodedPublicKey = Ok (Some rsaPublicKey)
    /\ d = sha256sum L signingPublicKey
    /\ rsa_VerifyPKCS1v15 L rsaPublicKey (sha256_Sum256 L (hash v)) sg = None.
Proof.
  unfold verify.
  destruct (jsonSigningPublicKey v) as [d|]; [|discriminate].
  destruct (jsonSignature v) as [sg|]; [|discriminate].
  destruct (base64_DecodeString L signingPublicKey) as [der|]; [|discriminate].
  destruct (x509_ParsePKIXPublicKey L der) as [[pk|]|] eqn:Hp;
    try discriminate.
  destruct (bytes_eqb d (sha256sum L signingPublicKey)) eqn:Hd;
    [|discriminate].
  apply bytes_eqb_eq in Hd. simpl.
  destruct (rsa_VerifyPKCS1v15 L pk (sha256_Sum256 L (hash v)) sg) eqn:Hv;
    [discriminate|].
  intros _. exists d, sg, der, pk. repeat split; auto.
Qed.

(** C1.  The streaming reader always returns; when it returns a reader,
    pass 0 has run to its end on the file: its stream ended without
    error, the digest it collected equals the SHA-256 of the key string
    and the signature it collected verifies over the SHA-256 of the bytes
    it hashed; and whenever pass 0 returns an error, the streaming reader
    returns that error, and so no reader. *)
Theorem reader_only_after_pass_0
    (L : Library) (packageFileName signingPublicKey : bytes) :
  (exists x,
     StreamingReadAuthenticatedDataPackage L packageFileName signingPublicKey
     = Some x)
  /\ (forall p,
        StreamingReadAuthenticatedDataPackage L packageFileName
          signingPublicKey = Some (Ok p) ->
        exists file decompressor v d sg derEncodedPublicKey rsaPublicKey value,
          os_Open L packageFileName = Ok file
          /\ Seek file 0 = None
          /\ zlib_NewReader L (contents file 0) = Ok decompressor
          /\ Stream (jsonHandler L 0) decompressor fresh_variables
             = Some (None, v)
          /\ jsonSigningPublicKey v = Some d
          /\ jsonSignature v = Some sg
          /\ base64_DecodeString L signingPublicKey = Ok derEncodedPublicKey
          /\ x509_ParsePKIXPublicKey L derEncodedPublicKey
             = Ok (Some rsaPublicKey)
          /\ d = sha256sum L signingPublicKey
          /\ rsa_VerifyPKCS1v15 L rsaPublicKey (sha256_Sum256 L (hash v)) sg
             = None
          /\ pass_body L file signingPublicKey 0 None = Some (Ok None)
          /\ p = Some {| payload_Reader := value; payload_Closer := file |})
  /\ (forall file e,
        os_Open L packageFileName = Ok file ->
        pass_body L file signingPublicKey 0 None = Some (Err e) ->
        StreamingReadAuthenticatedDataPackage L packageFileName
          signingPublicKey = Some (Err e)).
Proof.
  unfold StreamingReadAuthenticatedDataPackage. repeat split.
  - destruct (os_Open L packageFileName) as [file|]; [|eauto].
    simpl passes.
    destruct (pass_body_total L file signingPublicKey 0 None) as ([p0|] & E0);
      rewrite E0; [|eauto].
    destruct (pass_body_total L file signingPublicKey 1 p0) as ([p1|] & E1);
      rewrite E1; eauto.
  - intros p. destruct (os_Open L packageFileName) as [file|]; [|discriminate].
    simpl passes.
    destruct (pass_body L file signingPublicKey 0 None) as [[p0|]|] eqn:E0;
      try discriminate.
    destruct (pass_body L file signingPublicKey 1 p0) as [[p1|]|] eqn:E1;
      try discriminate.
    intros H. inversion H; subst p1. clear H.
    unfold pass_body in E0, E1.
    destruct (Seek file 0) eqn:Hs0; [discriminate|].
    destruct (zlib_NewReader L (contents file 0)) as [r0|] eqn:Hz0;
      [|discriminate].
    destruct (Stream (jsonHandler L 0) r0 fresh_variables)
      as [[[e|] v0]|] eqn:S0; try discriminate.
    simpl in E0.
    destruct (verify L signingPublicKey v0) eqn:Hv; [discriminate|].
    inversion E0; subst p0.
    destruct (Seek file 1); [discriminate|].
    destruct (zlib_NewReader L (contents file 1)) as [r1|]; [|discriminate].
    destruct (Stream (jsonHandler L 1) r1 fresh_variables)
      as [[[e|] v1]|]; try discriminate.
    simpl in E1. destruct (jsonData v1) as [value|]; [|discriminate].
    inversion E1; subst p.
    destruct (verify_passed L signingPublicKey v0 Hv)
      as (d & sg & der & pk & H1 & H2 & H3 & H4 & H5 & H6).
    exists file, r0, v0, d, sg, der, pk, value.
    repeat split; auto.
    unfold pass_body. rewrite Hs0, Hz0, S0. simpl. now rewrite Hv.
  - intros file e Ho E0. rewrite Ho. simpl passes. now rewrite E0.
Qed.

(* ================================================================= *)
(** ** The digest of the key string *)

(** C4.  The writer stores the SHA-256 of the key string as it is given
    (its base64 characters; the writer never decodes the public key);
    the reader and the streaming reader compare the stored digest with
    the SHA-256 of the same string, and return the digest error when the
    two differ. *)
Theorem digest_is_of_the_key_string (L : Library) :
  (forall data signingPublicKey signingPrivateKey c,
     WriteAuthenticatedDataPackage L data signingPublicKey signingPrivateKey
     = Ok c ->
     exists signature packageJSON,
       json_Marshal L
         {| Data := data;
            SigningPublicKeyDigest := sha256_Sum256 L signingPublicKey;
            Signature := signature |} = Ok packageJSON
       /\ c = Compress L packageJSON)
  /\ (forall c signingPublicKey packageJSON package der rsaPublicKey,
        Decompress L c = Ok packageJSON ->
        json_Unmarshal L packageJSON = Ok (Some package) ->
        base64_DecodeString L signingPublicKey = Ok der ->
        x509_ParsePKIXPublicKey L der = Ok (Some rsaPublicKey) ->
        ReadAuthenticatedDataPackage L c signingPublicKey
        = if bytes_eqb (SigningPublicKeyDigest package)
               (sha256_Sum256 L signingPublicKey)
          then
            match rsa_VerifyPKCS1v15 L rsaPublicKey
                    (sha256_Sum256 L (Data package)) (Signature package) with
            | Some err => fails (ContextError err)
            | None => returns (Data package)
            end
          else
            fails (ContextError
                     (errors_New "unexpected signing public key digest")))
  /\ (forall name signingPublicKey file decompressor v d sg der rsaPublicKey,
        os_Open L name = Ok file ->
        Seek file 0 = None ->
        zlib_NewReader L (contents file 0) = Ok decompressor ->
        Stream (jsonHandler L 0) decompressor fresh_variables
        = Some (None, v) ->
        jsonSigningPublicKey v = Some d ->
        jsonSignature v = Some sg ->
        base64_DecodeString L signingPublicKey = Ok der ->
        x509_ParsePKIXPublicKey L der = Ok (Some rsaPublicKey) ->
        d <> sha256_Sum256 L signingPublicKey ->
        StreamingReadAuthenticatedDataPackage L name signingPublicKey
        = Some (Err (ContextError
                       (errors_New "unexpected signing public key digest")))).
Proof.
  repeat split.
  - intros data pub priv c. unfold WriteAuthenticatedDataPackage, sha256sum.
    destruct (base64_DecodeString L priv) as [der|]; [|discriminate].
    destruct (x509_ParsePKCS1PrivateKey L der) as [sk|]; [|discriminate].
    destruct (rsa_SignPKCS1v15 L sk (sha256_Sum256 L data)) as [sg|];
      [|discriminate].
    destruct (json_Marshal L _) as [j|] eqn:Ej; [|discriminate].
    intros H; inversion H. eauto.
  - intros c key j package der pk Hd Hu Hk Hp.
    unfold ReadAuthenticatedDataPackage, sha256sum.
    rewrite Hd, Hu, Hk, Hp.
    now destruct (bytes_eqb (SigningPublicKeyDigest package)
                    (sha256_Sum256 L key)).
  - intros name key file r v d sg der pk Ho Hs Hz HS Hd Hsg Hk Hp Hne.
    unfold StreamingReadAuthenticatedDataPackage. rewrite Ho. simpl passes.
    unfold pass_body. rewrite Hs, Hz, HS. simpl.
    unfold verify, sha256sum. rewrite Hd, Hsg, Hk, Hp.
    apply bytes_eqb_neq in Hne. now rewrite Hne.
Qed.

(* ================================================================= *)
(** ** The in-memory reader on a nil package *)

(** C5.  When the JSON decoder leaves the package pointer nil without an
    error (as it does for the text [null]) and the key is an RSA key, the
    in-memory reader dereferences the nil pointer: it panics instead of
    returning an error. *)
Theorem nil_package_panics
    (L : Library) (compressedPackage signingPublicKey packageJSON der : bytes)
    (rsaPublicKey : rsa_PublicKey L) :
  Decompress L compressedPackage = Ok packageJSON ->
  json_Unmarshal L packageJSON = Ok None ->
  base64_DecodeString L signingPublicKey = Ok der ->
  x509_ParsePKIXPublicKey L der = Ok (Some rsaPublicKey) ->
  ReadAuthenticatedDataPackage L compressedPackage signingPublicKey
  = panics nil_dereference.
Proof.
  intros Hd Hu Hk Hp. unfold ReadAuthenticatedDataPackage.
  now rewrite Hd, Hu, Hk, Hp.
Qed.

(** When the in-memory reader returns a payload, every step succeeded:
    decompression, JSON decoding, parsing of the key, the comparison of
    the digests and the verification of the signature. *)
Lemma ReadAuthenticatedDataPackage_returns
    (L : Library) (compressedPackage signingPublicKey data : bytes) :
  ReadAuthenticatedDataPackage L compressedPackage signingPublicKey
  = returns data ->
  exists packageJSON package der rsaPublicKey,
    Decompress L compressedPackage = Ok packageJSON
    /\ json_Unmarshal L packageJSON = Ok (Some package)
    /\ base64_DecodeString L signingPublicKey = Ok der
    /\ x509_ParsePKIXPublicKey L der = Ok (Some rsaPublicKey)
    /\ SigningPublicKeyDigest package = sha256sum L signingPublicKey
    /\ rsa_VerifyPKCS1v15 L rsaPublicKey (sha256sum L (Data package))
         (Signature package) = None
    /\ data = Data package.
Proof.
  unfold ReadAuthenticatedDataPackage.
  destruct (Decompress L compressedPackage) as [j|]; [|discriminate].
  destruct (json_Unmarshal L j) as [[package|]|] eqn:Hu; try discriminate.
  - destruct (base64_DecodeString L signingPublicKey) as [der|];
      [|discriminate].
    destruct (x509_ParsePKIXPublicKey L der) as [[pk|]|] eqn:Hp;
      try discriminate.
    destruct (bytes_eqb (SigningPublicKeyDigest package)
                (sha256sum L signingPublicKey)) eqn:Hd; [|discriminate].
    apply bytes_eqb_eq in Hd. simpl.
    destruct (rsa_VerifyPKCS1v15 L pk (sha256sum L (Data package))
                (Signature package)) eqn:Hv; [discriminate|].
    intros H; inversion H; subst.
    exists j, package, der, pk. repeat split; auto.
  - destruct (base64_DecodeString L signingPublicKey) as [der|];
      [|discriminate].
    destruct (x509_ParsePKIXPublicKey L der) as [[pk|]|]; discriminate.
Qed.

(* ================================================================= *)
(** ** The empty object *)

(** C7 (as the code has it).  The streamer does not accept the empty
    object: on whitespace, ['{'], whitespace, ['}'], whatever follows and
    whatever the handler, [Stream] returns the error for an unexpected
    ['}'] while seeking a key start, and the captured variables are
    untouched: the handler is not invoked.  An object needs at least one
    pair. *)
Theorem empty_object_rejected
    (V : Type) (handler : handler_type V) (ws1 ws2 : bytes)
    (err : option error) (rest : Reader) (v : V) :
  forallb isWhitespace ws1 = true ->
  forallb isWhitespace ws2 = true ->
  Stream handler
    (bytes_Reader (ws1 ++ "{"%char :: ws2) ++ data_byte "}" err :: rest) v
  = Some (Some (unexpected "}" "key start"), v).
Proof.
  intros H1 H2. unfold Stream.
  apply Stream_loop_more_fuel
    with (fuel := length ws1 + S (length ws2 + 1)).
  - unfold bytes_Reader. rewrite map_app, <- app_assoc.
    rewrite (Stream_loop_whitespace handler ws1 H1) by reflexivity.
    simpl map. simpl app.
    change (Stream_loop handler (S (length ws2 + 1))
              stateJSONSeekingObjectStart []
              (data_byte "{" None :: map (fun b => data_byte b None) ws2
               ++ data_byte "}" err :: rest) v)
      with (Stream_loop handler (length ws2 + 1) stateJSONSeekingKeyStart []
              (bytes_Reader ws2 ++ data_byte "}" err :: rest) v).
    rewrite (Stream_loop_whitespace handler ws2 H2) by reflexivity.
    reflexivity.
  - rewrite length_app. unfold bytes_Reader. rewrite length_map, length_app.
    simpl. lia.
Qed.

(* ================================================================= *)
(** ** The in-memory reader and the streaming reader on one package *)

Lemma delivers_bytes_Reader (j : bytes) : delivers (bytes_Reader j) j.
Proof.
  induction j as [|b j IH]; simpl.
  - constructor. constructor.
  - now constructor.
Qed.

Lemma delivers_ReadAll (r : Reader) (j : bytes) :
  delivers r j -> reader_ReadAll r = (j, None).
Proof.
  induction 1 as [r Hr | b r Hr | b r j Hd IH]; simpl.
  - destruct Hr as [|ev r Hev _]; [reflexivity | now subst ev].
  - reflexivity.
  - now rewrite IH.
Qed.

Lemma delivers_Decompress (L : Library) (c j : bytes) (r : Reader) :
  zlib_NewReader L c = Ok r -> delivers r j -> Decompress L c = Ok j.
Proof.
  intros Hz Hd. unfold Decompress. now rewrite Hz, (delivers_ReadAll r j Hd).
Qed.

Lemma absent_key (name : bytes) (ms : list member) :
  ~ In name (map fst ms) ->
  first_value name ms = None /\ last_value name ms = None.
Proof.
  induction ms as [|[k s] ms IH]; simpl; intros Hn; [auto|].
  destruct (bytes_eqb k name) eqn:E.
  - apply bytes_eqb_eq in E. tauto.
  - destruct IH as [H1 H2]; [tauto|]. now rewrite H1, H2.
Qed.

Lemma unique_key (name s : bytes) (ms : list member) :
  NoDup (map fst ms) ->
  first_value name ms = Some s ->
  last_value name ms = Some s.
Proof.
  induction ms as [|[k s'] ms IH]; simpl; intros Hnd Hf; [discriminate|].
  inversion Hnd as [|k' l Hnotin Hnd']; subst.
  destruct (bytes_eqb k name) eqn:E.
  - apply bytes_eqb_eq in E. subst k.
    destruct (absent_key name ms Hnotin) as [_ H2]. now rewrite H2.
  - now rewrite (IH Hnd' Hf).
Qed.

Lemma unique_data (s : bytes) (ms : list member) :
  NoDup (map fst ms) ->
  first_value key_data ms = Some s ->
  data_values ms = [s].
Proof.
  induction ms as [|[k s'] ms IH]; intros Hnd Hf; [discriminate|].
  inversion Hnd as [|k' l Hnotin Hnd']; subst.
  unfold data_values in *. cbn [first_value filter map fst snd] in *.
  destruct (bytes_eqb k key_data) eqn:E.
  - apply bytes_eqb_eq in E. subst k. inversion Hf; subst s'.
    destruct (absent_key key_data ms Hnotin) as [H1 _].
    pose proof (no_data_values ms H1) as H0. unfold data_values in H0.
    cbn [map snd]. now rewrite H0.
  - now apply IH.
Qed.

(** C3 (as the code has it).  Let the decompressed text of a package be
    an object of the limited JSON with exactly the three members, each
    once, in any order and with any whitespace, and let the JSON decoder
    read the three values as they are written there.  When the in-memory
    reader returns [data] on the package, the streaming reader on a file
    that holds the same bytes in both passes returns a reader, and
    reading it to its end yields exactly [data]. *)
Theorem streaming_yields_what_read_returns
    (L : Library) (name signingPublicKey c data : bytes) (file : File)
    (r : Reader) (doc : layout) (trailing : bytes) (ms : list member)
    (vdata vdigest vsignature : bytes) :
  os_Open L name = Ok file ->
  (forall pass, pass < 2 -> Seek file pass = None /\ contents file pass = c) ->
  zlib_NewReader L c = Ok r ->
  delivers r (render doc trailing) ->
  layout_ok doc trailing = true ->
  tokens doc = object_tokens ms ->
  forallb (member_ok L) ms = true ->
  NoDup (map fst ms) ->
  first_value key_data ms = Some vdata ->
  first_value key_digest ms = Some vdigest ->
  first_value key_signature ms = Some vsignature ->
  (forall package,
     json_Unmarshal L (render doc trailing) = Ok (Some package) ->
     Data package = vdata
     /\ base64_DecodeString L vdigest = Ok (SigningPublicKeyDigest package)
     /\ base64_DecodeString L vsignature = Ok (Signature package)) ->
  ReadAuthenticatedDataPackage L c signingPublicKey = returns data ->
  observe (StreamingReadAuthenticatedDataPackage L name signingPublicKey)
  = Some (Ok (Some (data, None))).
Proof.
  intros Ho Hfile Hz Hd Hlay Htok Hok Hnd Hvd Hvg Hvs Hjson Hread.
  destruct (ReadAuthenticatedDataPackage_returns L c signingPublicKey data Hread)
    as (j & package & der & pk & Hdec & Hun & Hkey & Hparse & Hdig & Hver & ->).
  rewrite (delivers_Decompress L c (render doc trailing) r Hz Hd) in Hdec.
  inversion Hdec; subst j.
  destruct (Hjson package Hun) as (Hdata & Hbd & Hbs).
  assert (ms <> []) as Hne by (intros ->; discriminate Hvd).
  assert (file_holds_object L file ms) as Hholds.
  { intros pass Hp. destruct (Hfile pass Hp) as [Hs Hc].
    split; [exact Hs|]. exists doc, trailing. split; [|exact Htok].
    split; [exact Hlay|]. exists r. rewrite Hc. auto. }
  assert (verify L signingPublicKey (collected L ms) = None) as Hv.
  { unfold verify, collected; simpl.
    rewrite (unique_key key_digest vdigest ms Hnd Hvg).
    rewrite (unique_key key_signature vsignature ms Hnd Hvs).
    rewrite (unique_data vdata ms Hnd Hvd). simpl.
    rewrite Hbd, Hbs, Hkey, Hparse, Hdig, bytes_eqb_refl, app_nil_r. simpl.
    rewrite <- Hdata. unfold sha256sum in Hver. now rewrite Hver. }
  destruct (StreamingRead_object L name signingPublicKey file ms
              Ho Hholds Hne Hok) as (x & E & Hx).
  rewrite Hv, Hvd in Hx. destruct Hx as (p & -> & Hp).
  rewrite E. simpl. rewrite (payload_agrees_content p (vdata, None) Hp).
  now rewrite Hdata.
Qed.

(* ================================================================= *)
(** ** Writing and reading back *)

(** C2 (as the code and the libraries have it).  For a payload that is
    valid UTF-8 and a key pair made by the key generator, the package the
    writer makes is read back by the reader as exactly the payload,
    given that the library calls invert each other on the values at
    hand: base64 and the key encodings on the two keys, signing and
    verification on the digest of the payload, the JSON decoder on the
    encoded package (JSON strings are valid UTF-8, so this asks for a
    payload that is), decompression on the compressed text. *)
Theorem write_then_read_returns_payload
    (L : Library) (random : nat) (data : bytes) (rsaKey : rsa_PrivateKey L)
    (publicKeyBytes signature packageJSON : bytes) :
  let privateKeyBytes := x509_MarshalPKCS1PrivateKey L rsaKey in
  let signingPublicKey := base64_EncodeToString L publicKeyBytes in
  let signingPrivateKey := base64_EncodeToString L privateKeyBytes in
  let package :=
    {| Data := data;
       SigningPublicKeyDigest := sha256sum L signingPublicKey;
       Signature := signature |} in
  utf8_Valid data = true ->
  rsa_GenerateKey L random = Ok rsaKey ->
  x509_MarshalPKIXPublicKey L (rsa_Public L rsaKey) = Ok publicKeyBytes ->
  base64_DecodeString L signingPublicKey = Ok publicKeyBytes ->
  base64_DecodeString L signingPrivateKey = Ok privateKeyBytes ->
  x509_ParsePKIXPublicKey L publicKeyBytes = Ok (Some (rsa_Public L rsaKey)) ->
  x509_ParsePKCS1PrivateKey L privateKeyBytes = Ok rsaKey ->
  rsa_SignPKCS1v15 L rsaKey (sha256sum L data) = Ok signature ->
  rsa_VerifyPKCS1v15 L (rsa_Public L rsaKey) (sha256sum L data) signature
  = None ->
  json_Marshal L package = Ok packageJSON ->
  (utf8_Valid data = true ->
   json_Unmarshal L packageJSON = Ok (Some package)) ->
  Decompress L (Compress L packageJSON) = Ok packageJSON ->
  GenerateAuthenticatedDataPackageKeys L random
  = Ok (signingPublicKey, signingPrivateKey)
  /\ WriteAuthenticatedDataPackage L data signingPublicKey signingPrivateKey
     = Ok (Compress L packageJSON)
  /\ ReadAuthenticatedDataPackage L (Compress L packageJSON) signingPublicKey
     = returns data.
Proof.
  intros privateKeyBytes signingPublicKey signingPrivateKey package
    Hutf Hgen Hpkix Hdpub Hdpriv Hppub Hppriv Hsign Hver Hm Hu Hz.
  repeat split.
  - unfold GenerateAuthenticatedDataPackageKeys. now rewrite Hgen, Hpkix.
  - unfold WriteAuthenticatedDataPackage.
    rewrite Hdpriv, Hppriv, Hsign. fold signingPublicKey.
    fold package. now rewrite Hm.
  - unfold ReadAuthenticatedDataPackage.
    rewrite Hz, (Hu Hutf), Hdpub, Hppub. simpl.
    now rewrite bytes_eqb_refl, Hver.
Qed.

(* ================================================================= *)
(** ** The theorems on concrete packages *)

Lemma standin_file_delivers (d : disk) (doc : layout) (trailing : bytes)
    (pass : nat) :
  layout_ok doc trailing = true ->
  file_delivers (standin d)
    {| Seek := fun _ => None;
       contents := fun _ => zlib_header ++ render doc trailing |}
    pass doc trailing.
Proof.
  intros Hok. split; [exact Hok|].
  exists (bytes_Reader (render doc trailing)).
  split; [reflexivity | apply delivers_bytes_Reader].
Qed.

Lemma standin_file_holds_object (d : disk) (ws : bytes) (ms : list member) :
  layout_ok (spaced ws (object_tokens ms)) ws = true ->
  file_holds_object (standin d)
    {| Seek := fun _ => None; contents := fun _ => object_file ws ms |} ms.
Proof.
  intros Hok pass _. split; [reflexivity|].
  exists (spaced ws (object_tokens ms)), ws. split.
  - now apply standin_file_delivers.
  - unfold tokens, spaced. rewrite map_map. cbn [snd]. apply map_id.
Qed.

(** The value [abc] followed by its closing quote and a comma. *)
Lemma Read_value_example :
  Read 4 {| eof := false;
            reader := bytes_Reader (B "abc")
                      ++ data_byte byte_quote None :: bytes_Reader (B ",") |}
  = ((B "abc", Some io_EOF),
     {| eof := true; reader := bytes_Reader (B ",") |}).
Proof.
  apply (proj1 (proj2 (Read_value_until_quote_or_backslash
                         (B "abc") None (bytes_Reader (B ",")) 4 eq_refl))).
  simpl. lia.
Qed.

(** C6 on the value [abcd] read from a reader that delivers [c] together
    with an error: the read returns [ab] and the error, and leaves the
    reader before [d] and the closing quote; [c] is lost. *)
Lemma Read_drops_byte_witness :
  Read 8 {| eof := false;
            reader := bytes_Reader (B "ab")
                      ++ data_byte "c" (Some (library_error 7))
                      :: bytes_Reader (B "d") ++ [data_byte byte_quote None] |}
  = ((B "ab", Some (library_error 7)),
     {| eof := false;
        reader := bytes_Reader (B "d") ++ [data_byte byte_quote None] |}).
Proof.
  apply (Read_drops_byte_delivered_with_error (B "ab") "c" (library_error 7)
           (bytes_Reader (B "d") ++ [data_byte byte_quote None]) 8);
    [reflexivity | reflexivity | simpl; lia].
Defined.

(** C7 does not hold as stated: on the text of the empty object the
    streamer returns an error. *)
Lemma empty_object_counterexample :
  Stream (jsonHandler (standin []) 0) (bytes_Reader (B "{}")) fresh_variables
  = Some (Some (unexpected "}" "key start"), fresh_variables).
Proof. vm_compute. reflexivity. Qed.

Lemma empty_object_witness :
  Stream (jsonHandler (standin []) 0)
    (bytes_Reader (B " " ++ "{"%char :: newline_tab)
     ++ data_byte "}" (Some io_EOF) :: [])
    fresh_variables
  = Some (Some (unexpected "}" "key start"), fresh_variables).
Proof.
  exact (empty_object_rejected pass_variables (jsonHandler (standin []) 0)
           (B " ") newline_tab (Some io_EOF) [] fresh_variables
           eq_refl eq_refl).
Defined.

(** C5 on the package whose text is [null]. *)
Lemma nil_package_witness :
  ReadAuthenticatedDataPackage (standin []) (zlib_header ++ B "null")
    example_publicKey
  = panics nil_dereference.
Proof.
  apply (nil_package_panics (standin []) (zlib_header ++ B "null")
           example_publicKey (B "null") (B "RSA" ++ [ascii_of_nat 7]) 7);
    vm_compute; reflexivity.
Defined.

(** C2 does not hold as stated for a payload that is not valid UTF-8:
    the writer signs the payload as given, the JSON encoder replaces the
    invalid byte, and the reader's verification of the signature fails. *)
Lemma invalid_utf8_counterexample :
  GenerateAuthenticatedDataPackageKeys (standin []) 7
  = Ok (example_publicKey, example_privateKey)
  /\ WriteAuthenticatedDataPackage (standin []) not_utf8
       example_publicKey example_privateKey
     = Ok (example_package not_utf8)
  /\ ReadAuthenticatedDataPackage (standin []) (example_package not_utf8)
       example_publicKey
     = fails (ContextError rsa_ErrVerification).
Proof. repeat split; vm_compute; reflexivity. Qed.

Lemma write_then_read_witness :
  ReadAuthenticatedDataPackage (standin []) (example_package (B "hello"))
    example_publicKey
  = returns (B "hello").
Proof.
  refine (proj2 (proj2
    (write_then_read_returns_payload (standin []) 7 (B "hello") 7
       (B "RSA" ++ [ascii_of_nat 7])
       (standin_signature 7 (B "hello"))
       (match standin_Marshal
                {| Data := B "hello";
                   SigningPublicKeyDigest := standin_sum example_publicKey;
                   Signature := standin_signature 7 (B "hello") |} with
        | Ok j => j
        | Err _ => []
        end)
       _ _ _ _ _ _ _ _ _ _ _ _)));
    try (intros _); vm_compute; reflexivity.
Defined.

(** C3 does not hold as stated for the package the writer makes for a
    payload of two lines: the JSON encoder escapes the newline, the
    in-memory reader returns the payload, and the streaming reader, on a
    file that holds the same bytes, fails on the backslash. *)
Lemma escaped_payload_counterexample :
  WriteAuthenticatedDataPackage (standin []) two_lines
    example_publicKey example_privateKey
  = Ok (example_package two_lines)
  /\ ReadAuthenticatedDataPackage
       (standin [(B "package", example_package two_lines)])
       (example_package two_lines) example_publicKey
     = returns two_lines
  /\ StreamingReadAuthenticatedDataPackage
       (standin [(B "package", example_package two_lines)])
       (B "package") example_publicKey
     = Some (Err (ContextError (ContextError (ContextError (ContextError
                (errors_New "unsupported escaped character")))))).
Proof. repeat split; vm_compute; reflexivity. Qed.

Lemma hello_keys_NoDup : NoDup (map fst hello_members).
Proof.
  repeat constructor; simpl; intuition discriminate.
Qed.

Lemma streaming_yields_witness :
  observe (StreamingReadAuthenticatedDataPackage
             (standin [(B "package", example_package (B "hello"))])
             (B "package") example_publicKey)
  = Some (Ok (Some (B "hello", None))).
Proof.
  apply (streaming_yields_what_read_returns
           (standin [(B "package", example_package (B "hello"))])
           (B "package") example_publicKey (example_package (B "hello"))
           (B "hello")
           {| Seek := fun _ => None;
              contents := fun _ => example_package (B "hello") |}
           (bytes_Reader (render (spaced [] (object_tokens hello_members)) []))
           (spaced [] (object_tokens hello_members)) [] hello_members
           (B "hello")
           (base64_encode (standin_sum example_publicKey))
           (base64_encode (standin_signature 7 (standin_sum (B "hello"))))).
  - vm_compute. reflexivity.
  - intros pass _. split; reflexivity.
  - vm_compute. reflexivity.
  - apply delivers_bytes_Reader.
  - vm_compute. reflexivity.
  - vm_compute. reflexivity.
  - vm_compute. reflexivity.
  - exact hello_keys_NoDup.
  - vm_compute. reflexivity.
  - vm_compute. reflexivity.
  - vm_compute. reflexivity.
  - intros package H. vm_compute in H. inversion H. vm_compute. auto.
  - vm_compute. reflexivity.
Defined.

(** C8 on the package for ["hello"] written without whitespace and
    written with a newline and a tab around every token. *)
Lemma whitespace_witness :
  exists verdict,
    observe (StreamingReadAuthenticatedDataPackage
               (standin [(B "compact", object_file [] hello_members);
                         (B "spaced", object_file newline_tab hello_members)])
               (B "compact") example_publicKey)
    = Some verdict
    /\ observe (StreamingReadAuthenticatedDataPackage
                  (standin [(B "compact", object_file [] hello_members);
                            (B "spaced",
                             object_file newline_tab hello_members)])
                  (B "spaced") example_publicKey)
       = Some verdict.
Proof.
  apply (whitespace_between_tokens_keeps_verdict
           (standin [(B "compact", object_file [] hello_members);
                     (B "spaced", object_file newline_tab hello_members)])
           (B "compact") (B "spaced") example_publicKey
           {| Seek := fun _ => None;
              contents := fun _ => object_file [] hello_members |}
           {| Seek := fun _ => None;
              contents := fun _ => object_file newline_tab hello_members |}
           (fun _ => spaced [] (object_tokens hello_members))
           (fun _ => spaced newline_tab (object_tokens hello_members))
           (fun _ => []) (fun _ => newline_tab)).
  - vm_compute. reflexivity.
  - vm_compute. reflexivity.
  - reflexivity.
  - intros pass _. apply standin_file_delivers. vm_compute. reflexivity.
  - intros pass _. apply standin_file_delivers. vm_compute. reflexivity.
  - reflexivity.
Defined.

(** C9 on an object with two ["data"] members and two signatures: the
    signature over both data values is the one verified, the reader
    yields the first data value. *)
Lemma duplicate_keys_witness :
  observe (StreamingReadAuthenticatedDataPackage
             (standin [(B "package", object_file newline_tab repeated_members)])
             (B "package") example_publicKey)
  = Some (Ok (Some (B "ab", None))).
Proof.
  destruct (duplicate_keys_first_and_last
              (standin [(B "package",
                         object_file newline_tab repeated_members)])
              (B "package") example_publicKey
              {| Seek := fun _ => None;
                 contents := fun _ => object_file newline_tab repeated_members |}
              repeated_members) as [_ H].
  - vm_compute. reflexivity.
  - apply standin_file_holds_object. vm_compute. reflexivity.
  - discriminate.
  - vm_compute. reflexivity.
  - rewrite H. vm_compute. reflexivity.
Defined.

(** C10 on an object with a digest and a signature over the empty byte
    string, and no ["data"]. *)
Lemma missing_data_witness :
  StreamingReadAuthenticatedDataPackage
    (standin [(B "package", object_file [] members_without_data)])
    (B "package") example_publicKey
  = Some (Err (ContextError (errors_New "missing expected field"))).
Proof.
  apply (missing_data_passes_pass_0
           (standin [(B "package", object_file [] members_without_data)])
           (B "package") example_publicKey
           {| Seek := fun _ => None;
              contents := fun _ => object_file [] members_without_data |}
           members_without_data
           (B "RSA" ++ [ascii_of_nat 7])
           (standin_sum example_publicKey)
           (standin_signature 7 [])
           7).
  - vm_compute. reflexivity.
  - apply standin_file_holds_object. vm_compute. reflexivity.
  - discriminate.
  - vm_compute. reflexivity.
  - vm_compute. reflexivity.
  - vm_compute. reflexivity.
  - vm_compute. reflexivity.
  - vm_compute. reflexivity.
  - vm_compute. reflexivity.
  - reflexivity.
  - vm_compute. reflexivity.
Defined.

From Stdlib Require Import Permutation.

(* ================================================================= *)
(** * Further properties of the package code *)

(* ================================================================= *)
(** ** [limitedJSONValueStreamer.Read]: what one call takes and gives *)

Lemma Read_loop_frame (len : nat) :
  forall (r r' : Reader) (bs : bytes) (e : option error) (eof' : bool),
    Read_loop len r = (bs, e, eof', r') ->
    length bs <= len
    /\ forallb plain bs = true
    /\ exists stop,
         r = bytes_Reader bs ++ stop ++ r'
         /\ length stop <= 1
         /\ (e = None -> stop = [] /\ length bs = len)
         /\ (eof' = true ->
             e = Some io_EOF /\ exists err, stop = [data_byte byte_quote err]).
Proof.
  induction len as [|len IH]; intros r r' bs e eof' H; simpl in H.
  - inversion H; subst. repeat split; [simpl; lia|]. exists []. simpl.
    repeat split; auto; discriminate.
  - destruct r as [|[b err|err] r1]; simpl in H.
    + inversion H; subst. repeat split; [simpl; lia|]. exists []. simpl.
      repeat split; auto; discriminate.
    + destruct (Ascii.eqb b byte_quote) eqn:Eq.
      { inversion H; subst. apply Ascii.eqb_eq in Eq. subst b.
        repeat split; [simpl; lia|]. exists [data_byte byte_quote err].
        simpl. repeat split; eauto; discriminate. }
      destruct (Ascii.eqb b byte_backslash) eqn:Eb.
      { inversion H; subst.
        repeat split; [simpl; lia|]. exists [data_byte b err].
        simpl. repeat split; auto; discriminate. }
      destruct err as [e1|].
      { inversion H; subst.
        repeat split; [simpl; lia|]. exists [data_byte b (Some e1)].
        simpl. repeat split; auto; discriminate. }
      destruct (Read_loop len r1) as [[[bs1 e1] eof1] r2] eqn:E.
      inversion H; subst.
      destruct (IH _ _ _ _ _ E) as (Hle & Hpl & stop & Hr & Hs & Hn & Hq).
      repeat split; [simpl; lia | |].
      { simpl. unfold plain at 1. now rewrite Eq, Eb, Hpl. }
      exists stop. simpl. rewrite Hr at 1.
      split; [reflexivity|]. split; [exact Hs|]. split.
      * intros He. destruct (Hn He) as [H1 H2]. split; [exact H1 | lia].
      * exact Hq.
    + inversion H; subst. repeat split; [simpl; lia|]. exists [no_data err].
      simpl. repeat split; auto; discriminate.
Qed.

(** X1.  One call of [Read] on a value streamer that is not at its end
    returns at most [len(p)] bytes, none of them a quote or a backslash;
    they are the first bytes of the shared reader, in order, each
    delivered without an error; besides them the call takes at most one
    more read result from the shared reader.  Without an error the
    buffer is full and nothing more is taken.  The streamer is at its
    end afterwards only when that one more result was a quote, and then
    the error is [io.EOF]. *)
Theorem Read_takes_what_it_returns_and_one_more
    (len : nat) (value value' : limitedJSONValueStreamer) (bs : bytes)
    (e : option error) :
  eof value = false ->
  Read len value = ((bs, e), value') ->
  length bs <= len
  /\ forallb plain bs = true
  /\ exists stop,
       reader value = bytes_Reader bs ++ stop ++ reader value'
       /\ length stop <= 1
       /\ (e = None -> stop = [] /\ length bs = len)
       /\ (eof value' = true ->
           e = Some io_EOF /\ exists err, stop = [data_byte byte_quote err]).
Proof.
  intros Heof H. unfold Read in H. rewrite Heof in H.
  destruct (Read_loop len (reader value)) as [[[bs1 e1] eof1] r1] eqn:E.
  inversion H; subst. simpl. exact (Read_loop_frame len _ _ _ _ _ E).
Qed.

(** X2.  The escape error does not end the value streamer: [Read] fails
    at a backslash without setting [eof], so a further [Read] goes on
    with the bytes after the backslash, up to the closing quote. *)
Theorem Read_goes_on_after_the_escape_error
    (pre post : bytes) (err err' : option error) (rest : Reader)
    (len len' : nat) :
  forallb plain pre = true ->
  forallb plain post = true ->
  length pre < len ->
  length post < len' ->
  exists value',
    Read len
      {| eof := false;
         reader := bytes_Reader pre ++ data_byte byte_backslash err
                   :: bytes_Reader post ++ data_byte byte_quote err' :: rest |}
    = ((pre, Some unsupported_escape), value')
    /\ Read len' value'
       = ((post, Some io_EOF), {| eof := true; reader := rest |}).
Proof.
  intros Hpre Hpost Hl Hl'.
  exists {| eof := false;
            reader := bytes_Reader post ++ data_byte byte_quote err' :: rest |}.
  split.
  - exact (proj2 (proj2 (proj2
      (Read_value_until_quote_or_backslash pre err
         (bytes_Reader post ++ data_byte byte_quote err' :: rest) len Hpre)))
      Hl).
  - exact (proj1 (proj2
      (Read_value_until_quote_or_backslash post err' rest len' Hpost)) Hl').
Qed.

(* ================================================================= *)
(** ** [limitedJSONStreamer.Stream] with any handler *)

Section StreamAnyHandler.

Context {V : Type}.
Variable handler : handler_type V.

Lemma Stream_loop_blank (r : Reader) (ws : bytes) :
  delivers r ws ->
  forallb isWhitespace ws = true ->
  forall fuel state keyBuffer (v : V),
    seeking state = true ->
    length r < fuel ->
    Stream_loop handler fuel state keyBuffer r v
    = Some (on_readErr io_EOF state, v).
Proof.
  induction 1 as [r Hr | b r Hr | b r j Hd IH];
    intros Hws fuel state keyBuffer v Hs Hf;
    (destruct fuel as [|fuel]; [lia|]).
  - destruct Hr as [|ev r Hev _]; [reflexivity | now subst ev].
  - simpl in Hws. apply andb_prop in Hws. destruct Hws as [Hb _].
    simpl. now rewrite (switch_whitespace handler state keyBuffer b r v Hs Hb).
  - simpl in Hws. apply andb_prop in Hws. destruct Hws as [Hb Hj].
    simpl. rewrite (switch_whitespace handler state keyBuffer b r v Hs Hb).
    apply IH; auto. simpl in Hf. lia.
Qed.

Lemma Stream_loop_key (s : bytes) :
  forallb plain s = true ->
  forall fuel acc r (v : V),
    Stream_loop handler (length s + fuel) stateJSONSeekingKeyEnd acc
      (bytes_Reader s ++ r) v
    = Stream_loop handler fuel stateJSONSeekingKeyEnd (acc ++ s) r v.
Proof.
  induction s as [|b s IH]; intros Hs fuel acc r v; simpl.
  - now rewrite app_nil_r.
  - simpl in Hs. apply andb_prop in Hs. destruct Hs as [Hb Hs].
    destruct (plain_inv b Hb) as [Hq Hbs]. rewrite Hbs, Hq.
    rewrite (IH Hs). now rewrite <- app_assoc.
Qed.

(** The loop over the text of [member_opening]: it ends in the call of
    the handler with the key and the value streamer over what follows. *)
Lemma Stream_loop_opening (ws1 ws2 ws3 ws4 key : bytes) (rest : Reader)
    (v : V) (fuel : nat) :
  forallb isWhitespace ws1 = true ->
  forallb isWhitespace ws2 = true ->
  forallb isWhitespace ws3 = true ->
  forallb isWhitespace ws4 = true ->
  forallb plain key = true ->
  Stream_loop handler (length (member_opening ws1 ws2 ws3 ws4 key) + fuel)
    stateJSONSeekingObjectStart []
    (bytes_Reader (member_opening ws1 ws2 ws3 ws4 key) ++ rest) v
  = match handler key {| eof := false; reader := rest |} v with
    | None => None
    | Some ((_, Some err), _, v') => Some (Some (ContextError err), v')
    | Some ((false, None), _, v') => Some (None, v')
    | Some ((true, None), value', v') =>
        Stream_loop handler fuel stateJSONSeekingNextPair key
          (reader value') v'
    end.
Proof.
  intros H1 H2 H3 H4 Hk. unfold member_opening, bytes_Reader.
  repeat (rewrite ?map_app, ?length_app, <- ?app_assoc, <- ?Nat.add_assoc;
          cbn [map app length Nat.add]).
  fold (bytes_Reader ws1). fold (bytes_Reader ws2). fold (bytes_Reader ws3).
  fold (bytes_Reader ws4). fold (bytes_Reader key).
  rewrite (Stream_loop_whitespace handler ws1 H1) by reflexivity.
  cbn [Stream_loop reader_Read switch Ascii.eqb Bool.eqb].
  rewrite (Stream_loop_whitespace handler ws2 H2) by reflexivity.
  change (Stream_loop handler
            (S (length key + S (length ws3 + S (length ws4 + S fuel))))
            stateJSONSeekingKeyStart []
            (data_byte byte_quote None :: bytes_Reader key
             ++ data_byte byte_quote None :: bytes_Reader ws3
             ++ data_byte ":" None :: bytes_Reader ws4
             ++ data_byte byte_quote None :: rest) v)
    with (Stream_loop handler
            (length key + S (length ws3 + S (length ws4 + S fuel)))
            stateJSONSeekingKeyEnd []
            (bytes_Reader key
             ++ data_byte byte_quote None :: bytes_Reader ws3
             ++ data_byte ":" None :: bytes_Reader ws4
             ++ data_byte byte_quote None :: rest) v).
  rewrite (Stream_loop_key key Hk). cbn [app].
  change (Stream_loop handler (S (length ws3 + S (length ws4 + S fuel)))
            stateJSONSeekingKeyEnd key
            (data_byte byte_quote None :: bytes_Reader ws3
             ++ data_byte ":" None :: bytes_Reader ws4
             ++ data_byte byte_quote None :: rest) v)
    with (Stream_loop handler (length ws3 + S (length ws4 + S fuel))
            stateJSONSeekingColon key
            (bytes_Reader ws3
             ++ data_byte ":" None :: bytes_Reader ws4
             ++ data_byte byte_quote None :: rest) v).
  rewrite (Stream_loop_whitespace handler ws3 H3) by reflexivity.
  change (Stream_loop handler (S (length ws4 + S fuel))
            stateJSONSeekingColon key
            (data_byte ":" None :: bytes_Reader ws4
             ++ data_byte byte_quote None :: rest) v)
    with (Stream_loop handler (length ws4 + S fuel)
            stateJSONSeekingStringValueStart key
            (bytes_Reader ws4 ++ data_byte byte_quote None :: rest) v).
  rewrite (Stream_loop_whitespace handler ws4 H4) by reflexivity.
  cbn [Stream_loop reader_Read]. unfold switch.
  change (Ascii.eqb byte_quote byte_quote) with true. cbv iota.
  destruct (handler key {| eof := false; reader := rest |} v)
    as [[[[c [err|]] value'] v']|]; try reflexivity;
    destruct c; reflexivity.
Qed.

(** X3.  An input that holds nothing but whitespace, or nothing at all,
    is not an object: [Stream] returns the error for an end of file
    before the object end, and the handler is not invoked. *)
Theorem Stream_on_blank_input_reports_unexpected_EOF
    (ws : bytes) (r : Reader) (v : V) :
  forallb isWhitespace ws = true ->
  delivers r ws ->
  Stream handler r v
  = Some (Some (ContextError (errors_New "unexpected EOF before object end")),
          v).
Proof.
  intros Hws Hd. unfold Stream.
  now rewrite (Stream_loop_blank r ws Hd Hws (S (length r))
                 stateJSONSeekingObjectStart [] v eq_refl
                 (Nat.lt_succ_diag_r _)).
Qed.

(** X4.  The first byte that is not whitespace must be the opening
    brace: on any other byte (an array, a string, a number at the top
    level) [Stream] returns the error for an unexpected character while
    seeking the object start, whatever follows and whether or not the
    byte came with a read error; the handler is not invoked. *)
Theorem Stream_text_must_open_with_a_brace
    (ws : bytes) (b : ascii) (err : option error) (rest : Reader) (v : V) :
  forallb isWhitespace ws = true ->
  isWhitespace b = false ->
  b <> "{"%char ->
  Stream handler (bytes_Reader ws ++ data_byte b err :: rest) v
  = Some (Some (unexpected b "object start"), v).
Proof.
  intros Hws Hb Hne. unfold Stream.
  apply Stream_loop_more_fuel with (fuel := length ws + 1).
  - rewrite (Stream_loop_whitespace handler ws Hws) by reflexivity.
    simpl. apply Ascii.eqb_neq in Hne. now rewrite Hne, Hb.
  - rewrite length_app. unfold bytes_Reader. rewrite length_map. simpl. lia.
Qed.

(** X5.  A key with a backslash is refused by [Stream] itself: on the
    backslash it returns the error for an unsupported escaped character,
    and the handler is not invoked. *)
Theorem Stream_refuses_an_escape_in_a_key
    (ws1 ws2 pre : bytes) (err : option error) (rest : Reader) (v : V) :
  forallb isWhitespace ws1 = true ->
  forallb isWhitespace ws2 = true ->
  forallb plain pre = true ->
  Stream handler
    (bytes_Reader (ws1 ++ "{"%char :: ws2 ++ byte_quote :: pre)
     ++ data_byte byte_backslash err :: rest) v
  = Some (Some unsupported_escape, v).
Proof.
  intros H1 H2 Hp. unfold Stream.
  apply Stream_loop_more_fuel
    with (fuel := length ws1 + S (length ws2 + S (length pre + 1))).
  - unfold bytes_Reader.
    repeat (rewrite ?map_app, <- ?app_assoc; cbn [map app]).
    fold (bytes_Reader ws1). fold (bytes_Reader ws2). fold (bytes_Reader pre).
    rewrite (Stream_loop_whitespace handler ws1 H1) by reflexivity.
    cbn [Stream_loop reader_Read switch Ascii.eqb Bool.eqb].
    rewrite (Stream_loop_whitespace handler ws2 H2) by reflexivity.
    change (Stream_loop handler (S (length pre + 1))
              stateJSONSeekingKeyStart []
              (data_byte byte_quote None :: bytes_Reader pre
               ++ data_byte byte_backslash err :: rest) v)
      with (Stream_loop handler (length pre + 1) stateJSONSeekingKeyEnd []
              (bytes_Reader pre ++ data_byte byte_backslash err :: rest) v).
    rewrite (Stream_loop_key pre Hp). reflexivity.
  - rewrite length_app. unfold bytes_Reader.
    rewrite length_map. repeat (rewrite length_app; simpl). lia.
Qed.

Hypothesis handler_ok : handler_reads handler.

(** [Stream] up to the first value. *)
Lemma Stream_at_the_first_value
    (ws1 ws2 ws3 ws4 key : bytes) (rest : Reader) (v : V) :
  forallb isWhitespace ws1 = true ->
  forallb isWhitespace ws2 = true ->
  forallb isWhitespace ws3 = true ->
  forallb isWhitespace ws4 = true ->
  forallb plain key = true ->
  Stream handler
    (bytes_Reader (member_opening ws1 ws2 ws3 ws4 key) ++ rest) v
  = match handler key {| eof := false; reader := rest |} v with
    | None => None
    | Some ((_, Some err), _, v') => Some (Some (ContextError err), v')
    | Some ((false, None), _, v') => Some (None, v')
    | Some ((true, None), value', v') =>
        Stream_loop handler (S (length (reader value')))
          stateJSONSeekingNextPair key (reader value') v'
    end.
Proof.
  intros H1 H2 H3 H4 Hk. unfold Stream.
  rewrite length_app. unfold bytes_Reader at 1. rewrite length_map.
  rewrite <- Nat.add_succ_r.
  rewrite (Stream_loop_opening ws1 ws2 ws3 ws4 key rest v (S (length rest))
             H1 H2 H3 H4 Hk).
  destruct (handler_ok key {| eof := false; reader := rest |} v)
    as ([c e] & value' & v' & E & Hle).
  rewrite E. destruct e as [e|]; [reflexivity|].
  destruct c; [|reflexivity].
  destruct (Stream_loop_total handler handler_ok (S (length (reader value')))
              stateJSONSeekingNextPair key (reader value') v'
              (Nat.lt_succ_diag_r _)) as [x Hx].
  rewrite Hx.
  apply (Stream_loop_more_fuel handler _ _ _ _ _ _ Hx).
  simpl in Hle. lia.
Qed.

(** X6.  The handler is called at the quote that opens the first value,
    with the bytes between the quotes of the key and with a value
    streamer, not at its end, over the streamer's own reader as it stands
    after that quote.  An error of the handler is returned wrapped; when
    the handler asks to halt, [Stream] returns nil at once and reads
    nothing more; when it asks to go on, [Stream] goes on seeking the
    next pair from where the handler left the reader. *)
Theorem Stream_calls_the_handler_at_the_first_value
    (ws1 ws2 ws3 ws4 key : bytes) (rest : Reader) (v : V) :
  forallb isWhitespace ws1 = true ->
  forallb isWhitespace ws2 = true ->
  forallb isWhitespace ws3 = true ->
  forallb isWhitespace ws4 = true ->
  forallb plain key = true ->
  Stream handler
    (bytes_Reader (member_opening ws1 ws2 ws3 ws4 key) ++ rest) v
  = match handler key {| eof := false; reader := rest |} v with
    | None => None
    | Some ((_, Some err), _, v') => Some (Some (ContextError err), v')
    | Some ((false, None), _, v') => Some (None, v')
    | Some ((true, None), value', v') =>
        Stream_loop handler (S (length (reader value')))
          stateJSONSeekingNextPair key (reader value') v'
    end.
Proof. exact (Stream_at_the_first_value ws1 ws2 ws3 ws4 key rest v). Qed.

End StreamAnyHandler.

(* ================================================================= *)
(** ** Pass 0 of the streaming reader: the texts it takes *)

Section MembersMore.

Variable L : Library.

Lemma member_tokens_cons (k s : bytes) (ms : list member) :
  ms <> [] ->
  member_tokens ((k, s) :: ms)
  = tok_String k :: tok_Colon :: tok_String s :: tok_Comma :: member_tokens ms.
Proof. destruct ms; [contradiction | reflexivity]. Qed.

(** On a member it takes, the handler asks to go on, except for ["data"]
    in the second pass. *)
Lemma handle_member_continues (pass : nat) (k s : bytes) (sv : pass_summary) :
  member_ok L (k, s) = true ->
  pass = 0 \/ bytes_eqb k key_data = false ->
  fst (handle_member L pass k s sv) = (true, None).
Proof.
  intros Hm Hp.
  destruct (member_ok_inv L k s Hm) as [-> | ([-> | ->] & d & Hd)].
  - destruct Hp as [-> | Hp]; [reflexivity|].
    now rewrite bytes_eqb_refl in Hp.
  - unfold handle_member. cbn -[base64_DecodeString]. now rewrite Hd.
  - unfold handle_member. cbn -[base64_DecodeString]. now rewrite Hd.
Qed.

(** The streamer on members it takes, followed by one more member and
    any tokens [junk]: the handler on that member decides. *)
Lemma Stream_tokens_after_members (pass : nat) (ms : list member) :
  forallb (member_ok L) ms = true ->
  pass = 0 \/ first_value key_data ms = None ->
  forall key sv k s junk,
    Stream_tokens L pass (member_tokens (ms ++ [(k, s)]) ++ junk)
      stateJSONSeekingKeyStart key sv
    = match handle_member L pass k s (snd (handle_members L pass ms sv)) with
      | ((_, Some err), sv') => (Some (ContextError err), sv')
      | ((false, None), sv') => (None, sv')
      | ((true, None), sv') =>
          Stream_tokens L pass junk stateJSONSeekingNextPair k sv'
      end.
Proof.
  induction ms as [|[k0 s0] ms IH]; intros Hok Hp key sv k s junk.
  - cbn [app member_tokens Stream_tokens handle_members snd].
    destruct (handle_member L pass k s sv) as [[[|] [e|]] sv']; reflexivity.
  - simpl in Hok. apply andb_true_iff in Hok as [Hm Hok].
    assert (pass = 0 \/ bytes_eqb k0 key_data = false) as Hp0.
    { destruct Hp as [Hp | Hp]; [now left | right].
      cbn [first_value] in Hp. now destruct (bytes_eqb k0 key_data). }
    assert (pass = 0 \/ first_value key_data ms = None) as Hp1.
    { destruct Hp as [Hp | Hp]; [now left | right].
      cbn [first_value] in Hp.
      now destruct (bytes_eqb k0 key_data); [discriminate|]. }
    change (((k0, s0) :: ms) ++ [(k, s)]) with ((k0, s0) :: (ms ++ [(k, s)])).
    rewrite member_tokens_cons by (now destruct ms).
    cbn [app Stream_tokens handle_members].
    pose proof (handle_member_continues pass k0 s0 sv Hm Hp0) as Hc.
    destruct (handle_member L pass k0 s0 sv) as [[c e] sv0].
    simpl in Hc. inversion Hc; subst c e.
    exact (IH Hok Hp1 k0 sv0 k s junk).
Qed.

Lemma handle_member_pass0_inv (k s : bytes) (sv sv' : pass_summary) (c : bool) :
  handle_member L 0 k s sv = ((c, None), sv') ->
  c = true
  /\ (bytes_eqb k key_data
      || ((bytes_eqb k key_digest || bytes_eqb k key_signature)
          && match base64_DecodeString L s with
             | Ok _ => true
             | Err _ => false
             end)) = true.
Proof.
  unfold handle_member, key_data, key_digest, key_signature.
  destruct (bytes_eqb k (B "data")).
  { cbn [Nat.eqb]. intros H; inversion H. auto. }
  destruct (bytes_eqb k (B "signingPublicKeyDigest")).
  { destruct (base64_DecodeString L s); intros H; inversion H. auto. }
  destruct (bytes_eqb k (B "signature")).
  { destruct (base64_DecodeString L s); intros H; inversion H. auto. }
  discriminate.
Qed.

Lemma handle_escaped_pass0_fails (k pre : bytes) (sv : pass_summary) :
  snd (fst (handle_escaped L 0 k pre sv)) <> None.
Proof.
  unfold handle_escaped.
  destruct (bytes_eqb k (B "data")); [cbn; discriminate|].
  destruct (bytes_eqb k (B "signingPublicKeyDigest")); [cbn; discriminate|].
  destruct (bytes_eqb k (B "signature")); cbn; discriminate.
Qed.

Ltac stream_tokens_step H :=
  cbn [Stream_tokens on_readErr is_EOF is_ObjectEnd negb] in H;
  try discriminate H.

(** When the first pass takes the tokens after the opening brace, they
    are the tokens of members it takes, and the closing brace. *)
Lemma Stream_tokens_pass0_inv (n : nat) :
  forall toks,
    length toks <= n ->
    forallb token_ok toks = true ->
    forall key sv sv',
      Stream_tokens L 0 toks stateJSONSeekingKeyStart key sv = (None, sv') ->
      exists ms,
        ms <> [] /\ forallb (member_ok L) ms = true
        /\ toks = member_tokens ms ++ [tok_RBrace].
Proof.
  induction n as [|n IH]; intros toks Hlen Hok key sv sv' H.
  - destruct toks; [stream_tokens_step H | simpl in Hlen; lia].
  - destruct toks as [|t1 toks]; [stream_tokens_step H|].
    destruct t1 as [| | | |k| |]; stream_tokens_step H.
    destruct toks as [|t2 toks]; [stream_tokens_step H|].
    destruct t2; stream_tokens_step H.
    destruct toks as [|t3 toks]; [stream_tokens_step H|].
    destruct t3 as [| | | |s|pre post|]; stream_tokens_step H.
    + destruct (handle_member L 0 k s sv) as [[c [e|]] sv1] eqn:Hm;
        [destruct c; discriminate H|].
      destruct (handle_member_pass0_inv k s sv sv1 c Hm) as [-> Hkey].
      cbn [forallb token_ok] in Hok.
      apply andb_true_iff in Hok as [Hk Hok].
      apply andb_true_iff in Hok as [_ Hok].
      apply andb_true_iff in Hok as [Hs Hok].
      assert (member_ok L (k, s) = true) as Hmem.
      { unfold member_ok. cbn [fst snd]. now rewrite Hk, Hs, Hkey. }
      destruct toks as [|t4 toks]; [stream_tokens_step H|].
      destruct t4; stream_tokens_step H.
      * destruct toks as [|t5 toks]; [|stream_tokens_step H].
        exists [(k, s)]. split; [discriminate|]. split; [|reflexivity].
        cbn [forallb]. now rewrite Hmem.
      * cbn [forallb token_ok] in Hok. simpl in Hlen.
        destruct (IH toks ltac:(lia) Hok k sv1 sv' H)
          as (ms & Hne & Hms & ->).
        exists ((k, s) :: ms). split; [discriminate|]. split.
        -- cbn [forallb]. now rewrite Hmem, Hms.
        -- now rewrite member_tokens_cons.
    + pose proof (handle_escaped_pass0_fails k pre sv) as Hf.
      destruct (handle_escaped L 0 k pre sv) as [[c [e|]] sv1];
        [destruct c; discriminate H | now simpl in Hf].
Qed.

Lemma layout_ok_tokens (doc : layout) (trailing : bytes) :
  layout_ok doc trailing = true -> forallb token_ok (tokens doc) = true.
Proof.
  unfold layout_ok, tokens. intros H. apply andb_true_iff in H as [H _].
  rewrite forallb_forall in *. intros t Ht.
  apply in_map_iff in Ht as ([ws t'] & <- & Hin).
  specialize (H _ Hin). simpl in H. now apply andb_true_iff in H as [_ H].
Qed.

(** X7.  The first pass takes exactly the objects: on a text made of
    tokens and whitespace, [Stream] with the handler of pass 0 returns
    nil if and only if the tokens are those of one object with at least
    one member, every member having a key among ["data"],
    ["signingPublicKeyDigest"] and ["signature"] and a string value
    without escape that, for the latter two keys, decodes as base64;
    nothing but whitespace follows the closing brace. *)
Theorem pass_0_takes_exactly_the_objects
    (doc : layout) (trailing : bytes) (r : Reader) :
  layout_ok doc trailing = true ->
  delivers r (render doc trailing) ->
  (exists v, Stream (jsonHandler L 0) r fresh_variables = Some (None, v))
  <-> (exists ms,
         ms <> [] /\ forallb (member_ok L) ms = true
         /\ tokens doc = object_tokens ms).
Proof.
  intros Hlay Hd.
  destruct (Stream_tokens_document L 0 doc trailing r Hlay Hd)
    as (v & E & _).
  split.
  - intros (v0 & E0). rewrite E in E0. inversion E0 as [[H0 Hv]].
    pose proof (layout_ok_tokens doc trailing Hlay) as Htok.
    destruct (tokens doc) as [|t toks]; [discriminate H0|].
    destruct t; try discriminate H0.
    cbn [Stream_tokens] in H0. cbn [forallb token_ok andb] in Htok.
    destruct (Stream_tokens L 0 toks stateJSONSeekingKeyStart []
                fresh_summary) as [e sv'] eqn:Ht.
    simpl in H0. subst e.
    destruct (Stream_tokens_pass0_inv (length toks) toks (le_n _) Htok
                [] fresh_summary sv' Ht) as (ms & Hne & Hms & ->).
    exists ms. auto.
  - intros (ms & Hne & Hms & Htok).
    rewrite Htok, (Stream_tokens_object L 0 ms fresh_summary Hne) in E.
    rewrite (handle_members_pass0 L ms Hms) in E. eauto.
Qed.

End MembersMore.

(* ================================================================= *)
(** ** The streaming reader: what it refuses in pass 0 *)

(** An error of pass 0 on the tokens of the file is what the streaming
    reader returns; the text of the second pass is not looked at. *)
Lemma StreamingRead_fails_in_pass_0 (L : Library)
    (name signingPublicKey : bytes) (file : File) (doc : layout)
    (trailing : bytes) (e : error) :
  os_Open L name = Ok file ->
  file_delivers L file 0 doc trailing ->
  pass_tokens L signingPublicKey 0 (tokens doc) (Seek file 0) None = Err e ->
  StreamingReadAuthenticatedDataPackage L name signingPublicKey
  = Some (Err e).
Proof.
  intros Ho Hd Hp. unfold StreamingReadAuthenticatedDataPackage.
  rewrite Ho. simpl passes.
  destruct (pass_body_tokens L signingPublicKey file 0 doc trailing
              None None Hd I) as (x & E & A).
  rewrite E. rewrite Hp in A.
  destruct x; simpl in A; [contradiction | now subst].
Qed.

(** X8.  A member with a key other than the three names is refused:
    when the members before it are taken, the streaming reader returns
    the error for an unexpected key, naming the key as written between
    the quotes, whatever follows the member and whatever the signing
    key. *)
Theorem member_of_another_name_is_refused
    (L : Library) (name signingPublicKey : bytes) (file : File)
    (doc : layout) (trailing : bytes) (ms : list member) (k s : bytes)
    (junk : list token) :
  os_Open L name = Ok file ->
  Seek file 0 = None ->
  file_delivers L file 0 doc trailing ->
  tokens doc = tok_LBrace :: member_tokens (ms ++ [(k, s)]) ++ junk ->
  forallb (member_ok L) ms = true ->
  k <> key_data ->
  k <> key_digest ->
  k <> key_signature ->
  StreamingReadAuthenticatedDataPackage L name signingPublicKey
  = Some (Err (ContextError (ContextError (ContextError
                 (fmt_Errorf "unexpected key '%s'" k))))).
Proof.
  intros Ho Hs Hd Htok Hok H1 H2 H3.
  apply (StreamingRead_fails_in_pass_0 L name signingPublicKey file doc
           trailing _ Ho Hd).
  unfold pass_tokens. rewrite Hs, Htok. cbn [Stream_tokens].
  rewrite (Stream_tokens_after_members L 0 ms Hok (or_introl eq_refl)).
  apply bytes_eqb_neq in H1, H2, H3.
  unfold handle_member, key_data, key_digest, key_signature in *.
  now rewrite H1, H2, H3.
Qed.

(** X9.  A digest or a signature that is not base64 is refused: when
    the members before it are taken, the streaming reader returns the
    error of the base64 decoder, whatever follows the member and
    whatever the signing key. *)
Theorem undecodable_digest_or_signature_is_refused
    (L : Library) (name signingPublicKey : bytes) (file : File)
    (doc : layout) (trailing : bytes) (ms : list member) (k s : bytes)
    (junk : list token) (err : error) :
  os_Open L name = Ok file ->
  Seek file 0 = None ->
  file_delivers L file 0 doc trailing ->
  tokens doc = tok_LBrace :: member_tokens (ms ++ [(k, s)]) ++ junk ->
  forallb (member_ok L) ms = true ->
  k = key_digest \/ k = key_signature ->
  base64_DecodeString L s = Err err ->
  StreamingReadAuthenticatedDataPackage L name signingPublicKey
  = Some (Err (ContextError (ContextError (ContextError
                 (ContextError err))))).
Proof.
  intros Ho Hs Hd Htok Hok Hk He.
  apply (StreamingRead_fails_in_pass_0 L name signingPublicKey file doc
           trailing _ Ho Hd).
  unfold pass_tokens. rewrite Hs, Htok. cbn [Stream_tokens].
  rewrite (Stream_tokens_after_members L 0 ms Hok (or_introl eq_refl)).
  destruct Hk as [-> | ->]; unfold handle_member;
    cbn -[base64_DecodeString]; now rewrite He.
Qed.

(** X10.  Nothing but whitespace may follow the object: when a token of
    any kind (a second object, a comma, a string) follows the closing
    brace of an object whose members are taken, the streaming reader
    returns the error for an unexpected character after the object end,
    naming the first byte of that token. *)
Theorem token_after_the_object_is_refused
    (L : Library) (name signingPublicKey : bytes) (file : File)
    (doc : layout) (trailing : bytes) (ms : list member) (t : token)
    (junk : list token) :
  os_Open L name = Ok file ->
  Seek file 0 = None ->
  file_delivers L file 0 doc trailing ->
  tokens doc = object_tokens ms ++ t :: junk ->
  ms <> [] ->
  forallb (member_ok L) ms = true ->
  StreamingReadAuthenticatedDataPackage L name signingPublicKey
  = Some (Err (ContextError (ContextError
                 (fmt_Errorf "unexpected character %#U after object end"
                    [first_byte t])))).
Proof.
  intros Ho Hs Hd Htok Hne Hok.
  apply (StreamingRead_fails_in_pass_0 L name signingPublicKey file doc
           trailing _ Ho Hd).
  unfold pass_tokens. rewrite Hs, Htok.
  destruct (exists_last Hne) as (ms' & [k s] & ->).
  rewrite forallb_app in Hok. apply andb_true_iff in Hok as [Hok' Hm].
  cbn [forallb] in Hm. rewrite andb_true_r in Hm.
  unfold object_tokens. cbn [app Stream_tokens]. rewrite <- app_assoc.
  rewrite (Stream_tokens_after_members L 0 ms' Hok' (or_introl eq_refl)).
  pose proof (handle_member_continues L 0 k s
                (snd (handle_members L 0 ms' fresh_summary)) Hm
                (or_introl eq_refl)) as Hc.
  destruct (handle_member L 0 k s (snd (handle_members L 0 ms' fresh_summary)))
    as [[c e] sv']. simpl in Hc. inversion Hc; subst c e.
  cbn [app Stream_tokens]. now destruct t.
Qed.

(** X11.  An object without a digest member or without a signature
    member is refused with the error for a missing field, before the
    signing key is looked at: the key may be any string. *)
Theorem missing_digest_or_signature_is_reported
    (L : Library) (name signingPublicKey : bytes) (file : File)
    (doc : layout) (trailing : bytes) (ms : list member) :
  os_Open L name = Ok file ->
  Seek file 0 = None ->
  file_delivers L file 0 doc trailing ->
  tokens doc = object_tokens ms ->
  ms <> [] ->
  forallb (member_ok L) ms = true ->
  ~ In key_digest (map fst ms) \/ ~ In key_signature (map fst ms) ->
  StreamingReadAuthenticatedDataPackage L name signingPublicKey
  = Some (Err (ContextError (errors_New "missing expected field"))).
Proof.
  intros Ho Hs Hd Htok Hne Hok Habs.
  apply (StreamingRead_fails_in_pass_0 L name signingPublicKey file doc
           trailing _ Ho Hd).
  rewrite Hs, Htok.
  rewrite (pass_tokens_object L signingPublicKey 0 ms None Hne Hok).
  unfold pass_members, verify, collected.
  cbn [Nat.eqb jsonSigningPublicKey jsonSignature hash].
  destruct Habs as [Ha | Ha].
  - destruct (absent_key key_digest ms Ha) as [_ ->]. reflexivity.
  - destruct (absent_key key_signature ms Ha) as [_ ->].
    now destruct (decoded L (last_value key_digest ms)).
Qed.

(* ================================================================= *)
(** ** The streaming reader: a file that changes between the passes *)

(** X12.  What is verified and what is handed out are read separately.
    When the text of pass 0 is an object that passes the checks, and the
    text the file holds in pass 1 has, after members that are taken and
    are not ["data"], a ["data"] member with the value [s], then the
    reader handed to the caller yields [s], whatever was verified in
    pass 0 and whatever tokens follow the value in pass 1. *)
Theorem payload_is_that_of_the_second_pass_text
    (L : Library) (name signingPublicKey : bytes) (file : File)
    (doc0 doc1 : layout) (trailing0 trailing1 : bytes)
    (ms0 ms1 : list member) (s : bytes) (junk : list token) :
  os_Open L name = Ok file ->
  Seek file 0 = None ->
  Seek file 1 = None ->
  file_delivers L file 0 doc0 trailing0 ->
  tokens doc0 = object_tokens ms0 ->
  ms0 <> [] ->
  forallb (member_ok L) ms0 = true ->
  verify L signingPublicKey (collected L ms0) = None ->
  file_delivers L file 1 doc1 trailing1 ->
  tokens doc1 = tok_LBrace :: member_tokens (ms1 ++ [(key_data, s)]) ++ junk ->
  forallb (member_ok L) ms1 = true ->
  first_value key_data ms1 = None ->
  observe (StreamingReadAuthenticatedDataPackage L name signingPublicKey)
  = Some (Ok (Some (s, None))).
Proof.
  intros Ho Hs0 Hs1 Hd0 Ht0 Hne0 Hok0 Hv Hd1 Ht1 Hok1 Hnd.
  rewrite (StreamingRead_tokens L name signingPublicKey file
             (fun pass => if Nat.eqb pass 0 then doc0 else doc1)
             (fun pass => if Nat.eqb pass 0 then trailing0 else trailing1)
             Ho Hd0 Hd1).
  f_equal. unfold verdict_tokens. cbn [Nat.eqb].
  rewrite Hs0, Ht0.
  rewrite (pass_tokens_object L signingPublicKey 0 ms0 None Hne0 Hok0).
  unfold pass_members. cbn [Nat.eqb]. rewrite Hv.
  unfold pass_tokens. rewrite Hs1, Ht1. cbn [Stream_tokens].
  rewrite (Stream_tokens_after_members L 1 ms1 Hok1 (or_intror Hnd)).
  reflexivity.
Qed.

(* ================================================================= *)
(** ** The streaming reader: the order of the members *)

Lemma first_value_In (name s : bytes) (ms : list member) :
  first_value name ms = Some s -> In (name, s) ms.
Proof.
  induction ms as [|[k s'] ms IH]; simpl; [discriminate|].
  destruct (bytes_eqb k name) eqn:E.
  - apply bytes_eqb_eq in E. intros H; inversion H; subst. now left.
  - intros H. right. now apply IH.
Qed.

Lemma first_value_absent (name : bytes) (ms : list member) :
  first_value name ms = None -> ~ In name (map fst ms).
Proof.
  induction ms as [|[k s'] ms IH]; simpl; [tauto|].
  destruct (bytes_eqb k name) eqn:E; [discriminate|].
  apply bytes_eqb_neq in E. intros H [Hk | Hin]; [contradiction|].
  now apply IH.
Qed.

Lemma In_first_value (name s : bytes) (ms : list member) :
  NoDup (map fst ms) -> In (name, s) ms -> first_value name ms = Some s.
Proof.
  induction ms as [|[k s'] ms IH]; simpl; intros Hnd Hin; [contradiction|].
  inversion Hnd as [|k' l Hnotin Hnd']; subst.
  destruct Hin as [Heq | Hin].
  - inversion Heq; subst. now rewrite bytes_eqb_refl.
  - destruct (bytes_eqb k name) eqn:E; [|now apply IH].
    apply bytes_eqb_eq in E. subst k. exfalso. apply Hnotin.
    apply in_map_iff. now exists (name, s).
Qed.

Lemma first_value_Permutation (name : bytes) (ms ms' : list member) :
  Permutation ms ms' ->
  NoDup (map fst ms) ->
  first_value name ms = first_value name ms'.
Proof.
  intros Hp Hnd.
  assert (NoDup (map fst ms')) as Hnd'.
  { apply (Permutation_NoDup (Permutation_map fst Hp) Hnd). }
  destruct (first_value name ms) as [s|] eqn:E.
  - symmetry. apply In_first_value; [exact Hnd'|].
    apply (Permutation_in _ Hp). now apply first_value_In.
  - symmetry. apply absent_key. intros Hin.
    apply (first_value_absent name ms E).
    apply (Permutation_in _ (Permutation_sym (Permutation_map fst Hp)) Hin).
Qed.

(** With keys that do not repeat, the last member of a name is the first,
    and the ["data"] values are the one value, if any. *)
Lemma last_value_first_value (name : bytes) (ms : list member) :
  NoDup (map fst ms) -> last_value name ms = first_value name ms.
Proof.
  intros Hnd. destruct (first_value name ms) as [s|] eqn:E.
  - now apply unique_key.
  - now destruct (absent_key name ms (first_value_absent name ms E)).
Qed.

Lemma data_values_first_value (ms : list member) :
  NoDup (map fst ms) ->
  data_values ms = match first_value key_data ms with
                   | Some s => [s]
                   | None => []
                   end.
Proof.
  intros Hnd. destruct (first_value key_data ms) as [s|] eqn:E.
  - now apply unique_data.
  - now apply no_data_values.
Qed.

Lemma collected_Permutation (L : Library) (ms ms' : list member) :
  Permutation ms ms' ->
  NoDup (map fst ms) ->
  collected L ms = collected L ms'.
Proof.
  intros Hp Hnd.
  assert (NoDup (map fst ms')) as Hnd'.
  { apply (Permutation_NoDup (Permutation_map fst Hp) Hnd). }
  unfold collected.
  rewrite (data_values_first_value ms Hnd), (data_values_first_value ms' Hnd').
  rewrite !(last_value_first_value _ ms Hnd).
  rewrite !(last_value_first_value _ ms' Hnd').
  now rewrite !(first_value_Permutation _ ms ms' Hp Hnd).
Qed.

(** What the caller observes on a file that holds an object. *)
Lemma observe_object (L : Library) (name signingPublicKey : bytes)
    (file : File) (ms : list member) :
  os_Open L name = Ok file ->
  file_holds_object L file ms ->
  ms <> [] ->
  forallb (member_ok L) ms = true ->
  observe (StreamingReadAuthenticatedDataPackage L name signingPublicKey)
  = Some
      match verify L signingPublicKey (collected L ms) with
      | Some err => Err err
      | None =>
          match first_value key_data ms with
          | Some s => Ok (Some (s, None))
          | None => Err (ContextError (errors_New "missing expected field"))
          end
      end.
Proof.
  intros Ho Hf Hne Hok.
  destruct (StreamingRead_object L name signingPublicKey file ms
              Ho Hf Hne Hok) as (x & E & Hx).
  rewrite E.
  destruct (verify L signingPublicKey (collected L ms)); [now subst|].
  destruct (first_value key_data ms) as [s|]; [|now subst].
  destruct Hx as (p & -> & Hp). simpl.
  now rewrite (payload_agrees_content p (s, None) Hp).
Qed.

(** X13.  With keys that do not repeat, the order of the members does
    not matter: two files that hold objects with the same members in
    different orders get the same verdict from the streaming reader, the
    same error or readers that yield the same bytes. *)
Theorem member_order_does_not_matter
    (L : Library) (name name' signingPublicKey : bytes) (file file' : File)
    (ms ms' : list member) :
  os_Open L name = Ok file ->
  os_Open L name' = Ok file' ->
  file_holds_object L file ms ->
  file_holds_object L file' ms' ->
  Permutation ms ms' ->
  NoDup (map fst ms) ->
  ms <> [] ->
  forallb (member_ok L) ms = true ->
  observe (StreamingReadAuthenticatedDataPackage L name signingPublicKey)
  = observe (StreamingReadAuthenticatedDataPackage L name' signingPublicKey).
Proof.
  intros Ho Ho' Hf Hf' Hp Hnd Hne Hok.
  assert (ms' <> []) as Hne'.
  { intros ->. apply Hne. now apply Permutation_nil, Permutation_sym. }
  assert (forallb (member_ok L) ms' = true) as Hok'.
  { rewrite forallb_forall in *. intros m Hm. apply Hok.
    apply (Permutation_in _ (Permutation_sym Hp) Hm). }
  rewrite (observe_object L name signingPublicKey file ms Ho Hf Hne Hok).
  rewrite (observe_object L name' signingPublicKey file' ms' Ho' Hf' Hne' Hok').
  rewrite (collected_Permutation L ms ms' Hp Hnd).
  now rewrite (first_value_Permutation key_data ms ms' Hp Hnd).
Qed.

(* ================================================================= *)
(** ** The streaming reader: a text that stops short *)

(** When the first pass takes a sequence of tokens, it reports an end of
    file on every sequence that stops before the last of them. *)
Lemma Stream_tokens_cut_short (L : Library) (toks : list token) :
  forall (more : list token) (state : stateJSON) (key : bytes)
         (sv sv' : pass_summary),
    more <> [] ->
    Stream_tokens L 0 (toks ++ more) state key sv = (None, sv') ->
    fst (Stream_tokens L 0 toks state key sv)
    = Some (ContextError (errors_New "unexpected EOF before object end")).
Proof.
  induction toks as [|t toks IH]; intros more state key sv sv' Hne H.
  - destruct more as [|t more]; [contradiction|].
    destruct state; try reflexivity.
    cbn [app Stream_tokens] in H. destruct t; discriminate H.
  - cbn [app] in H.
    destruct state, t; cbn [Stream_tokens] in H |- *;
      try discriminate H; try (now apply (IH more _ _ _ sv' Hne)).
    + destruct (handle_member L 0 key s sv) as [[c [e|]] sv1] eqn:Hm;
        [destruct c; discriminate H|].
      destruct (handle_member_pass0_inv L key s sv sv1 c Hm) as [-> _].
      now apply (IH more _ _ _ sv' Hne).
    + pose proof (handle_escaped_pass0_fails L key pre sv) as Hf.
      destruct (handle_escaped L 0 key pre sv) as [[c [e|]] sv1];
        [destruct c; discriminate H | now simpl in Hf].
Qed.

(** X14.  A text that stops after any token before the closing brace of
    an object whose members are taken (a download cut short between two
    tokens) is refused: the streaming reader returns the error for an
    end of file before the object end. *)
Theorem object_cut_short_is_reported
    (L : Library) (name signingPublicKey : bytes) (file : File)
    (doc : layout) (trailing : bytes) (ms : list member)
    (more : list token) :
  os_Open L name = Ok file ->
  Seek file 0 = None ->
  file_delivers L file 0 doc trailing ->
  tokens doc ++ more = object_tokens ms ->
  more <> [] ->
  ms <> [] ->
  forallb (member_ok L) ms = true ->
  StreamingReadAuthenticatedDataPackage L name signingPublicKey
  = Some (Err (ContextError (ContextError
                 (errors_New "unexpected EOF before object end")))).
Proof.
  intros Ho Hs Hd Htok Hmore Hne Hok.
  apply (StreamingRead_fails_in_pass_0 L name signingPublicKey file doc
           trailing _ Ho Hd).
  pose proof (Stream_tokens_object L 0 ms fresh_summary Hne) as Hwhole.
  rewrite (handle_members_pass0 L ms Hok), <- Htok in Hwhole.
  pose proof (Stream_tokens_cut_short L (tokens doc) more _ _ _ _ Hmore Hwhole)
    as Hcut.
  unfold pass_tokens. rewrite Hs.
  destruct (Stream_tokens L 0 (tokens doc) stateJSONSeekingObjectStart []
              fresh_summary) as [e sv].
  simpl in Hcut. now subst e.
Qed.

(* ================================================================= *)
(** ** A value without its closing quote *)

Lemma at_EOF_tl (r : Reader) : at_EOF r -> at_EOF (tl r).
Proof. intros H. destruct H; [constructor | assumption]. Qed.

Lemma Read_loop_exhausted (pre : bytes) :
  forallb plain pre = true ->
  forall (len : nat) (r : Reader),
    at_EOF r ->
    length pre < len ->
    Read_loop len (bytes_Reader pre ++ r) = (pre, Some io_EOF, false, tl r).
Proof.
  induction pre as [|b pre IH]; intros Hp len r Hr Hlen.
  - destruct len; [simpl in Hlen; lia|].
    destruct Hr as [|ev r Hev _]; [reflexivity | now subst ev].
  - destruct len as [|len]; [simpl in Hlen; lia|].
    simpl in Hp. apply andb_true_iff in Hp as [Hb Hp].
    destruct (plain_inv _ Hb) as [Hq Hs].
    simpl in Hlen. simpl. rewrite Hq, Hs.
    rewrite (IH Hp len r Hr) by lia. reflexivity.
Qed.

Lemma read_loop_unterminated (chunk : nat) (r : Reader) :
  1 <= chunk ->
  at_EOF r ->
  forall (fuel : nat) (s acc : bytes),
    forallb plain s = true ->
    length s < fuel ->
    read_loop fuel chunk {| eof := false; reader := bytes_Reader s ++ r |} acc
    = Some (acc ++ s, None, {| eof := false; reader := tl r |}).
Proof.
  intros Hc Hr. induction fuel as [|fuel IH]; intros s acc Hp Hf; [lia|].
  destruct (le_lt_dec chunk (length s)) as [Hle|Hlt].
  - simpl read_loop. unfold Read. cbn [eof reader].
    rewrite (Read_loop_plain s Hp chunk r Hle).
    rewrite IH.
    + now rewrite <- app_assoc, firstn_skipn.
    + now apply forallb_skipn.
    + rewrite length_skipn. lia.
  - simpl read_loop. unfold Read. cbn [eof reader].
    rewrite (Read_loop_exhausted s Hp chunk r Hr Hlt). reflexivity.
Qed.

Lemma read_to_end_unterminated (chunk : nat) (s : bytes) (r : Reader) :
  1 <= chunk ->
  at_EOF r ->
  forallb plain s = true ->
  read_to_end chunk {| eof := false; reader := bytes_Reader s ++ r |}
  = Some (s, None, {| eof := false; reader := tl r |}).
Proof.
  intros Hc Hr Hp. unfold read_to_end.
  rewrite (read_loop_unterminated chunk r Hc Hr); [reflexivity | exact Hp |].
  simpl reader. rewrite length_app. unfold bytes_Reader.
  rewrite length_map. lia.
Qed.

(** X15.  The value streamer does not tell a value that stops at the
    end of the underlying stream from one that stops at its closing
    quote: read to its end by [ioutil.ReadAll] or by [io.Copy], a value
    after whose last byte the reader is at end of file yields its bytes
    and no error.  (It is the loop of [Stream] that reports the end of
    file afterwards.) *)
Theorem value_without_closing_quote_ends_without_error
    (pre hash : bytes) (r : Reader) :
  forallb plain pre = true ->
  at_EOF r ->
  ioutil_ReadAll {| eof := false; reader := bytes_Reader pre ++ r |}
  = Some (pre, None, {| eof := false; reader := tl r |})
  /\ io_Copy hash {| eof := false; reader := bytes_Reader pre ++ r |}
     = Some (hash ++ pre, None, {| eof := false; reader := tl r |}).
Proof.
  intros Hp Hr. unfold ioutil_ReadAll, io_Copy.
  rewrite (read_to_end_unterminated bytes_MinRead pre r bytes_MinRead_pos
             Hr Hp).
  now rewrite (read_to_end_unterminated io_Copy_buffer pre r
                 io_Copy_buffer_pos Hr Hp).
Qed.

(* ================================================================= *)
(** ** The streaming reader: a payload cut short *)

(** One call of [Read] on a reader that delivers plain bytes and is then
    at end of file: it goes on without error inside the bytes, and
    returns [io.EOF] once it meets the end. *)
Lemma Read_loop_delivers (r : Reader) (pre : bytes) :
  delivers r pre ->
  forallb plain pre = true ->
  forall (len : nat) (bs : bytes) (e : option error) (eof' : bool)
         (r' : Reader),
    Read_loop len r = (bs, e, eof', r') ->
    eof' = false
    /\ (e = None -> exists pre', delivers r' pre' /\ forallb plain pre' = true)
    /\ (e <> None -> e = Some io_EOF /\ at_EOF r').
Proof.
  induction 1 as [r Hr | b r Hr | b r j Hd IH];
    intros Hp len bs e eof' r' H.
  - destruct len as [|len]; simpl in H.
    + inversion H; subst. repeat split; try congruence.
      intros _. exists []. split; [now constructor | reflexivity].
    + destruct Hr as [|ev r Hev Hr]; simpl in H.
      * inversion H; subst. repeat split; try congruence.
        constructor.
      * subst ev. inversion H; subst. repeat split; try congruence.
        exact Hr.
  - simpl in Hp. apply andb_true_iff in Hp as [Hb _].
    destruct (plain_inv _ Hb) as [Hq Hs].
    destruct len as [|len]; simpl in H.
    + inversion H; subst. repeat split; try congruence.
      intros _. exists [b]. split; [now constructor | simpl; now rewrite Hb].
    + rewrite Hq, Hs in H. inversion H; subst.
      repeat split; congruence.
  - simpl in Hp. apply andb_true_iff in Hp as [Hb Hj].
    destruct (plain_inv _ Hb) as [Hq Hs].
    destruct len as [|len]; simpl in H.
    + inversion H; subst. repeat split; try congruence.
      intros _. exists (b :: j). split; [now constructor|].
      simpl. now rewrite Hb, Hj.
    + rewrite Hq, Hs in H.
      destruct (Read_loop len r) as [[[bs1 e1] eof1] r1] eqn:E.
      inversion H; subst. exact (IH Hj len bs1 e eof' r' E).
Qed.

Lemma read_loop_delivers (chunk : nat) :
  1 <= chunk ->
  forall (fuel : nat) (r : Reader) (pre acc : bytes),
    delivers r pre ->
    forallb plain pre = true ->
    length r < fuel ->
    exists bs value',
      read_loop fuel chunk {| eof := false; reader := r |} acc
      = Some (bs, None, value')
      /\ at_EOF (reader value').
Proof.
  intros Hc. induction fuel as [|fuel IH]; intros r pre acc Hd Hp Hf; [lia|].
  simpl read_loop. unfold Read. cbn [eof reader].
  destruct (Read_loop chunk r) as [[[bs e] eof'] r'] eqn:E.
  destruct (Read_loop_delivers r pre Hd Hp chunk bs e eof' r' E)
    as (-> & Hnone & Hsome).
  destruct (Read_loop_length chunk r r' bs e false E) as [Hle Hlen].
  destruct e as [e|].
  - destruct (Hsome ltac:(discriminate)) as [He Hr']. inversion He; subst e.
    simpl. eauto.
  - destruct (Hnone eq_refl) as (pre' & Hd' & Hp').
    specialize (Hlen eq_refl).
    apply (IH r' pre' (acc ++ bs) Hd' Hp'). lia.
Qed.

(** X16.  A package cut short inside its payload is refused.  When the
    text of pass 0 stops inside the value of a leading ["data"] member
    (the reader delivers bytes of the value and is then at end of file,
    whether or not the last byte comes together with [io.EOF]), the
    streaming reader returns the error for an end of file before the
    object end. *)
Theorem payload_cut_short_is_reported
    (L : Library) (name signingPublicKey : bytes) (file : File)
    (ws1 ws2 ws3 ws4 pre : bytes) (rest : Reader) :
  os_Open L name = Ok file ->
  Seek file 0 = None ->
  zlib_NewReader L (contents file 0)
  = Ok (bytes_Reader (member_opening ws1 ws2 ws3 ws4 key_data) ++ rest) ->
  delivers rest pre ->
  forallb isWhitespace ws1 = true ->
  forallb isWhitespace ws2 = true ->
  forallb isWhitespace ws3 = true ->
  forallb isWhitespace ws4 = true ->
  forallb plain pre = true ->
  StreamingReadAuthenticatedDataPackage L name signingPublicKey
  = Some (Err (ContextError (ContextError
                 (errors_New "unexpected EOF before object end")))).
Proof.
  intros Ho Hs Hz Hd H1 H2 H3 H4 Hp.
  unfold StreamingReadAuthenticatedDataPackage. rewrite Ho. simpl passes.
  unfold pass_body. rewrite Hs, Hz.
  rewrite (Stream_at_the_first_value (jsonHandler L 0) (jsonHandler_reads L 0)
             ws1 ws2 ws3 ws4 key_data rest fresh_variables H1 H2 H3 H4
             eq_refl).
  unfold jsonHandler. rewrite bytes_eqb_refl. cbn [Nat.eqb].
  unfold io_Copy, read_to_end. cbn [reader].
  destruct (read_loop_delivers io_Copy_buffer io_Copy_buffer_pos
              (S (length rest)) rest pre [] Hd Hp (Nat.lt_succ_diag_r _))
    as (bs & value' & E & Heof).
  rewrite E.
  destruct Heof as [|ev r' Hev _]; [reflexivity | now subst ev].
Qed.

(* ================================================================= *)
(** ** The streaming reader: a read error inside the payload *)

Lemma Read_loop_no_data (pre : bytes) :
  forallb plain pre = true ->
  forall (len : nat) (e : error) (r : Reader),
    length pre < len ->
    Read_loop len (bytes_Reader pre ++ no_data e :: r)
    = (pre, Some e, false, r).
Proof.
  induction pre as [|b pre IH]; intros Hp len e r Hlen.
  - destruct len; [simpl in Hlen; lia | reflexivity].
  - destruct len as [|len]; [simpl in Hlen; lia|].
    simpl in Hp. apply andb_true_iff in Hp as [Hb Hp].
    destruct (plain_inv _ Hb) as [Hq Hs].
    simpl in Hlen. simpl. rewrite Hq, Hs.
    rewrite (IH Hp len e r) by lia. reflexivity.
Qed.

(** A read result that carries the error [e]: no byte, or a byte of the
    value together with the error. *)
Lemma Read_loop_read_error (pre : bytes) (ev : read_event) (e : error) :
  forallb plain pre = true ->
  ev = no_data e \/ (exists b, plain b = true /\ ev = data_byte b (Some e)) ->
  forall (len : nat) (r : Reader),
    length pre < len ->
    Read_loop len (bytes_Reader pre ++ ev :: r) = (pre, Some e, false, r).
Proof.
  intros Hp [-> | (b & Hb & ->)] len r Hlen.
  - now apply Read_loop_no_data.
  - now apply Read_loop_error.
Qed.

Lemma read_loop_read_error (chunk : nat) (ev : read_event) (e : error)
    (rest : Reader) :
  1 <= chunk ->
  ev = no_data e \/ (exists b, plain b = true /\ ev = data_byte b (Some e)) ->
  is_EOF e = false ->
  forall (fuel : nat) (s acc : bytes),
    forallb plain s = true ->
    length s < fuel ->
    read_loop fuel chunk
      {| eof := false; reader := bytes_Reader s ++ ev :: rest |} acc
    = Some (acc ++ s, Some e, {| eof := false; reader := rest |}).
Proof.
  intros Hc Hev He. induction fuel as [|fuel IH]; intros s acc Hp Hf; [lia|].
  destruct (le_lt_dec chunk (length s)) as [Hle|Hlt].
  - simpl read_loop. unfold Read. cbn [eof reader].
    rewrite (Read_loop_plain s Hp chunk (ev :: rest) Hle).
    rewrite IH.
    + now rewrite <- app_assoc, firstn_skipn.
    + now apply forallb_skipn.
    + rewrite length_skipn. lia.
  - simpl read_loop. unfold Read. cbn [eof reader].
    rewrite (Read_loop_read_error s ev e Hp Hev chunk rest Hlt).
    now rewrite He.
Qed.

(** X17.  A read error inside the payload is returned.  When, in pass 0,
    the decompressor fails with an error other than [io.EOF] inside the
    value of a leading ["data"] member (on a read that returns no byte,
    or together with a byte of the value), the streaming reader returns
    that error, wrapped by the handler, by [Stream] and by itself. *)
Theorem read_error_inside_the_payload_is_returned
    (L : Library) (name signingPublicKey : bytes) (file : File)
    (ws1 ws2 ws3 ws4 pre : bytes) (ev : read_event) (e : error)
    (rest : Reader) :
  os_Open L name = Ok file ->
  Seek file 0 = None ->
  zlib_NewReader L (contents file 0)
  = Ok (bytes_Reader (member_opening ws1 ws2 ws3 ws4 key_data)
        ++ bytes_Reader pre ++ ev :: rest) ->
  forallb isWhitespace ws1 = true ->
  forallb isWhitespace ws2 = true ->
  forallb isWhitespace ws3 = true ->
  forallb isWhitespace ws4 = true ->
  forallb plain pre = true ->
  ev = no_data e \/ (exists b, plain b = true /\ ev = data_byte b (Some e)) ->
  e <> io_EOF ->
  StreamingReadAuthenticatedDataPackage L name signingPublicKey
  = Some (Err (ContextError (ContextError (ContextError e)))).
Proof.
  intros Ho Hs Hz H1 H2 H3 H4 Hp Hev He.
  assert (is_EOF e = false) as He' by (destruct e; auto; contradiction).
  unfold StreamingReadAuthenticatedDataPackage. rewrite Ho. simpl passes.
  unfold pass_body. rewrite Hs, Hz.
  rewrite (Stream_at_the_first_value (jsonHandler L 0) (jsonHandler_reads L 0)
             ws1 ws2 ws3 ws4 key_data (bytes_Reader pre ++ ev :: rest)
             fresh_variables H1 H2 H3 H4 eq_refl).
  unfold jsonHandler. rewrite bytes_eqb_refl. cbn [Nat.eqb].
  unfold io_Copy, read_to_end. cbn [reader].
  rewrite (read_loop_read_error io_Copy_buffer ev e rest io_Copy_buffer_pos
             Hev He'); [reflexivity | exact Hp |].
  rewrite length_app. unfold bytes_Reader. rewrite length_map. simpl. lia.
Qed.

(* ================================================================= *)
(** ** The streaming reader: an error at the end of the stream *)

Lemma fails_after_length (r : Reader) (j : bytes) (e : error) :
  fails_after r j e -> length j <= length r.
Proof. induction 1; simpl; lia. Qed.

(** Bytes are all plain, or there is a first quote or backslash. *)
Lemma bytes_first_stop (j : bytes) :
  forallb plain j = true
  \/ exists s c j',
       j = s ++ c :: j' /\ forallb plain s = true
       /\ (c = byte_quote \/ c = byte_backslash).
Proof.
  induction j as [|b j IH]; [now left|].
  destruct (Ascii.eqb b byte_quote) eqn:Eq.
  { apply Ascii.eqb_eq in Eq. right. exists [], b, j. auto. }
  destruct (Ascii.eqb b byte_backslash) eqn:Eb.
  { apply Ascii.eqb_eq in Eb. right. exists [], b, j. auto. }
  assert (plain b = true) as Hb by (unfold plain; now rewrite Eq, Eb).
  destruct IH as [Hp | (s & c & j' & -> & Hs & Hc)].
  - left. simpl. now rewrite Hb, Hp.
  - right. exists (b :: s), c, j'. repeat split; auto.
    simpl. now rewrite Hb, Hs.
Qed.

Lemma fails_after_split (s : bytes) (c : ascii) :
  forall (j' : bytes) (r : Reader) (e : error),
    fails_after r (s ++ c :: j') e ->
    j' <> [] ->
    exists r',
      r = bytes_Reader s ++ data_byte c None :: r' /\ fails_after r' j' e.
Proof.
  induction s as [|b s IH]; intros j' r e H Hne; simpl in H.
  - inversion H; subst; [congruence|].
    eexists. split; [reflexivity | eassumption].
  - inversion H as [| b0 e0 r0 Hj | b0 r0 j0 e0 Hf0]; subst.
    + destruct s; discriminate.
    + destruct (IH j' r0 e Hf0 Hne) as (r' & -> & Hr').
      exists r'. split; [reflexivity | exact Hr'].
Qed.

(** Reading a value to its end from a text that stops: unless the
    reading fails or uses the text up, it leaves a shorter text, and on
    every reader that delivers the whole text and then fails it gives the
    same bytes and leaves a reader that delivers the shorter text and
    then fails. *)
Lemma read_to_end_fails_after (chunk : nat) (j : bytes) (bs : bytes)
    (err : option error) (value' : limitedJSONValueStreamer) :
  1 <= chunk ->
  read_to_end chunk {| eof := false; reader := bytes_Reader j |}
  = Some (bs, err, value') ->
  err <> None
  \/ reader value' = []
  \/ exists j',
       reader value' = bytes_Reader j'
       /\ length j' < length j
       /\ forall r e,
            fails_after r j e ->
            exists r',
              fails_after r' j' e
              /\ read_to_end chunk {| eof := false; reader := r |}
                 = Some (bs, None, {| eof := true; reader := r' |}).
Proof.
  intros Hc H.
  destruct (bytes_first_stop j) as [Hp | (s & c & j' & -> & Hs & [-> | ->])].
  - rewrite <- (app_nil_r (bytes_Reader j)) in H.
    rewrite (read_to_end_unterminated chunk j [] Hc (Forall_nil _) Hp) in H.
    inversion H; subst. right. now left.
  - unfold bytes_Reader in H. rewrite map_app in H. cbn [map] in H.
    fold (bytes_Reader s) in H. fold (bytes_Reader j') in H.
    rewrite (read_to_end_value chunk s None (bytes_Reader j') Hc Hs) in H.
    inversion H; subst. right.
    destruct j' as [|b j']; [now left | right].
    exists (b :: j'). split; [reflexivity|]. split.
    { rewrite length_app. simpl. lia. }
    intros r e Hf.
    destruct (fails_after_split bs byte_quote (b :: j') r e Hf
                ltac:(discriminate)) as (r' & -> & Hr').
    exists r'. split; [exact Hr'|].
    exact (read_to_end_value chunk bs None r' Hc Hs).
  - unfold bytes_Reader in H. rewrite map_app in H. cbn [map] in H.
    fold (bytes_Reader s) in H. fold (bytes_Reader j') in H.
    rewrite (read_to_end_escape chunk s None (bytes_Reader j') Hc Hs) in H.
    inversion H; subst. left. discriminate.
Qed.

(** The handler of pass 0 on a value, likewise: it never halts without
    an error, and when it asks to go on it has used the text up or left
    a shorter text. *)
Lemma jsonHandler_fails_after (L : Library) (key j : bytes)
    (v v' : pass_variables) (c : bool) (value' : limitedJSONValueStreamer) :
  jsonHandler L 0 key {| eof := false; reader := bytes_Reader j |} v
  = Some ((c, None), value', v') ->
  c = true
  /\ (reader value' = []
      \/ exists j',
           reader value' = bytes_Reader j'
           /\ length j' < length j
           /\ forall r e,
                fails_after r j e ->
                exists r',
                  fails_after r' j' e
                  /\ jsonHandler L 0 key {| eof := false; reader := r |} v
                     = Some ((true, None), {| eof := true; reader := r' |},
                             v')).
Proof.
  unfold jsonHandler.
  destruct (bytes_eqb key (B "data")).
  { cbn [Nat.eqb]. unfold io_Copy.
    destruct (read_to_end io_Copy_buffer
                {| eof := false; reader := bytes_Reader j |})
      as [[[bs err] value0]|] eqn:E; [|discriminate].
    destruct (read_to_end_fails_after io_Copy_buffer j bs err value0
                io_Copy_buffer_pos E)
      as [Herr | [Hnil | (j' & Hj' & Hlen & Hr)]].
    - destruct err; [discriminate | contradiction].
    - destruct err; [discriminate|]. intros H; inversion H; subst. auto.
    - destruct err; [discriminate|]. intros H; inversion H; subst.
      split; [reflexivity | right]. exists j'.
      split; [exact Hj'|]. split; [exact Hlen|]. intros r e Hf.
      destruct (Hr r e Hf) as (r' & Hr' & E'). exists r'.
      split; [exact Hr'|]. now rewrite E'. }
  destruct (bytes_eqb key (B "signingPublicKeyDigest")).
  { unfold jsonReadBase64Value, ioutil_ReadAll.
    destruct (read_to_end bytes_MinRead
                {| eof := false; reader := bytes_Reader j |})
      as [[[bs err] value0]|] eqn:E; [|discriminate].
    destruct (read_to_end_fails_after bytes_MinRead j bs err value0
                bytes_MinRead_pos E)
      as [Herr | [Hnil | (j' & Hj' & Hlen & Hr)]].
    - destruct err; [discriminate | contradiction].
    - destruct err; [discriminate|].
      destruct (base64_DecodeString L bs); [|discriminate].
      intros H; inversion H; subst. auto.
    - destruct err; [discriminate|].
      destruct (base64_DecodeString L bs) eqn:Hd; [|discriminate].
      intros H; inversion H; subst.
      split; [reflexivity | right]. exists j'.
      split; [exact Hj'|]. split; [exact Hlen|]. intros r e Hf.
      destruct (Hr r e Hf) as (r' & Hr' & E'). exists r'.
      split; [exact Hr'|]. now rewrite E', Hd. }
  destruct (bytes_eqb key (B "signature")).
  { unfold jsonReadBase64Value, ioutil_ReadAll.
    destruct (read_to_end bytes_MinRead
                {| eof := false; reader := bytes_Reader j |})
      as [[[bs err] value0]|] eqn:E; [|discriminate].
    destruct (read_to_end_fails_after bytes_MinRead j bs err value0
                bytes_MinRead_pos E)
      as [Herr | [Hnil | (j' & Hj' & Hlen & Hr)]].
    - destruct err; [discriminate | contradiction].
    - destruct err; [discriminate|].
      destruct (base64_DecodeString L bs); [|discriminate].
      intros H; inversion H; subst. auto.
    - destruct err; [discriminate|].
      destruct (base64_DecodeString L bs) eqn:Hd; [|discriminate].
      intros H; inversion H; subst.
      split; [reflexivity | right]. exists j'.
      split; [exact Hj'|]. split; [exact Hlen|]. intros r e Hf.
      destruct (Hr r e Hf) as (r' & Hr' & E'). exists r'.
      split; [exact Hr'|]. now rewrite E', Hd. }
  discriminate.
Qed.

(** What the [switch] of pass 0 does with a byte that is followed by the
    text [j]: it returns an error; or it does not call the handler, and
    does the same whatever follows the byte; or the handler has used the
    text up; or the handler has left a shorter text, and does the same
    on every reader that delivers [j] and then fails. *)
Lemma switch_pass_0 (L : Library) (state : stateJSON) (keyBuffer : bytes)
    (b : ascii) (j : bytes) (v : pass_variables) :
  match switch (jsonHandler L 0) state keyBuffer b (bytes_Reader j) v with
  | out_of_fuel => True
  | return_ err _ => err <> None
  | next state' keyBuffer' r'' v1 =>
      (r'' = bytes_Reader j /\ v1 = v
       /\ forall r0,
            switch (jsonHandler L 0) state keyBuffer b r0 v
            = next state' keyBuffer' r0 v)
      \/ (r'' = [] /\ state' = stateJSONSeekingNextPair)
      \/ (exists j',
            r'' = bytes_Reader j' /\ length j' < length j
            /\ forall r0 e,
                 fails_after r0 j e ->
                 exists r',
                   fails_after r' j' e
                   /\ switch (jsonHandler L 0) state keyBuffer b r0 v
                      = next state' keyBuffer' r' v1)
  end.
Proof.
  destruct state; cbn [switch];
    repeat match goal with
           | |- context [if ?c then _ else _] => destruct c
           end;
    try discriminate; try (left; auto; fail).
  destruct (jsonHandler L 0 keyBuffer
              {| eof := false; reader := bytes_Reader j |} v)
    as [[[[c err] value'] v1]|] eqn:Eh; [|exact I].
  destruct err as [err|]; [discriminate|].
  destruct (jsonHandler_fails_after L keyBuffer j v v1 c value' Eh)
    as [-> [Hnil | (j' & Hj' & Hlen & Hr)]]; cbn [negb].
  - right. left. auto.
  - right. right. exists j'. split; [exact Hj'|]. split; [exact Hlen|].
    intros r0 e Hf. destruct (Hr r0 e Hf) as (r' & Hr' & E').
    exists r'. split; [exact Hr'|]. now rewrite E'.
Qed.

(** The loop of [Stream] in pass 0 on a text it takes when the stream
    ends after it, and on a reader that delivers the same text and then
    fails: the failure is what it returns. *)
Lemma Stream_loop_fails_after (L : Library) (e : error) :
  is_EOF e = false ->
  forall (fuel : nat) (state : stateJSON) (keyBuffer j : bytes) (r : Reader)
         (v v' : pass_variables),
    fails_after r j e ->
    Stream_loop (jsonHandler L 0) fuel state keyBuffer (bytes_Reader j) v
    = Some (None, v') ->
    Stream_loop (jsonHandler L 0) fuel state keyBuffer r v
    = Some (Some (ContextError e), v').
Proof.
  intros He.
  assert (forall state, on_readErr e state = Some (ContextError e)) as Hon.
  { intros state. unfold on_readErr. now rewrite He. }
  assert (forall fuel k v v',
            Stream_loop (jsonHandler L 0) fuel stateJSONSeekingNextPair k [] v
            <> Some (None, v')) as Hend.
  { intros [|fuel] k v v'; discriminate. }
  induction fuel as [|fuel IH];
    intros state keyBuffer j r v v' Hf H; [discriminate|].
  inversion Hf as [e0 r0 | b e0 r0 | b r0 j0 e0 Hf0]; subst.
  - cbn [Stream_loop reader_Read bytes_Reader map] in H |- *.
    inversion H; subst. now rewrite Hon.
  - cbn [Stream_loop reader_Read bytes_Reader map] in H |- *.
    pose proof (switch_pass_0 L state keyBuffer b [] v) as Hsw.
    cbn [bytes_Reader map] in Hsw.
    destruct (switch (jsonHandler L 0) state keyBuffer b [] v)
      as [st' k' r'' v1|err v1|]; [|inversion H; subst; contradiction
                                    |discriminate H].
    destruct Hsw as [(-> & -> & Hsame) | [(-> & ->) | (j' & _ & Hlen & _)]].
    + rewrite (Hsame r0), Hon.
      destruct fuel as [|fuel]; [discriminate H|].
      cbn [Stream_loop reader_Read] in H. now inversion H.
    + now apply Hend in H.
    + simpl in Hlen. lia.
  - cbn [Stream_loop reader_Read bytes_Reader map] in H |- *.
    fold (bytes_Reader j0) in H.
    pose proof (switch_pass_0 L state keyBuffer b j0 v) as Hsw.
    destruct (switch (jsonHandler L 0) state keyBuffer b (bytes_Reader j0) v)
      as [st' k' r'' v1|err v1|]; [|inversion H; subst; contradiction
                                    |discriminate H].
    destruct Hsw as [(-> & -> & Hsame) | [(-> & ->) | (j' & -> & _ & Hr)]].
    + rewrite (Hsame r0). exact (IH _ _ j0 r0 _ _ Hf0 H).
    + now apply Hend in H.
    + destruct (Hr r0 e Hf0) as (r' & Hr' & E'). rewrite E'.
      exact (IH _ _ j' r' _ _ Hr' H).
Qed.

(** X18.  An error of the decompressor at the end of the stream is not
    lost.  Pass 0 reads the text to its end: when the text is an object
    that pass 0 takes, and the decompressor, having delivered it, fails
    instead of reporting the end of file (as it does when the checksum of
    the compressed stream does not match), on the read after the last
    byte or together with that byte, then the streaming reader returns
    that error and no reader. *)
Theorem error_at_the_end_of_the_stream_is_returned
    (L : Library) (name signingPublicKey : bytes) (file : File)
    (doc : layout) (trailing : bytes) (ms : list member) (r : Reader)
    (e : error) :
  os_Open L name = Ok file ->
  Seek file 0 = None ->
  zlib_NewReader L (contents file 0) = Ok r ->
  fails_after r (render doc trailing) e ->
  e <> io_EOF ->
  layout_ok doc trailing = true ->
  tokens doc = object_tokens ms ->
  ms <> [] ->
  forallb (member_ok L) ms = true ->
  StreamingReadAuthenticatedDataPackage L name signingPublicKey
  = Some (Err (ContextError (ContextError e))).
Proof.
  intros Ho Hs Hz Hf He Hlay Htok Hne Hok.
  assert (is_EOF e = false) as He' by (destruct e; auto; contradiction).
  destruct (Stream_tokens_document L 0 doc trailing
              (bytes_Reader (render doc trailing)) Hlay
              (delivers_bytes_Reader _)) as (v & E & _).
  rewrite Htok, (Stream_tokens_object L 0 ms fresh_summary Hne) in E.
  rewrite (handle_members_pass0 L ms Hok) in E. cbn [fst] in E.
  unfold Stream in E.
  apply Stream_loop_more_fuel with (fuel' := S (length r)) in E.
  2:{ pose proof (fails_after_length r _ e Hf) as Hlen.
      unfold bytes_Reader. rewrite length_map. lia. }
  pose proof (Stream_loop_fails_after L e He' _ _ _ _ r _ _ Hf E) as E'.
  unfold StreamingReadAuthenticatedDataPackage. rewrite Ho. simpl passes.
  unfold pass_body. rewrite Hs, Hz. unfold Stream. now rewrite E'.
Qed.

(* ================================================================= *)
(** ** The streaming reader: a text cut short anywhere *)

Lemma jsonHandler_pass_0_goes_on (L : Library) (key : bytes)
    (value value' : limitedJSONValueStreamer) (v v' : pass_variables)
    (c : bool) :
  jsonHandler L 0 key value v = Some ((c, None), value', v') -> c = true.
Proof.
  unfold jsonHandler.
  destruct (bytes_eqb key (B "data")).
  { cbn [Nat.eqb]. destruct (io_Copy (hash v) value) as [[[h [e|]] v0]|];
      intros H; inversion H; reflexivity. }
  destruct (bytes_eqb key (B "signingPublicKeyDigest")).
  { destruct (jsonReadBase64Value L value) as [[[d|e] v0]|];
      intros H; inversion H; reflexivity. }
  destruct (bytes_eqb key (B "signature")).
  { destruct (jsonReadBase64Value L value) as [[[d|e] v0]|];
      intros H; inversion H; reflexivity. }
  discriminate.
Qed.

Lemma read_to_end_delivers (chunk : nat) (r : Reader) (pre : bytes) :
  1 <= chunk ->
  delivers r pre ->
  forallb plain pre = true ->
  exists bs value',
    read_to_end chunk {| eof := false; reader := r |} = Some (bs, None, value')
    /\ at_EOF (reader value').
Proof.
  intros Hc Hd Hp. unfold read_to_end. cbn [reader].
  exact (read_loop_delivers chunk Hc (S (length r)) r pre [] Hd Hp
           (Nat.lt_succ_diag_r _)).
Qed.

(** The handler of pass 0 on a value that runs into the end of the
    stream: it fails, or asks to go on with the reader at end of file. *)
Lemma jsonHandler_at_the_end (L : Library) (key : bytes) (r : Reader)
    (pre : bytes) (v : pass_variables) :
  delivers r pre ->
  forallb plain pre = true ->
  exists res value' v',
    jsonHandler L 0 key {| eof := false; reader := r |} v
    = Some (res, value', v')
    /\ (snd res <> None \/ (res = (true, None) /\ at_EOF (reader value'))).
Proof.
  intros Hd Hp. unfold jsonHandler.
  destruct (bytes_eqb key (B "data")).
  { cbn [Nat.eqb]. unfold io_Copy.
    destruct (read_to_end_delivers io_Copy_buffer r pre io_Copy_buffer_pos
                Hd Hp) as (bs & value' & -> & Heof).
    do 3 eexists. split; [reflexivity | right; auto]. }
  destruct (bytes_eqb key (B "signingPublicKeyDigest")).
  { unfold jsonReadBase64Value, ioutil_ReadAll.
    destruct (read_to_end_delivers bytes_MinRead r pre bytes_MinRead_pos
                Hd Hp) as (bs & value' & -> & Heof).
    destruct (base64_DecodeString L bs); do 3 eexists;
      (split; [reflexivity|]); [right; auto | left; discriminate]. }
  destruct (bytes_eqb key (B "signature")).
  { unfold jsonReadBase64Value, ioutil_ReadAll.
    destruct (read_to_end_delivers bytes_MinRead r pre bytes_MinRead_pos
                Hd Hp) as (bs & value' & -> & Heof).
    destruct (base64_DecodeString L bs); do 3 eexists;
      (split; [reflexivity|]); [right; auto | left; discriminate]. }
  do 3 eexists. split; [reflexivity | left; discriminate].
Qed.

(** The handler of pass 0 on a value of a text, and on a reader that
    delivers only a first part [p] of the text: either the value runs
    into the end of what is delivered, or the two calls do the same. *)
Lemma jsonHandler_cut (L : Library) (key p q : bytes)
    (v v' : pass_variables) (c : bool) (value' : limitedJSONValueStreamer)
    (r : Reader) :
  jsonHandler L 0 key {| eof := false; reader := bytes_Reader (p ++ q) |} v
  = Some ((c, None), value', v') ->
  delivers r p ->
  (exists res value'' v'',
     jsonHandler L 0 key {| eof := false; reader := r |} v
     = Some (res, value'', v'')
     /\ (snd res <> None \/ (res = (true, None) /\ at_EOF (reader value''))))
  \/ (exists p' r',
        reader value' = bytes_Reader (p' ++ q)
        /\ delivers r' p'
        /\ jsonHandler L 0 key {| eof := false; reader := r |} v
           = Some ((true, None), {| eof := true; reader := r' |}, v')).
Proof.
  intros H Hd.
  destruct (bytes_first_stop p) as [Hp | (s & c0 & p' & -> & Hs & [-> | ->])].
  - left. exact (jsonHandler_at_the_end L key r p v Hd Hp).
  - right. destruct (delivers_value s p' r Hd) as (err & rest & -> & Hrest).
    exists p', rest.
    assert (forall chunk, 1 <= chunk ->
              read_to_end chunk
                {| eof := false;
                   reader := bytes_Reader ((s ++ byte_quote :: p') ++ q) |}
              = Some (s, None,
                      {| eof := true; reader := bytes_Reader (p' ++ q) |}))
      as HL.
    { intros chunk Hc. rewrite <- app_assoc. unfold bytes_Reader.
      rewrite map_app. cbn [app map].
      exact (read_to_end_value chunk s None _ Hc Hs). }
    pose proof (fun chunk Hc => read_to_end_value chunk s err rest Hc Hs)
      as HR.
    unfold jsonHandler, io_Copy, jsonReadBase64Value, ioutil_ReadAll in *.
    rewrite (HL _ io_Copy_buffer_pos), (HL _ bytes_MinRead_pos) in H.
    rewrite (HR _ io_Copy_buffer_pos), (HR _ bytes_MinRead_pos).
    destruct (bytes_eqb key (B "data")).
    { cbn [Nat.eqb] in *. inversion H; subst. auto. }
    destruct (bytes_eqb key (B "signingPublicKeyDigest")).
    { destruct (base64_DecodeString L s); inversion H; subst. auto. }
    destruct (bytes_eqb key (B "signature")).
    { destruct (base64_DecodeString L s); inversion H; subst. auto. }
    discriminate H.
  - exfalso.
    assert (forall chunk, 1 <= chunk ->
              read_to_end chunk
                {| eof := false;
                   reader := bytes_Reader ((s ++ byte_backslash :: p') ++ q) |}
              = Some (s, Some unsupported_escape,
                      {| eof := false; reader := bytes_Reader (p' ++ q) |}))
      as HL.
    { intros chunk Hc. rewrite <- app_assoc. unfold bytes_Reader.
      rewrite map_app. cbn [app map].
      exact (read_to_end_escape chunk s None _ Hc Hs). }
    unfold jsonHandler, io_Copy, jsonReadBase64Value, ioutil_ReadAll in H.
    rewrite (HL _ io_Copy_buffer_pos), (HL _ bytes_MinRead_pos) in H.
    destruct (bytes_eqb key (B "data")); [discriminate H|].
    destruct (bytes_eqb key (B "signingPublicKeyDigest")); [discriminate H|].
    destruct (bytes_eqb key (B "signature")); discriminate H.
Qed.

(** After the closing brace only whitespace is taken. *)
Lemma Stream_loop_after_the_object {V : Type} (handler : handler_type V)
    (q : bytes) :
  forall (fuel : nat) (keyBuffer : bytes) (v v' : V),
    Stream_loop handler fuel stateJSONObjectEnd keyBuffer (bytes_Reader q) v
    = Some (None, v') ->
    forallb isWhitespace q = true.
Proof.
  induction q as [|b q IH]; intros fuel keyBuffer v v' H; [reflexivity|].
  destruct fuel as [|fuel]; [discriminate H|].
  cbn [Stream_loop reader_Read bytes_Reader map switch] in H.
  destruct (isWhitespace b) eqn:Hb; cbn [negb] in H; [|discriminate H].
  simpl. rewrite Hb. exact (IH fuel keyBuffer v v' H).
Qed.

Lemma handler_step_dec (state : stateJSON) (b : ascii) :
  (state = stateJSONSeekingStringValueStart /\ b = byte_quote)
  \/ (state <> stateJSONSeekingStringValueStart \/ b <> byte_quote).
Proof.
  destruct (Ascii.eqb b byte_quote) eqn:Eq.
  - apply Ascii.eqb_eq in Eq.
    destruct state; try (right; left; discriminate). now left.
  - apply Ascii.eqb_neq in Eq. right. now right.
Qed.

(** Outside the quote that opens a value, the [switch] does not call the
    handler: it returns an error or goes on, whatever follows the byte. *)
Lemma switch_without_handler {V : Type} (handler : handler_type V)
    (state : stateJSON) (keyBuffer : bytes) (b : ascii) (v : V) :
  state <> stateJSONSeekingStringValueStart \/ b <> byte_quote ->
  (exists err,
     forall r, switch handler state keyBuffer b r v = return_ (Some err) v)
  \/ (exists state' keyBuffer',
        forall r,
          switch handler state keyBuffer b r v = next state' keyBuffer' r v).
Proof.
  intros Hc. destruct state; cbn [switch];
    repeat match goal with
           | |- context [if ?c then _ else _] => destruct c eqn:?
           end;
    try (left; eexists; reflexivity); try (right; do 2 eexists; reflexivity).
  destruct Hc as [Hc | Hc]; [contradiction|].
  apply Ascii.eqb_eq in Heqb0. contradiction.
Qed.

Lemma Stream_runs_step {V : Type} (handler : handler_type V)
    (state state' : stateJSON) (keyBuffer keyBuffer' : bytes) (b : ascii)
    (r r' : Reader) (v v' : V) (x : option error * V) :
  switch handler state keyBuffer b r v = next state' keyBuffer' r' v' ->
  Stream_runs handler state' keyBuffer' r' v' x ->
  Stream_runs handler state keyBuffer (data_byte b None :: r) v x.
Proof.
  intros Hsw [f Hf]. exists (S f).
  cbn [Stream_loop reader_Read]. now rewrite Hsw.
Qed.

(** The loop of [Stream] in pass 0 on a text that it takes, and on a
    reader that delivers only a first part [p] of the text, more than
    whitespace being cut off: the loop returns an error. *)
Lemma Stream_loop_cut (L : Library) (q : bytes) :
  forallb isWhitespace q = false ->
  forall (fuel : nat) (state : stateJSON) (keyBuffer p : bytes) (r : Reader)
         (v v' : pass_variables),
    delivers r p ->
    Stream_loop (jsonHandler L 0) fuel state keyBuffer (bytes_Reader (p ++ q)) v
    = Some (None, v') ->
    exists err v'',
      Stream_runs (jsonHandler L 0) state keyBuffer r v (Some err, v'').
Proof.
  intros Hq.
  assert (forall fuel state k v v',
            Stream_loop (jsonHandler L 0) fuel state k (bytes_Reader q) v
            = Some (None, v') ->
            exists err, on_readErr io_EOF state = Some err) as Hopen.
  { intros fuel state k v v' H. destruct state; try (eexists; reflexivity).
    rewrite (Stream_loop_after_the_object _ q fuel k v v' H) in Hq.
    discriminate Hq. }
  induction fuel as [|fuel IH];
    intros state keyBuffer p r v v' Hd H; [discriminate|].
  inversion Hd as [r0 Hr0 | b r0 Hr0 | b r0 p0 Hd0]; subst.
  - (* nothing more is delivered *)
    destruct (Hopen _ _ _ _ _ H) as [err Herr].
    exists err, v. rewrite <- Herr.
    apply Stream_runs_end. now constructor.
  - (* the last byte, delivered together with the end of file *)
    cbn [app bytes_Reader map Stream_loop reader_Read] in H.
    fold (bytes_Reader q) in H.
    destruct (handler_step_dec state b) as [[-> ->] | Hother].
    + cbn [switch] in H.
      change (Ascii.eqb byte_quote byte_quote) with true in H. cbv iota in H.
      destruct (jsonHandler L 0 keyBuffer
                  {| eof := false; reader := bytes_Reader q |} v)
        as [[[[c [err|]] value'] v1]|] eqn:Eh; try discriminate H.
      destruct (jsonHandler_cut L keyBuffer [] q v v1 c value' r0 Eh
                  (delivers_EOF r0 Hr0))
        as [(res & value'' & v'' & E & Hres) | (p' & r' & _ & _ & E)].
      * destruct res as [c' [err'|]].
        -- exists (ContextError err'), v''. exists 1.
           cbn [Stream_loop reader_Read switch].
           change (Ascii.eqb byte_quote byte_quote) with true. cbv iota.
           now rewrite E.
        -- destruct Hres as [Hres | [Hres _]]; [now simpl in Hres|].
           inversion Hres; subst c'.
           eexists _, v''. exists 1.
           cbn [Stream_loop reader_Read switch].
           change (Ascii.eqb byte_quote byte_quote) with true. cbv iota.
           rewrite E. reflexivity.
      * eexists _, v1. exists 1.
        cbn [Stream_loop reader_Read switch].
        change (Ascii.eqb byte_quote byte_quote) with true. cbv iota.
        rewrite E. reflexivity.
    + destruct (switch_without_handler (jsonHandler L 0) state keyBuffer b v
                  Hother) as [(err & Hsw) | (st' & k' & Hsw)].
      * rewrite Hsw in H. discriminate H.
      * rewrite Hsw in H. destruct (Hopen _ _ _ _ _ H) as [err Herr].
        exists err, v. exists 1.
        cbn [Stream_loop reader_Read]. now rewrite Hsw, Herr.
  - (* a byte, and more to come *)
    cbn [app bytes_Reader map Stream_loop reader_Read] in H.
    fold (bytes_Reader (p0 ++ q)) in H.
    destruct (handler_step_dec state b) as [[-> ->] | Hother].
    + cbn [switch] in H.
      change (Ascii.eqb byte_quote byte_quote) with true in H. cbv iota in H.
      destruct (jsonHandler L 0 keyBuffer
                  {| eof := false; reader := bytes_Reader (p0 ++ q) |} v)
        as [[[[c [err|]] value'] v1]|] eqn:Eh; try discriminate H.
      pose proof (jsonHandler_pass_0_goes_on L _ _ _ _ _ _ Eh) as ->.
      cbn [negb] in H.
      destruct (jsonHandler_cut L keyBuffer p0 q v v1 true value' r0 Eh Hd0)
        as [(res & value'' & v'' & E & Hres) | (p' & r' & Hp' & Hr' & E)].
      * destruct res as [c' [err'|]].
        -- exists (ContextError err'), v''. exists 1.
           cbn [Stream_loop reader_Read switch].
           change (Ascii.eqb byte_quote byte_quote) with true. cbv iota.
           now rewrite E.
        -- destruct Hres as [Hres | [Hres Heof]]; [now simpl in Hres|].
           inversion Hres; subst c'.
           exists (ContextError
                     (errors_New "unexpected EOF before object end")), v''.
           apply (Stream_runs_step (jsonHandler L 0)
                    stateJSONSeekingStringValueStart stateJSONSeekingNextPair
                    keyBuffer keyBuffer byte_quote r0 (reader value'') v v'').
           { cbn [switch].
             change (Ascii.eqb byte_quote byte_quote) with true. cbv iota.
             now rewrite E. }
           exact (Stream_runs_end (jsonHandler L 0) stateJSONSeekingNextPair
                    keyBuffer (reader value'') v''
                    (delivers_EOF _ Heof)).
      * rewrite Hp' in H.
        destruct (IH _ _ p' r' _ _ Hr' H) as (err & v'' & Hrun).
        exists err, v''.
        apply (Stream_runs_step (jsonHandler L 0)
                 stateJSONSeekingStringValueStart stateJSONSeekingNextPair
                 keyBuffer keyBuffer byte_quote r0 r' v v1); [|exact Hrun].
        cbn [switch].
        change (Ascii.eqb byte_quote byte_quote) with true. cbv iota.
        now rewrite E.
    + destruct (switch_without_handler (jsonHandler L 0) state keyBuffer b v
                  Hother) as [(err & Hsw) | (st' & k' & Hsw)].
      * rewrite Hsw in H. discriminate H.
      * rewrite Hsw in H.
        destruct (IH _ _ p0 r0 _ _ Hd0 H) as (err & v'' & Hrun).
        exists err, v''.
        exact (Stream_runs_step (jsonHandler L 0) state st' keyBuffer k' b
                 r0 r0 v v _ (Hsw r0) Hrun).
Qed.

(** X19.  No text cut short is taken.  When the text of an object that
    pass 0 takes is cut anywhere (between tokens, inside a key, inside a
    value) so that more than whitespace is missing at its end, and the
    decompressor delivers what is left and reports the end of file, the
    streaming reader returns an error and no reader. *)
Theorem text_cut_short_is_refused
    (L : Library) (name signingPublicKey : bytes) (file : File)
    (doc : layout) (trailing : bytes) (ms : list member) (p q : bytes)
    (r : Reader) :
  os_Open L name = Ok file ->
  Seek file 0 = None ->
  zlib_NewReader L (contents file 0) = Ok r ->
  delivers r p ->
  render doc trailing = p ++ q ->
  forallb isWhitespace q = false ->
  layout_ok doc trailing = true ->
  tokens doc = object_tokens ms ->
  ms <> [] ->
  forallb (member_ok L) ms = true ->
  exists err,
    StreamingReadAuthenticatedDataPackage L name signingPublicKey
    = Some (Err err).
Proof.
  intros Ho Hs Hz Hd Hpq Hq Hlay Htok Hne Hok.
  destruct (Stream_tokens_document L 0 doc trailing
              (bytes_Reader (render doc trailing)) Hlay
              (delivers_bytes_Reader _)) as (v & E & _).
  rewrite Htok, (Stream_tokens_object L 0 ms fresh_summary Hne) in E.
  rewrite (handle_members_pass0 L ms Hok) in E. cbn [fst] in E.
  unfold Stream in E. rewrite Hpq in E.
  destruct (Stream_loop_cut L q Hq _ _ _ p r _ _ Hd E) as (err & v'' & Hrun).
  apply (Stream_runs_Stream (jsonHandler L 0) (jsonHandler_reads L 0)) in Hrun.
  exists (ContextError err).
  unfold StreamingReadAuthenticatedDataPackage. rewrite Ho. simpl passes.
  unfold pass_body. now rewrite Hs, Hz, Hrun.
Qed.

(* ================================================================= *)
(** ** The in-memory reader and writer *)

(** X20.  The in-memory reader returns a payload exactly when every
    step succeeds: the package decompresses, the JSON decoder yields a
    package, the key string is base64 of an RSA public key, the stored
    digest equals the SHA-256 of the key string, and the signature
    verifies over the SHA-256 of the data; the payload returned is then
    the data of the package. *)
Theorem ReadAuthenticatedDataPackage_returns_exactly_the_verified
    (L : Library) (compressedPackage signingPublicKey data : bytes) :
  ReadAuthenticatedDataPackage L compressedPackage signingPublicKey
  = returns data
  <-> exists packageJSON package der rsaPublicKey,
        Decompress L compressedPackage = Ok packageJSON
        /\ json_Unmarshal L packageJSON = Ok (Some package)
        /\ base64_DecodeString L signingPublicKey = Ok der
        /\ x509_ParsePKIXPublicKey L der = Ok (Some rsaPublicKey)
        /\ SigningPublicKeyDigest package = sha256sum L signingPublicKey
        /\ rsa_VerifyPKCS1v15 L rsaPublicKey (sha256sum L (Data package))
             (Signature package) = None
        /\ data = Data package.
Proof.
  split.
  - apply ReadAuthenticatedDataPackage_returns.
  - intros (j & package & der & pk & Hd & Hu & Hk & Hp & Hdig & Hv & ->).
    unfold ReadAuthenticatedDataPackage.
    rewrite Hd, Hu, Hk, Hp, Hdig, bytes_eqb_refl. simpl. now rewrite Hv.
Qed.

(** X21.  The nil package is the only way for the in-memory reader to
    panic: it panics exactly when the package decompresses, the JSON
    decoder leaves the package pointer nil without an error, and the key
    string is base64 of an RSA public key.  With a key that does not
    decode, does not parse or is not an RSA key, the reader returns the
    error for the key, whatever the package. *)
Theorem ReadAuthenticatedDataPackage_panics_only_on_the_nil_package
    (L : Library) (compressedPackage signingPublicKey : bytes)
    (msg : string) :
  ReadAuthenticatedDataPackage L compressedPackage signingPublicKey
  = panics msg
  <-> msg = nil_dereference
      /\ exists packageJSON der rsaPublicKey,
           Decompress L compressedPackage = Ok packageJSON
           /\ json_Unmarshal L packageJSON = Ok None
           /\ base64_DecodeString L signingPublicKey = Ok der
           /\ x509_ParsePKIXPublicKey L der = Ok (Some rsaPublicKey).
Proof.
  unfold ReadAuthenticatedDataPackage. split.
  - destruct (Decompress L compressedPackage) as [j|]; [|discriminate].
    destruct (json_Unmarshal L j) as [package|] eqn:Hu; [|discriminate].
    destruct (base64_DecodeString L signingPublicKey) as [der|];
      [|discriminate].
    destruct (x509_ParsePKIXPublicKey L der) as [[pk|]|] eqn:Hp;
      try discriminate.
    destruct package as [package|].
    + destruct (negb _); [discriminate|].
      destruct (rsa_VerifyPKCS1v15 _ _ _ _); discriminate.
    + intros H; inversion H. split; [reflexivity|].
      exists j, der, pk. auto.
  - intros (-> & j & der & pk & Hd & Hu & Hk & Hp).
    now rewrite Hd, Hu, Hk, Hp.
Qed.

(** X22.  A package read with another key string is refused.  When the
    writer has made the package for the key string [signingPublicKey],
    the JSON decoder reads the package back and decompression undoes
    compression, then the in-memory reader called with a key string whose
    SHA-256 differs, itself base64 of an RSA public key, returns the
    error for an unexpected digest; the signature is not looked at. *)
Theorem package_read_with_another_key_is_refused
    (L : Library)
    (data signingPublicKey signingPrivateKey otherPublicKey : bytes)
    (derEncodedPrivateKey signature packageJSON der : bytes)
    (rsaPrivateKey : rsa_PrivateKey L) (rsaPublicKey : rsa_PublicKey L) :
  let package :=
    {| Data := data;
       SigningPublicKeyDigest := sha256sum L signingPublicKey;
       Signature := signature |} in
  base64_DecodeString L signingPrivateKey = Ok derEncodedPrivateKey ->
  x509_ParsePKCS1PrivateKey L derEncodedPrivateKey = Ok rsaPrivateKey ->
  rsa_SignPKCS1v15 L rsaPrivateKey (sha256sum L data) = Ok signature ->
  json_Marshal L package = Ok packageJSON ->
  json_Unmarshal L packageJSON = Ok (Some package) ->
  Decompress L (Compress L packageJSON) = Ok packageJSON ->
  base64_DecodeString L otherPublicKey = Ok der ->
  x509_ParsePKIXPublicKey L der = Ok (Some rsaPublicKey) ->
  sha256sum L signingPublicKey <> sha256sum L otherPublicKey ->
  WriteAuthenticatedDataPackage L data signingPublicKey signingPrivateKey
  = Ok (Compress L packageJSON)
  /\ ReadAuthenticatedDataPackage L (Compress L packageJSON) otherPublicKey
     = fails (ContextError
                (errors_New "unexpected signing public key digest")).
Proof.
  intros package Hdp Hpp Hsign Hm Hu Hz Hdo Hpo Hne. split.
  - unfold WriteAuthenticatedDataPackage.
    rewrite Hdp, Hpp, Hsign. fold package. now rewrite Hm.
  - unfold ReadAuthenticatedDataPackage.
    rewrite Hz, Hu, Hdo, Hpo. cbn [SigningPublicKeyDigest package].
    apply bytes_eqb_neq in Hne. now rewrite Hne.
Qed.

(* ================================================================= *)
(** ** The two readers fail alike *)

(** X23.  On a package in the limited JSON the two readers fail alike.
    Let the decompressed text of a package be an object with exactly the
    three members, each once, in any order and with any whitespace, and
    let the JSON decoder read the three values as they are written there.
    When the in-memory reader returns an error on the package (the key
    does not decode, does not parse or is not an RSA key, the digest
    differs, the signature does not verify), the streaming reader on a
    file that holds the same bytes returns the same error. *)
Theorem streaming_reader_fails_as_the_reader_does
    (L : Library) (name signingPublicKey c : bytes) (file : File)
    (r : Reader) (doc : layout) (trailing : bytes) (ms : list member)
    (vdata vdigest vsignature : bytes) (package : AuthenticatedDataPackage)
    (e : error) :
  os_Open L name = Ok file ->
  (forall pass, pass < 2 -> Seek file pass = None /\ contents file pass = c) ->
  zlib_NewReader L c = Ok r ->
  delivers r (render doc trailing) ->
  layout_ok doc trailing = true ->
  tokens doc = object_tokens ms ->
  forallb (member_ok L) ms = true ->
  NoDup (map fst ms) ->
  first_value key_data ms = Some vdata ->
  first_value key_digest ms = Some vdigest ->
  first_value key_signature ms = Some vsignature ->
  json_Unmarshal L (render doc trailing) = Ok (Some package) ->
  Data package = vdata ->
  base64_DecodeString L vdigest = Ok (SigningPublicKeyDigest package) ->
  base64_DecodeString L vsignature = Ok (Signature package) ->
  ReadAuthenticatedDataPackage L c signingPublicKey = fails e ->
  StreamingReadAuthenticatedDataPackage L name signingPublicKey
  = Some (Err e).
Proof.
  intros Ho Hfile Hz Hd Hlay Htok Hok Hnd Hvd Hvg Hvs Hun Hdata Hbd Hbs Hread.
  assert (ms <> []) as Hne by (intros ->; discriminate Hvd).
  assert (file_holds_object L file ms) as Hholds.
  { intros pass Hp. destruct (Hfile pass Hp) as [Hs Hc].
    split; [exact Hs|]. exists doc, trailing. split; [|exact Htok].
    split; [exact Hlay|]. exists r. rewrite Hc. auto. }
  assert (verify L signingPublicKey (collected L ms) = Some e) as Hv.
  { unfold ReadAuthenticatedDataPackage in Hread.
    rewrite (delivers_Decompress L c (render doc trailing) r Hz Hd), Hun
      in Hread.
    unfold verify, collected.
    cbn [jsonSigningPublicKey jsonSignature hash].
    rewrite (unique_key key_digest vdigest ms Hnd Hvg).
    rewrite (unique_key key_signature vsignature ms Hnd Hvs).
    rewrite (unique_data vdata ms Hnd Hvd).
    cbn [decoded concat]. rewrite Hbd, Hbs, app_nil_r.
    destruct (base64_DecodeString L signingPublicKey) as [der|err];
      [|now inversion Hread].
    destruct (x509_ParsePKIXPublicKey L der) as [[pk|]|err];
      [| now inversion Hread | now inversion Hread].
    destruct (negb (bytes_eqb (SigningPublicKeyDigest package)
                      (sha256sum L signingPublicKey)));
      [now inversion Hread|].
    rewrite <- Hdata. unfold sha256sum in Hread.
    destruct (rsa_VerifyPKCS1v15 L pk (sha256_Sum256 L (Data package))
                (Signature package)); [now inversion Hread | discriminate]. }
  destruct (StreamingRead_object L name signingPublicKey file ms
              Ho Hholds Hne Hok) as (x & E & Hx).
  rewrite Hv in Hx. now subst x.
Qed.

(* ================================================================= *)
(** ** The further properties on concrete inputs *)

(** X1 on the value [ab] read into a buffer of 8 bytes. *)
Lemma Read_takes_witness :
  length (B "ab") <= 8
  /\ forallb plain (B "ab") = true
  /\ exists stop,
       bytes_Reader (B "ab")
       ++ [data_byte byte_quote None; data_byte "," None]
       = bytes_Reader (B "ab") ++ stop ++ [data_byte "," None]
       /\ length stop <= 1
       /\ (Some io_EOF = None -> stop = [] /\ length (B "ab") = 8)
       /\ (true = true ->
           Some io_EOF = Some io_EOF
           /\ exists err, stop = [data_byte byte_quote err]).
Proof.
  exact (Read_takes_what_it_returns_and_one_more 8
           {| eof := false;
              reader := bytes_Reader (B "ab")
                        ++ [data_byte byte_quote None; data_byte "," None] |}
           {| eof := true; reader := [data_byte "," None] |}
           (B "ab") (Some io_EOF) eq_refl eq_refl).
Defined.

(** X2 on the value [a\b]. *)
Lemma Read_goes_on_witness :
  exists value',
    Read 8
      {| eof := false;
         reader := bytes_Reader (B "a") ++ data_byte byte_backslash None
                   :: bytes_Reader (B "b") ++ data_byte byte_quote None :: [] |}
    = ((B "a", Some unsupported_escape), value')
    /\ Read 8 value' = ((B "b", Some io_EOF), {| eof := true; reader := [] |}).
Proof.
  apply (Read_goes_on_after_the_escape_error (B "a") (B "b") None None [] 8 8);
    [reflexivity | reflexivity | simpl; lia | simpl; lia].
Defined.

(** X3 on a text of a newline and a tab. *)
Lemma Stream_on_blank_input_witness :
  Stream (jsonHandler (standin []) 0) (bytes_Reader newline_tab)
    fresh_variables
  = Some (Some (ContextError (errors_New "unexpected EOF before object end")),
          fresh_variables).
Proof.
  exact (Stream_on_blank_input_reports_unexpected_EOF
           (jsonHandler (standin []) 0) newline_tab (bytes_Reader newline_tab)
           fresh_variables eq_refl (delivers_bytes_Reader newline_tab)).
Defined.

(** X4 on an array. *)
Lemma Stream_text_must_open_witness :
  Stream (jsonHandler (standin []) 0)
    (bytes_Reader (B " ") ++ data_byte "[" None :: bytes_Reader (B "1]"))
    fresh_variables
  = Some (Some (unexpected "[" "object start"), fresh_variables).
Proof.
  apply (Stream_text_must_open_with_a_brace (jsonHandler (standin []) 0)
           (B " ") "[" None (bytes_Reader (B "1]")) fresh_variables);
    [reflexivity | reflexivity | discriminate].
Defined.

(** X5 on a key that begins [da\]. *)
Lemma Stream_refuses_escape_in_key_witness :
  Stream (jsonHandler (standin []) 0)
    (bytes_Reader (B "" ++ "{"%char :: B " " ++ byte_quote :: B "da")
     ++ data_byte byte_backslash None :: bytes_Reader (B "u0074a"))
    fresh_variables
  = Some (Some unsupported_escape, fresh_variables).
Proof.
  exact (Stream_refuses_an_escape_in_a_key (jsonHandler (standin []) 0)
           (B "") (B " ") (B "da") None (bytes_Reader (B "u0074a"))
           fresh_variables eq_refl eq_refl eq_refl).
Defined.

(** X6 on the handler of the second pass and a text that begins with a
    ["data"] member: the handler captures the value streamer and halts. *)
Lemma Stream_calls_the_handler_witness :
  Stream (jsonHandler (standin []) 1)
    (bytes_Reader (member_opening [] [] [] newline_tab key_data)
     ++ bytes_Reader (B "abc") ++ [data_byte byte_quote None])
    fresh_variables
  = Some (None,
          {| hash := [];
             jsonData :=
               Some {| eof := false;
                       reader := bytes_Reader (B "abc")
                                 ++ [data_byte byte_quote None] |};
             jsonSigningPublicKey := None;
             jsonSignature := None |}).
Proof.
  exact (Stream_calls_the_handler_at_the_first_value
           (jsonHandler (standin []) 1) (jsonHandler_reads (standin []) 1)
           [] [] [] newline_tab key_data
           (bytes_Reader (B "abc") ++ [data_byte byte_quote None])
           fresh_variables eq_refl eq_refl eq_refl eq_refl eq_refl).
Defined.

(** X7 on the text of the package for ["hello"]. *)
Lemma pass_0_takes_witness :
  (exists v,
     Stream (jsonHandler (standin []) 0)
       (bytes_Reader (render (spaced newline_tab (object_tokens hello_members))
                        newline_tab))
       fresh_variables
     = Some (None, v))
  <-> (exists ms,
         ms <> [] /\ forallb (member_ok (standin [])) ms = true
         /\ tokens (spaced newline_tab (object_tokens hello_members))
            = object_tokens ms).
Proof.
  apply (pass_0_takes_exactly_the_objects (standin [])
           (spaced newline_tab (object_tokens hello_members)) newline_tab).
  - vm_compute. reflexivity.
  - apply delivers_bytes_Reader.
Defined.

(** X8 on an object with the members ["data"] and ["Data"]. *)
Lemma member_of_another_name_witness :
  StreamingReadAuthenticatedDataPackage
    (standin [(B "package", token_file [] foreign_member_tokens)])
    (B "package") example_publicKey
  = Some (Err (ContextError (ContextError (ContextError
                 (fmt_Errorf "unexpected key '%s'" (B "Data")))))).
Proof.
  apply (member_of_another_name_is_refused
           (standin [(B "package", token_file [] foreign_member_tokens)])
           (B "package") example_publicKey
           {| Seek := fun _ => None;
              contents := fun _ => token_file [] foreign_member_tokens |}
           (spaced [] foreign_member_tokens) []
           [(key_data, B "hello")] (B "Data") (B "x") [tok_RBrace]).
  - vm_compute. reflexivity.
  - reflexivity.
  - apply standin_file_delivers. vm_compute. reflexivity.
  - vm_compute. reflexivity.
  - vm_compute. reflexivity.
  - discriminate.
  - discriminate.
  - discriminate.
Defined.

(** X9 on an object whose digest is [!]. *)
Lemma undecodable_digest_witness :
  StreamingReadAuthenticatedDataPackage
    (standin [(B "package", token_file [] bad_digest_tokens)])
    (B "package") example_publicKey
  = Some (Err (ContextError (ContextError (ContextError
                 (ContextError base64_corrupt))))).
Proof.
  apply (undecodable_digest_or_signature_is_refused
           (standin [(B "package", token_file [] bad_digest_tokens)])
           (B "package") example_publicKey
           {| Seek := fun _ => None;
              contents := fun _ => token_file [] bad_digest_tokens |}
           (spaced [] bad_digest_tokens) []
           [(key_data, B "hello")] key_digest (B "!") [tok_RBrace]).
  - vm_compute. reflexivity.
  - reflexivity.
  - apply standin_file_delivers. vm_compute. reflexivity.
  - vm_compute. reflexivity.
  - vm_compute. reflexivity.
  - now left.
  - vm_compute. reflexivity.
Defined.

(** X10 on the package for ["hello"] followed by an empty object. *)
Lemma token_after_the_object_witness :
  StreamingReadAuthenticatedDataPackage
    (standin [(B "package", token_file newline_tab two_objects_tokens)])
    (B "package") example_publicKey
  = Some (Err (ContextError (ContextError
                 (fmt_Errorf "unexpected character %#U after object end"
                    (B "{"))))).
Proof.
  apply (token_after_the_object_is_refused
           (standin [(B "package", token_file newline_tab two_objects_tokens)])
           (B "package") example_publicKey
           {| Seek := fun _ => None;
              contents := fun _ => token_file newline_tab two_objects_tokens |}
           (spaced newline_tab two_objects_tokens) newline_tab
           hello_members tok_LBrace [tok_RBrace]).
  - vm_compute. reflexivity.
  - reflexivity.
  - apply standin_file_delivers. vm_compute. reflexivity.
  - vm_compute. reflexivity.
  - discriminate.
  - vm_compute. reflexivity.
Defined.

(** X11 on an object with the payload alone, read with a key string that
    is not base64. *)
Lemma missing_digest_witness :
  StreamingReadAuthenticatedDataPackage
    (standin [(B "package", object_file [] only_data)])
    (B "package") (B "!")
  = Some (Err (ContextError (errors_New "missing expected field"))).
Proof.
  apply (missing_digest_or_signature_is_reported
           (standin [(B "package", object_file [] only_data)])
           (B "package") (B "!")
           {| Seek := fun _ => None;
              contents := fun _ => object_file [] only_data |}
           (spaced [] (object_tokens only_data)) [] only_data).
  - vm_compute. reflexivity.
  - reflexivity.
  - apply standin_file_delivers. vm_compute. reflexivity.
  - vm_compute. reflexivity.
  - discriminate.
  - vm_compute. reflexivity.
  - left. simpl. intros [H | []]. discriminate H.
Defined.

(** X12 on a file that holds the package for ["hello"] in pass 0 and a
    text with the payload ["other"], no signature and a number after the
    value in pass 1: the caller reads ["other"]. *)
Lemma payload_of_the_second_pass_witness :
  observe (StreamingReadAuthenticatedDataPackage
             (standin_replaced (object_file [] hello_members)
                (token_file [] other_data_tokens))
             (B "package") example_publicKey)
  = Some (Ok (Some (B "other", None))).
Proof.
  apply (payload_is_that_of_the_second_pass_text
           (standin_replaced (object_file [] hello_members)
              (token_file [] other_data_tokens))
           (B "package") example_publicKey
           (replaced_file (object_file [] hello_members)
              (token_file [] other_data_tokens))
           (spaced [] (object_tokens hello_members))
           (spaced [] other_data_tokens) [] []
           hello_members [] (B "other") [tok_Other "1" []]).
  - reflexivity.
  - reflexivity.
  - reflexivity.
  - split; [vm_compute; reflexivity|].
    exists (bytes_Reader (render (spaced [] (object_tokens hello_members)) [])).
    split; [reflexivity | apply delivers_bytes_Reader].
  - vm_compute. reflexivity.
  - discriminate.
  - vm_compute. reflexivity.
  - vm_compute. reflexivity.
  - split; [vm_compute; reflexivity|].
    exists (bytes_Reader (render (spaced [] other_data_tokens) [])).
    split; [reflexivity | apply delivers_bytes_Reader].
  - vm_compute. reflexivity.
  - reflexivity.
  - reflexivity.
Defined.

(** X13 on the package for ["hello"] and the same members in reverse
    order. *)
Lemma member_order_witness :
  observe (StreamingReadAuthenticatedDataPackage
             (standin [(B "package", object_file [] hello_members);
                       (B "reversed", object_file [] (rev hello_members))])
             (B "package") example_publicKey)
  = observe (StreamingReadAuthenticatedDataPackage
               (standin [(B "package", object_file [] hello_members);
                         (B "reversed", object_file [] (rev hello_members))])
               (B "reversed") example_publicKey).
Proof.
  apply (member_order_does_not_matter
           (standin [(B "package", object_file [] hello_members);
                     (B "reversed", object_file [] (rev hello_members))])
           (B "package") (B "reversed") example_publicKey
           {| Seek := fun _ => None;
              contents := fun _ => object_file [] hello_members |}
           {| Seek := fun _ => None;
              contents := fun _ => object_file [] (rev hello_members) |}
           hello_members (rev hello_members)).
  - vm_compute. reflexivity.
  - vm_compute. reflexivity.
  - apply standin_file_holds_object. vm_compute. reflexivity.
  - apply standin_file_holds_object. vm_compute. reflexivity.
  - apply Permutation_rev.
  - exact hello_keys_NoDup.
  - discriminate.
  - vm_compute. reflexivity.
Defined.

(** X14 on the package for ["hello"] without its closing brace. *)
Lemma object_cut_short_witness :
  StreamingReadAuthenticatedDataPackage
    (standin [(B "package", token_file [] cut_short_tokens)])
    (B "package") example_publicKey
  = Some (Err (ContextError (ContextError
                 (errors_New "unexpected EOF before object end")))).
Proof.
  apply (object_cut_short_is_reported
           (standin [(B "package", token_file [] cut_short_tokens)])
           (B "package") example_publicKey
           {| Seek := fun _ => None;
              contents := fun _ => token_file [] cut_short_tokens |}
           (spaced [] cut_short_tokens) [] hello_members [tok_RBrace]).
  - vm_compute. reflexivity.
  - reflexivity.
  - apply standin_file_delivers. vm_compute. reflexivity.
  - vm_compute. reflexivity.
  - discriminate.
  - discriminate.
  - vm_compute. reflexivity.
Defined.

(** X15 on the bytes [abc] with nothing after them. *)
Lemma value_without_closing_quote_witness :
  ioutil_ReadAll {| eof := false; reader := bytes_Reader (B "abc") ++ [] |}
  = Some (B "abc", None, {| eof := false; reader := [] |})
  /\ io_Copy (B "xy") {| eof := false; reader := bytes_Reader (B "abc") ++ [] |}
     = Some (B "xy" ++ B "abc", None, {| eof := false; reader := [] |}).
Proof.
  exact (value_without_closing_quote_ends_without_error (B "abc") (B "xy") []
           eq_refl (Forall_nil _)).
Defined.

(** X16 on a package that stops after the first three bytes of its
    payload. *)
Lemma payload_cut_short_witness :
  StreamingReadAuthenticatedDataPackage
    (standin [(B "package", cut_payload_file)])
    (B "package") example_publicKey
  = Some (Err (ContextError (ContextError
                 (errors_New "unexpected EOF before object end")))).
Proof.
  apply (payload_cut_short_is_reported
           (standin [(B "package", cut_payload_file)])
           (B "package") example_publicKey
           {| Seek := fun _ => None; contents := fun _ => cut_payload_file |}
           [] [] [] [] (B "hel") (bytes_Reader (B "hel"))).
  - vm_compute. reflexivity.
  - reflexivity.
  - vm_compute. reflexivity.
  - apply delivers_bytes_Reader.
  - reflexivity.
  - reflexivity.
  - reflexivity.
  - reflexivity.
  - reflexivity.
Defined.

(** X17 on a package whose compressed stream is found corrupt after the
    first three bytes of the payload. *)
Lemma read_error_inside_the_payload_witness :
  StreamingReadAuthenticatedDataPackage
    (standin_corrupt [(B "package", cut_payload_file)])
    (B "package") example_publicKey
  = Some (Err (ContextError (ContextError (ContextError zlib_ErrChecksum)))).
Proof.
  apply (read_error_inside_the_payload_is_returned
           (standin_corrupt [(B "package", cut_payload_file)])
           (B "package") example_publicKey
           {| Seek := fun _ => None; contents := fun _ => cut_payload_file |}
           [] [] [] [] (B "hel") (no_data zlib_ErrChecksum) zlib_ErrChecksum
           []).
  - vm_compute. reflexivity.
  - reflexivity.
  - vm_compute. reflexivity.
  - reflexivity.
  - reflexivity.
  - reflexivity.
  - reflexivity.
  - reflexivity.
  - now left.
  - discriminate.
Defined.

Lemma fails_after_bytes_Reader (j : bytes) (e : error) (rest : Reader) :
  fails_after (bytes_Reader j ++ no_data e :: rest) j e.
Proof. induction j as [|b j IH]; simpl; now constructor. Qed.

(** X18 on the package for ["hello"] read through a decompressor that
    finds the stream corrupt at its end. *)
Lemma error_at_the_end_of_the_stream_witness :
  StreamingReadAuthenticatedDataPackage
    (standin_corrupt [(B "package", corrupt_at_the_end)])
    (B "package") example_publicKey
  = Some (Err (ContextError (ContextError zlib_ErrChecksum))).
Proof.
  apply (error_at_the_end_of_the_stream_is_returned
           (standin_corrupt [(B "package", corrupt_at_the_end)])
           (B "package") example_publicKey
           {| Seek := fun _ => None; contents := fun _ => corrupt_at_the_end |}
           (spaced [] (object_tokens hello_members)) [] hello_members
           (bytes_Reader hello_text ++ [no_data zlib_ErrChecksum])
           zlib_ErrChecksum).
  - vm_compute. reflexivity.
  - reflexivity.
  - vm_compute. reflexivity.
  - apply fails_after_bytes_Reader.
  - discriminate.
  - vm_compute. reflexivity.
  - vm_compute. reflexivity.
  - discriminate.
  - vm_compute. reflexivity.
Defined.

(** X19 on the package for ["hello"] cut inside the key of its second
    member. *)
Lemma text_cut_short_witness :
  exists err,
    StreamingReadAuthenticatedDataPackage
      (standin [(B "package", cut_in_a_key_file)])
      (B "package") example_publicKey
    = Some (Err err).
Proof.
  apply (text_cut_short_is_refused
           (standin [(B "package", cut_in_a_key_file)])
           (B "package") example_publicKey
           {| Seek := fun _ => None; contents := fun _ => cut_in_a_key_file |}
           (spaced [] (object_tokens hello_members)) [] hello_members
           (firstn 22 hello_text) (skipn 22 hello_text)
           (bytes_Reader (firstn 22 hello_text))).
  - vm_compute. reflexivity.
  - reflexivity.
  - vm_compute. reflexivity.
  - apply delivers_bytes_Reader.
  - symmetry. apply firstn_skipn.
  - vm_compute. reflexivity.
  - vm_compute. reflexivity.
  - vm_compute. reflexivity.
  - discriminate.
  - vm_compute. reflexivity.
Defined.

(** X22 on the package for ["hello"] read with the key string of another
    key pair. *)
Lemma package_read_with_another_key_witness :
  ReadAuthenticatedDataPackage (standin []) (example_package (B "hello"))
    other_publicKey
  = fails (ContextError (errors_New "unexpected signing public key digest")).
Proof.
  refine (proj2
    (package_read_with_another_key_is_refused (standin [])
       (B "hello") example_publicKey example_privateKey other_publicKey
       (B "PKCS" ++ [ascii_of_nat 7])
       (standin_signature 7 (B "hello"))
       (match standin_Marshal
                {| Data := B "hello";
                   SigningPublicKeyDigest := standin_sum example_publicKey;
                   Signature := standin_signature 7 (B "hello") |} with
        | Ok j => j
        | Err _ => []
        end)
       (B "RSA" ++ [ascii_of_nat 8]) 7 8
       _ _ _ _ _ _ _ _ _));
    try (vm_compute; reflexivity).
  vm_compute. discriminate.
Defined.

(** X23 on the package for ["hello"] read with the key string of another
    key pair: both readers return the error for the digest. *)
Lemma streaming_reader_fails_alike_witness :
  StreamingReadAuthenticatedDataPackage
    (standin [(B "package", example_package (B "hello"))])
    (B "package") other_publicKey
  = Some (Err (ContextError
                 (errors_New "unexpected signing public key digest"))).
Proof.
  apply (streaming_reader_fails_as_the_reader_does
           (standin [(B "package", example_package (B "hello"))])
           (B "package") other_publicKey (example_package (B "hello"))
           {| Seek := fun _ => None;
              contents := fun _ => example_package (B "hello") |}
           (bytes_Reader hello_text)
           (spaced [] (object_tokens hello_members)) [] hello_members
           (B "hello")
           (base64_encode (standin_sum example_publicKey))
           (base64_encode (standin_signature 7 (standin_sum (B "hello"))))
           {| Data := B "hello";
              SigningPublicKeyDigest := standin_sum example_publicKey;
              Signature := standin_signature 7 (standin_sum (B "hello")) |}).
  - vm_compute. reflexivity.
  - intros pass _. split; reflexivity.
  - vm_compute. reflexivity.
  - apply delivers_bytes_Reader.
  - vm_compute. reflexivity.
  - vm_compute. reflexivity.
  - vm_compute. reflexivity.
  - exact hello_keys_NoDup.
  - vm_compute. reflexivity.
  - vm_compute. reflexivity.
  - vm_compute. reflexivity.
  - vm_compute. reflexivity.
  - reflexivity.
  - vm_compute. reflexivity.
  - vm_compute. reflexivity.
  - vm_compute. reflexivity.
Defined.
